(** * SurvivalFox chat client: conversation state and request normalisation

    A shallow embedding of the client-side core of the SurvivalFox frontend
    ([dev/frontend/app/page.tsx], [dev/frontend/lib/api.ts] and
    [dev/frontend/app/menu/page.tsx]): the spoiler snapping function, the
    source normaliser, the answer gateway [ragAnswer], the
    [localStorage]-backed identity and conversation stores, the controller
    handlers [onAsk] and [resetThread], what the page computes for display
    and the game selection of the menu, followed by the properties proved
    about them.

    How the program is represented.
    - A string is its sequence of UTF-16 code units ([jsstring]); [trim],
      truthiness and [JSON.stringify] are defined on code units.
    - A [number] is [NaN], an infinity, or a finite value carried as an
      exact rational.  [snapSpoilerLevel], the one function that computes
      on numbers, is given a second time on IEEE 754 doubles; the two are
      compared in [SpoilerFacts].
    - A plain object is the list of its own properties in insertion order;
      values of unknown type are terms of [value].
    - [localStorage] is a finite map from keys to strings together with a
      quota.  [getItem] and [removeItem] always succeed; [setItem] throws
      when the items would exceed the quota, which is the failure that
      [saveMessages] catches.
    - The React state of [Home] is a record.  A handler runs to its end on
      the state committed by the previous event and leaves the state after
      its updates; React flushes the updates of a handler before the next
      event is dispatched, so the next handler closes over that state.
    - A handler is a computation on the pair of state and storage that
      completes normally or abruptly with a thrown value.  [onAsk] is cut
      at its [await] into the part that submits and the part that runs
      when the promise settles.
    - What the environment decides is an argument: the identifier that
      [crypto.randomUUID()] returns, the time that [Date.now()] returns and
      the pair that [supabase.functions.invoke] resolves with.  So are
      [JSON.parse] and [String.prototype.toLowerCase], whose tables are not
      part of the program. *)

From Stdlib Require Import QArith Qabs Lqa.
From Stdlib Require Import PrimFloat.
From Stdlib Require Import NArith ZArith Ascii String DecimalString List Bool Lia.
From stdpp Require Import gmap strings list fin_maps.

Local Open Scope list_scope.

(* ================================================================== *)
(** * Part I: the embedding                                            *)
(* ================================================================== *)

(* ------------------------------------------------------------------ *)
(** ** JavaScript numbers *)
(* ------------------------------------------------------------------ *)

Module JsNumber.

(** The values of the type [number].  A finite double is a rational, and
    the only arithmetic the program does on numbers is the difference
    [clamped - p] of [snapSpoilerLevel], between a value from 0 to 100 and
    a snap point.  Near the midpoints 16.5, 49.5 and 83, where the
    comparison of two distances decides the result, that difference is a
    double itself; away from them rounding cannot reverse the comparison.
    Finite values are therefore kept exact. *)
Inductive number : Type :=
| NaN
| NegInf
| Fin (q : Q)
| PosInf.

Definition POSITIVE_INFINITY : number := PosInf.

Definition of_Z (z : Z) : number := Fin (inject_Z z).

(** [a < b] on numbers; every comparison with [NaN] is false. *)
Definition ltb (a b : number) : bool :=
  match a, b with
  | NaN, _ | _, NaN => false
  | _, NegInf => false
  | NegInf, _ => true
  | PosInf, _ => false
  | Fin _, PosInf => true
  | Fin p, Fin q => negb (Qle_bool q p)
  end.

(** [Math.max(a, b)]: [NaN] if either argument is. *)
Definition Math_max (a b : number) : number :=
  match a, b with
  | NaN, _ | _, NaN => NaN
  | PosInf, _ | _, PosInf => PosInf
  | NegInf, x | x, NegInf => x
  | Fin p, Fin q => if Qle_bool p q then Fin q else Fin p
  end.

(** [Math.min(a, b)]: [NaN] if either argument is. *)
Definition Math_min (a b : number) : number :=
  match a, b with
  | NaN, _ | _, NaN => NaN
  | NegInf, _ | _, NegInf => NegInf
  | PosInf, x | x, PosInf => x
  | Fin p, Fin q => if Qle_bool p q then Fin p else Fin q
  end.

(** [a - b]. *)
Definition sub (a b : number) : number :=
  match a, b with
  | NaN, _ | _, NaN => NaN
  | PosInf, PosInf | NegInf, NegInf => NaN
  | PosInf, _ | _, NegInf => PosInf
  | NegInf, _ | _, PosInf => NegInf
  | Fin p, Fin q => Fin (p - q)
  end.

(** [Math.abs(a)]. *)
Definition Math_abs (a : number) : number :=
  match a with
  | NaN => NaN
  | NegInf | PosInf => PosInf
  | Fin q => Fin (Qabs q)
  end.

End JsNumber.

(* ------------------------------------------------------------------ *)
(** ** Spoiler snapping (0-100, four snap points) *)
(* ------------------------------------------------------------------ *)

Module Spoiler.
Import JsNumber.

Definition SPOILER_SNAP_POINTS : list number :=
  [of_Z 0; of_Z 33; of_Z 66; of_Z 100].

(** One iteration of the [for (const p of SPOILER_SNAP_POINTS)] loop, on the
    loop state [(best, bestDist)]. *)
Definition snap_step (clamped : number) (acc : number * number) (p : number)
  : number * number :=
  let d := Math_abs (sub clamped p) in
  if ltb d (snd acc) then (p, d) else acc.

Definition snapSpoilerLevel (v : number) : number :=
  let clamped := Math_max (of_Z 0) (Math_min (of_Z 100) v) in
  fst (fold_left (snap_step clamped) SPOILER_SNAP_POINTS
         (of_Z 0, POSITIVE_INFINITY)).

End Spoiler.

(* ------------------------------------------------------------------ *)
(** ** Spoiler snapping on IEEE 754 doubles *)
(* ------------------------------------------------------------------ *)

(** The same function on the binary64 values an engine computes with, with
    their rounding and signed zeros.  It is the reference against which
    the exact model above is compared. *)
Module Binary64.
Local Open Scope float_scope.

(** [Math.max(a, b)]: [NaN] if either argument is, and [+0] over [-0]. *)
Definition Math_max (a b : float) : float :=
  if is_nan a || is_nan b then nan
  else if a <? b then b
  else if b <? a then a
  else if get_sign a then b else a.

(** [Math.min(a, b)]: [NaN] if either argument is, and [-0] over [+0]. *)
Definition Math_min (a b : float) : float :=
  if is_nan a || is_nan b then nan
  else if a <? b then a
  else if b <? a then b
  else if get_sign a then a else b.

Definition SPOILER_SNAP_POINTS : list float := [0; 33; 66; 100].

Definition snap_step (clamped : float) (acc : float * float) (p : float)
  : float * float :=
  let d := abs (clamped - p) in
  if d <? snd acc then (p, d) else acc.

Definition snapSpoilerLevel (v : float) : float :=
  let clamped := Math_max 0 (Math_min 100 v) in
  fst (fold_left (snap_step clamped) SPOILER_SNAP_POINTS (0, infinity)).

End Binary64.

(* ------------------------------------------------------------------ *)
(** ** JavaScript strings *)
(* ------------------------------------------------------------------ *)

Module JsString.

(** A string is a sequence of UTF-16 code units. *)
Definition code_unit : Type := N.
Definition jsstring : Type := list code_unit.

(** The string written by an ASCII literal of the source. *)
Definition lit (s : string) : jsstring :=
  map N_of_ascii (list_ascii_of_string s).

(** Truthiness of a string: only the empty string is falsy. *)
Definition truthy (s : jsstring) : bool :=
  match s with [] => false | _ :: _ => true end.

(** The code units that [String.prototype.trim] strips: WhiteSpace (TAB, VT,
    FF, SP, NBSP, ZWNBSP and the space separators Zs) and LineTerminator
    (LF, CR, LS, PS). *)
Definition isWhiteSpace (c : code_unit) : bool :=
  ((9 <=? c) && (c <=? 13) ||
   (c =? 32) || (c =? 160) || (c =? 5760) ||
   (8192 <=? c) && (c <=? 8202) ||
   (c =? 8232) || (c =? 8233) || (c =? 8239) || (c =? 8287) ||
   (c =? 12288) || (c =? 65279))%N.

Fixpoint trimStart (s : jsstring) : jsstring :=
  match s with
  | [] => []
  | c :: rest => if isWhiteSpace c then trimStart rest else s
  end.

Definition trimEnd (s : jsstring) : jsstring :=
  rev (trimStart (rev s)).

Definition trim (s : jsstring) : jsstring :=
  trimEnd (trimStart s).

(** *** [JSON.stringify] of a string (QuoteJSONString) *)

Definition hex_digit (n : N) : code_unit :=
  (if n <? 10 then 48 + n else 87 + n)%N.

(** [\uXXXX] with lower-case hexadecimal digits. *)
Definition unicode_escape (c : code_unit) : jsstring :=
  [92; 117;
   hex_digit ((c / 4096) mod 16); hex_digit ((c / 256) mod 16);
   hex_digit ((c / 16) mod 16); hex_digit (c mod 16)]%N.

Definition is_high_surrogate (c : code_unit) : bool :=
  ((55296 <=? c) && (c <=? 56319))%N.

Definition is_low_surrogate (c : code_unit) : bool :=
  ((56320 <=? c) && (c <=? 57343))%N.

(** Escape of one code unit that is not a surrogate. *)
Definition quote_unit (c : code_unit) : jsstring :=
  (if c =? 8 then [92; 98]
   else if c =? 9 then [92; 116]
   else if c =? 10 then [92; 110]
   else if c =? 12 then [92; 102]
   else if c =? 13 then [92; 114]
   else if c =? 34 then [92; 34]
   else if c =? 92 then [92; 92]
   else if c <? 32 then unicode_escape c
   else [c])%N.

(** Surrogate pairs are copied, lone surrogates are escaped. *)
Fixpoint quote_body (s : jsstring) : jsstring :=
  match s with
  | [] => []
  | c :: rest =>
      if is_high_surrogate c then
        match rest with
        | d :: rest' =>
            if is_low_surrogate d then c :: d :: quote_body rest'
            else unicode_escape c ++ quote_body rest
        | [] => unicode_escape c
        end
      else if is_low_surrogate c then unicode_escape c ++ quote_body rest
      else quote_unit c ++ quote_body rest
  end.

Definition JSON_quote (s : jsstring) : jsstring :=
  [34%N] ++ quote_body s ++ [34%N].

(** [xs.join(sep)] *)
Fixpoint join (sep : jsstring) (xs : list jsstring) : jsstring :=
  match xs with
  | [] => []
  | [x] => x
  | x :: rest => x ++ sep ++ join sep rest
  end.

(** Decimal digits of a non-negative integer, as [String(n)] prints it
    (integers below 10^21 print without exponent). *)
Definition decimal (n : N) : jsstring :=
  lit (NilEmpty.string_of_uint (N.to_uint n)).

End JsString.

(* ------------------------------------------------------------------ *)
(** ** Source records and their normalisation *)
(* ------------------------------------------------------------------ *)

Module Sources.
Import JsString.

(** A source record as it arrives from [JSON.parse]: its own properties in
    insertion order.  The declared type [RagSource] gives every property
    ([title], [url], [source], [chunk_id], [author], [license_name],
    [license_url]) the type [string]; a property that is absent reads as
    [undefined]. *)
Definition RagSource : Type := list (string * jsstring).

(** [s.name]; [None] is [undefined]. *)
Fixpoint prop (s : RagSource) (name : string) : option jsstring :=
  match s with
  | [] => None
  | (k, v) :: rest => if String.eqb k name then Some v else prop rest name
  end.

(** [x?.trim()] *)
Definition opt_trim (x : option jsstring) : option jsstring :=
  match x with
  | Some s => Some (trim s)
  | None => None
  end.

(** [a || b] where [a] is a string or [undefined]. *)
Definition or_undef (a b : option jsstring) : option jsstring :=
  match a with
  | Some s => if truthy s then a else b
  | None => b
  end.

(** [a || b] where [b] is a string. *)
Definition or_string (a : option jsstring) (b : jsstring) : jsstring :=
  match a with
  | Some s => if truthy s then s else b
  | None => b
  end.

(** [JSON.stringify(s)] of a source record. *)
Definition JSON_stringify_source (s : RagSource) : jsstring :=
  lit "{" ++
  join (lit ",")
    (map (fun kv : string * jsstring =>
            JSON_quote (lit (fst kv)) ++ lit ":" ++ JSON_quote (snd kv)) s) ++
  lit "}".

Definition sourceKey (s : RagSource) : jsstring :=
  or_string
    (or_undef
       (or_undef
          (or_undef (opt_trim (prop s "url")) (opt_trim (prop s "title")))
          (opt_trim (prop s "source")))
       (opt_trim (prop s "chunk_id")))
    (JSON_stringify_source s).

Definition sourceLabel (s : RagSource) : jsstring :=
  or_string
    (or_undef
       (or_undef (opt_trim (prop s "title")) (opt_trim (prop s "source")))
       (opt_trim (prop s "url")))
    (lit "Unbekannte Quelle").

(** *** [Map<string, RagSource>]: entries in insertion order *)

Definition JsMap : Type := list (jsstring * RagSource).

Definition jsstring_eqb (a b : jsstring) : bool :=
  bool_decide (a = b).

Definition Map_has (m : JsMap) (key : jsstring) : bool :=
  existsb (fun kv : jsstring * RagSource => jsstring_eqb (fst kv) key) m.

(** [map.set(key, s)]: a present key keeps its position and takes the new
    value, a new key is appended. *)
Fixpoint Map_set (m : JsMap) (key : jsstring) (s : RagSource) : JsMap :=
  match m with
  | [] => [(key, s)]
  | (k, v) :: rest =>
      if jsstring_eqb k key then (k, s) :: rest
      else (k, v) :: Map_set rest key s
  end.

(** [Array.from(map.values())] *)
Definition Map_values (m : JsMap) : list RagSource :=
  map snd m.

(** The body of the loop of [dedupeSources]. *)
Definition dedupe_step (m : JsMap) (s : RagSource) : JsMap :=
  let key := sourceKey s in
  if negb (Map_has m key) then Map_set m key s else m.

Definition dedupeSources (sources : list RagSource) : list RagSource :=
  Map_values (fold_left dedupe_step sources []).

(** [xs.slice(0, n)] *)
Definition slice0 {A : Type} (n : nat) (xs : list A) : list A :=
  firstn n xs.

(** The rule as the specification words it: go through the records in input
    order, keep a record when its key has not been seen, drop it otherwise. *)
Fixpoint keepFirstPerKey (seen : list jsstring) (xs : list RagSource)
  : list RagSource :=
  match xs with
  | [] => []
  | x :: rest =>
      if bool_decide (sourceKey x ∈ seen) then keepFirstPerKey seen rest
      else x :: keepFirstPerKey (sourceKey x :: seen) rest
  end.

End Sources.

(* ------------------------------------------------------------------ *)
(** ** JavaScript values *)
(* ------------------------------------------------------------------ *)

Module JsValue.
Import JsNumber JsString.

(** The values that cross the gateway: what [supabase.functions.invoke]
    hands back and what the program throws.  [VObj] is a plain object with
    its properties in insertion order, [VErr] an instance of [Error] with
    the properties that can be read from it. *)
#[local] Unset Elimination Schemes.
Inductive value : Type :=
| VUndefined
| VNull
| VBool (b : bool)
| VNum (n : number)
| VStr (s : jsstring)
| VArr (xs : list value)
| VObj (props : list (string * value))
| VErr (props : list (string * value)).
#[local] Set Elimination Schemes.

(** ToBoolean *)
Definition truthy (v : value) : bool :=
  match v with
  | VUndefined | VNull => false
  | VBool b => b
  | VNum NaN => false
  | VNum (Fin q) => negb (Qeq_bool q 0)
  | VNum _ => true
  | VStr s => JsString.truthy s
  | VArr _ | VObj _ | VErr _ => true
  end.

(** [typeof v === "object"] *)
Definition typeof_object (v : value) : bool :=
  match v with
  | VNull | VArr _ | VObj _ | VErr _ => true
  | _ => false
  end.

(** [typeof v === "string"] *)
Definition typeof_string (v : value) : bool :=
  match v with VStr _ => true | _ => false end.

(** [typeof v === "number"] *)
Definition typeof_number (v : value) : bool :=
  match v with VNum _ => true | _ => false end.

(** [v instanceof Error] *)
Definition instanceof_Error (v : value) : bool :=
  match v with VErr _ => true | _ => false end.

(** [v === undefined] *)
Definition is_undefined (v : value) : bool :=
  match v with VUndefined => true | _ => false end.

(** [a || b] *)
Definition js_or (a b : value) : value :=
  if truthy a then a else b.

Definition Props : Type := list (string * value).

Fixpoint lookup_prop (props : Props) (name : string) : option value :=
  match props with
  | [] => None
  | (k, v) :: rest =>
      if String.eqb k name then Some v else lookup_prop rest name
  end.

(** [name in o] on a property list *)
Definition has_prop (props : Props) (name : string) : bool :=
  match lookup_prop props name with Some _ => true | None => false end.

(** [o.name] on a property list; a missing property reads [undefined]. *)
Definition get_prop (props : Props) (name : string) : value :=
  match lookup_prop props name with Some v => v | None => VUndefined end.

(** [o.name = v]: an existing property keeps its place, a new one goes
    last. *)
Fixpoint set_prop (props : Props) (name : string) (v : value) : Props :=
  match props with
  | [] => [(name, v)]
  | (k, w) :: rest =>
      if String.eqb k name then (k, v) :: rest
      else (k, w) :: set_prop rest name v
  end.

(** [v.name] for a name that is neither an array index nor [length], on a
    value that is not [null] or [undefined]. *)
Definition get (v : value) (name : string) : value :=
  match v with
  | VObj props | VErr props => get_prop props name
  | _ => VUndefined
  end.

End JsValue.

(* ------------------------------------------------------------------ *)
(** ** The answer gateway ([lib/api.ts]) *)
(* ------------------------------------------------------------------ *)

Module Api.
Import JsNumber JsString JsValue.

Record RagAnswerRequest : Type := {
  sessionId : jsstring;
  threadId : option jsstring;            (* [threadId?: string] *)
  query : jsstring;
  spoilerLevel : number;
  matchCount : option number;            (* [matchCount?: number] *)
  docFilter : option (option jsstring);  (* [docFilter?: string | null] *)
  developerMode : option bool;           (* [developerMode?: boolean] *)
}.

(** What [await supabase.functions.invoke(...)] destructures. *)
Record InvokeResult : Type := {
  data : value;
  error : value;
}.

(** The remote call, owned by the environment: function name and options
    body to the pair it resolves with. *)
Definition Invoke : Type := string -> Props -> InvokeResult.

(** How a call of an async function ends. *)
Inductive Outcome : Type :=
| Returned (v : value)
| Threw (e : value).

Definition normalizeSupabaseFunctionError (err : value) : value :=
  VObj (
  let base : Props :=
    [("name", VStr (lit "RagApiError"));
     ("message", VStr (lit "Request failed"))] in
  let base :=
    if instanceof_Error err then
      let base := set_prop base "name"
                    (js_or (get err "name") (get_prop base "name")) in
      set_prop base "message"
        (js_or (get err "message") (get_prop base "message"))
    else base in
  let base :=
    match err with
    | VArr _ | VObj _ | VErr _ =>
        let e := err in
        let base :=
          if typeof_string (get e "name")
          then set_prop base "name" (get e "name") else base in
        let base :=
          if typeof_string (get e "message")
          then set_prop base "message" (get e "message") else base in
        let base :=
          if typeof_number (get e "status")
          then set_prop base "status" (get e "status") else base in
        let ctx := get e "context" in
        let base :=
          match ctx with
          | VArr _ | VObj _ | VErr _ =>
              let c := ctx in
              let base :=
                if typeof_number (get c "status")
                then set_prop base "status" (get c "status") else base in
              let base :=
                if typeof_string (get c "statusText")
                then set_prop base "statusText" (get c "statusText")
                else base in
              match c with
              | VObj props | VErr props =>
                  if has_prop props "body"
                  then set_prop base "body" (get c "body") else base
              | _ => base
              end
          | _ => base
          end in
        if is_undefined (get_prop base "body")
        then set_prop base "body" e else base
    | _ => base
    end in
  base).

(** *** The identifier check *)

Definition in_range (lo hi c : code_unit) : bool :=
  ((lo <=? c) && (c <=? hi))%N.

(** [[0-9a-f]] under the flag [i] *)
Definition is_hex (c : code_unit) : bool :=
  in_range 48%N 57%N c || in_range 97%N 102%N c || in_range 65%N 70%N c.

(** [-] *)
Definition is_dash (c : code_unit) : bool := (c =? 45)%N.

(** [[1-5]] *)
Definition is_version (c : code_unit) : bool := in_range 49%N 53%N c.

(** [[89ab]] under the flag [i] *)
Definition is_variant (c : code_unit) : bool :=
  ((c =? 56) || (c =? 57) || (c =? 97) || (c =? 98) ||
   (c =? 65) || (c =? 66))%N.

(** The regular expression
    [^[0-9a-f]{8}-[0-9a-f]{4}-[1-5][0-9a-f]{3}-[89ab][0-9a-f]{3}-[0-9a-f]{12}$]
    as its sequence of character classes. *)
Definition UUID_PATTERN : list (code_unit -> bool) :=
  repeat is_hex 8 ++ [is_dash] ++
  repeat is_hex 4 ++ [is_dash] ++
  [is_version] ++ repeat is_hex 3 ++ [is_dash] ++
  [is_variant] ++ repeat is_hex 3 ++ [is_dash] ++
  repeat is_hex 12.

(** A pattern of single-character classes anchored at both ends. *)
Fixpoint regex_test (pattern : list (code_unit -> bool)) (s : jsstring)
  : bool :=
  match pattern, s with
  | [], [] => true
  | p :: pattern', c :: s' => p c && regex_test pattern' s'
  | _, _ => false
  end.

Definition isValidUuid (v : value) : bool :=
  match v with
  | VStr s => regex_test UUID_PATTERN s
  | _ => false
  end.

(** *** [ragAnswer] *)

Definition ENDPOINT : string := "rag-answer-dev".

(** The request body that [ragAnswer] builds. *)
Definition ragAnswer_body (req : RagAnswerRequest) : Props :=
  let body : Props :=
    [("query", VStr (query req));
     ("session_id", VStr (sessionId req));
     ("spoilerLevel", VNum (spoilerLevel req))] in
  let body :=
    match threadId req with
    | Some t =>
        if JsString.truthy t && isValidUuid (VStr t)
        then set_prop body "thread_id" (VStr t) else body
    | None => body
    end in
  let body :=
    match matchCount req with
    | Some n => set_prop body "match_count" (VNum n)
    | None => body
    end in
  let body :=
    match docFilter req with
    | Some (Some f) => set_prop body "doc_filter" (VStr f)
    | Some None => set_prop body "doc_filter" VNull
    | None => body
    end in
  match developerMode req with
  | Some b => set_prop body "developer_mode" (VBool b)
  | None => body
  end.

Definition api_error (message : string) (d : value) : value :=
  VObj [("name", VStr (lit "RagApiError"));
        ("message", VStr (lit message));
        ("status", VNum (of_Z 500));
        ("body", d)].

(** What [ragAnswer] does with the pair the call resolved with. *)
Definition ragAnswer_result (r : InvokeResult) : Outcome :=
  if truthy (error r) then Threw (normalizeSupabaseFunctionError (error r))
  else if negb (truthy (data r)) || negb (typeof_object (data r)) then
    Threw (api_error "Invalid response payload" (data r))
  else
    let d := data r in
    if negb (isValidUuid (get d "session_id"))
       || negb (isValidUuid (get d "thread_id")) then
      Threw (api_error "Backend response missing session_id/thread_id"
               (data r))
    else Returned (data r).

Definition ragAnswer (invoke : Invoke) (req : RagAnswerRequest) : Outcome :=
  ragAnswer_result (invoke ENDPOINT (ragAnswer_body req)).

End Api.

(* ------------------------------------------------------------------ *)
(** ** [localStorage] *)
(* ------------------------------------------------------------------ *)

Module WebStorage.
Import JsString JsValue.

(** The storage area of the origin: its items and the quota the browser
    grants.  A quota of [0] is a storage that rejects every write (the
    private mode of some browsers). *)
Record LocalStorage : Type := {
  items : gmap string jsstring;
  quota : N;
}.

(** Code units held by the items, keys and values. *)
Definition usage (m : gmap string jsstring) : N :=
  map_fold
    (fun (k : string) (v : jsstring) (acc : N) =>
       (acc + N.of_nat (String.length k) + N.of_nat (List.length v))%N)
    0%N m.

(** [localStorage.getItem(key)]; [None] is [null]. *)
Definition getItem (ls : LocalStorage) (key : string) : option jsstring :=
  items ls !! key.

(** [localStorage.setItem(key, v)]; [None] when it throws
    [QuotaExceededError], in which case the storage is unchanged. *)
Definition setItem (ls : LocalStorage) (key : string) (v : jsstring)
  : option LocalStorage :=
  let m := <[key := v]> (items ls) in
  if (usage m <=? quota ls)%N
  then Some {| items := m; quota := quota ls |}
  else None.

(** [localStorage.removeItem(key)] *)
Definition removeItem (ls : LocalStorage) (key : string) : LocalStorage :=
  {| items := delete key (items ls); quota := quota ls |}.

(** The exception of a rejected write, a [DOMException]; its message text is
    chosen by the browser and is not represented. *)
Definition QuotaExceededError : value :=
  VErr [("name", VStr (lit "QuotaExceededError"))].

End WebStorage.

(* ------------------------------------------------------------------ *)
(** ** The page: types, persisted keys and React state
       ([app/page.tsx]) *)
(* ------------------------------------------------------------------ *)

(** The response as the controller reads it through the cast
    [as RagAnswerResult]. *)
Module RagAnswerResult.
Import JsString JsValue Sources.

(** The fields [onAsk] reads; [ok] and [meta] are never read.  [None] in an
    optional field stands for [undefined] and [null] alike, which the
    operator [??] does not tell apart. *)
Record t : Type := {
  session_id : jsstring;
  thread_id : jsstring;
  answer : option jsstring;
  sources : option (list RagSource);
  interaction_id : option jsstring;
}.

(** All-or-nothing map. *)
Fixpoint traverse {A B : Type} (f : A -> option B) (xs : list A)
  : option (list B) :=
  match xs with
  | [] => Some []
  | x :: rest =>
      match f x, traverse f rest with
      | Some y, Some ys => Some (y :: ys)
      | _, _ => None
      end
  end.

(** A value read at an optional field of type [string]. *)
Definition optional_string (v : value) : option (option jsstring) :=
  match v with
  | VUndefined | VNull => Some None
  | VStr s => Some (Some s)
  | _ => None
  end.

(** A value read as a [RagSource]: a plain object with string properties. *)
Definition as_RagSource (v : value) : option RagSource :=
  match v with
  | VObj props =>
      traverse
        (fun kv : string * value =>
           match snd kv with
           | VStr s => Some (fst kv, s)
           | _ => None
           end) props
  | _ => None
  end.

Definition optional_sources (v : value) : option (option (list RagSource)) :=
  match v with
  | VUndefined | VNull => Some None
  | VArr xs =>
      match traverse as_RagSource xs with
      | Some ss => Some (Some ss)
      | None => None
      end
  | _ => None
  end.

(** The cast.  It is [None] on a payload that does not have the declared
    type; what the handler does with such a payload is not modelled. *)
Definition cast (d : value) : option t :=
  match get d "session_id", get d "thread_id",
        optional_string (get d "answer"),
        optional_sources (get d "sources"),
        optional_string (get d "interaction_id") with
  | VStr sid, VStr tid, Some a, Some ss, Some iid =>
      Some {| session_id := sid; thread_id := tid; answer := a;
              sources := ss; interaction_id := iid |}
  | _, _, _, _, _ => None
  end.

End RagAnswerResult.

Module Page.
Import JsNumber JsString JsValue Sources WebStorage.

Inductive ChatRole : Type := user | assistant.

Record ChatMessage : Type := {
  id : jsstring;
  role : ChatRole;
  content : jsstring;
  createdAt : N;                        (* [Date.now()], milliseconds *)
  sources : option (list RagSource);    (* assistant-only *)
  interaction_id : option jsstring;     (* assistant-only *)
}.

(** *** Local storage keys *)

Definition LS_SESSION : string := "survivalfox_session_id".
Definition LS_THREAD : string := "survivalfox_thread_id".
Definition LS_MESSAGES : string := "survivalfox_messages_v1".
Definition LS_GAME_ID : string := "survivalfox_game_id".

(** *** [JSON.stringify(messages)] *)

Definition role_name (r : ChatRole) : jsstring :=
  match r with user => lit "user" | assistant => lit "assistant" end.

Definition member (name : string) (text : jsstring) : jsstring :=
  JSON_quote (lit name) ++ lit ":" ++ text.

(** Properties in the order of the object literals of [onAsk]; a property
    whose value is [undefined] is left out. *)
Definition JSON_stringify_message (m : ChatMessage) : jsstring :=
  lit "{" ++
  join (lit ",")
    ([member "id" (JSON_quote (id m));
      member "role" (JSON_quote (role_name (role m)));
      member "content" (JSON_quote (content m));
      member "createdAt" (decimal (createdAt m))] ++
     match sources m with
     | Some ss =>
         [member "sources"
            (lit "[" ++ join (lit ",") (map JSON_stringify_source ss)
             ++ lit "]")]
     | None => []
     end ++
     match interaction_id m with
     | Some i => [member "interaction_id" (JSON_quote i)]
     | None => []
     end) ++
  lit "}".

Definition JSON_stringify_messages (ms : list ChatMessage) : jsstring :=
  lit "[" ++ join (lit ",") (map JSON_stringify_message ms) ++ lit "]".

(** *** React state of [Home] *)

Record State : Type := {
  sessionId : jsstring;
  threadId : option jsstring;           (* [string | null] *)
  gameId : jsstring;
  spoilerLevel : number;
  query : jsstring;
  loading : bool;
  err : option value;                   (* [RagApiError | null] *)
  messages : list ChatMessage;
  sourcesForMessageId : option jsstring;
}.

(** The arguments of the [useState] calls. *)
Definition initialState : State := {|
  sessionId := lit "";
  threadId := None;
  gameId := lit "valheim";
  spoilerLevel := of_Z 33;
  query := lit "";
  loading := false;
  err := None;
  messages := [];
  sourcesForMessageId := None;
|}.

(** *** Handlers as computations on state and storage

    A computation runs on the pair of the React state and the storage and
    completes normally with a result or abruptly with the thrown value;
    updates made before a throw stay. *)

Definition World : Type := State * LocalStorage.

Inductive Completion (A : Type) : Type :=
| Normal (a : A)
| Abrupt (e : value).
Arguments Normal {A} a.
Arguments Abrupt {A} e.

Definition M (A : Type) : Type := World -> Completion A * World.

Definition ret {A : Type} (a : A) : M A :=
  fun w => (Normal a, w).

Definition throw {A : Type} (e : value) : M A :=
  fun w => (Abrupt e, w).

Definition bind {A B : Type} (m : M A) (k : A -> M B) : M B :=
  fun w =>
    match m w with
    | (Normal a, w') => k a w'
    | (Abrupt e, w') => (Abrupt e, w')
    end.

(** [try { m } catch (e) { handler e }] *)
Definition try_catch {A : Type} (m : M A) (handler : value -> M A) : M A :=
  fun w =>
    match m w with
    | (Normal a, w') => (Normal a, w')
    | (Abrupt e, w') => handler e w'
    end.

(** [try { m } finally { cleanup }] *)
Definition try_finally {A : Type} (m : M A) (cleanup : M unit) : M A :=
  fun w =>
    match m w with
    | (c, w') =>
        match cleanup w' with
        | (Normal _, w'') => (c, w'')
        | (Abrupt e, w'') => (Abrupt e, w'')
        end
    end.

Declare Scope js_scope.
Delimit Scope js_scope with js.
Notation "x <- m ;; k" := (bind m (fun x => k))
  (at level 100, m at next level, right associativity) : js_scope.
Notation "m ;; k" := (bind m (fun _ => k))
  (at level 100, right associativity) : js_scope.
Local Open Scope js_scope.

Definition readState : M State :=
  fun w => (Normal (fst w), w).

Definition update (f : State -> State) : M unit :=
  fun w => (Normal tt, (f (fst w), snd w)).

(** The state setters returned by [useState]. *)
Definition setSessionId (v : jsstring) : M unit :=
  update (fun s =>
    {| sessionId := v; threadId := threadId s; gameId := gameId s;
       spoilerLevel := spoilerLevel s; query := query s;
       loading := loading s; err := err s; messages := messages s;
       sourcesForMessageId := sourcesForMessageId s |}).

Definition setThreadId (v : option jsstring) : M unit :=
  update (fun s =>
    {| sessionId := sessionId s; threadId := v; gameId := gameId s;
       spoilerLevel := spoilerLevel s; query := query s;
       loading := loading s; err := err s; messages := messages s;
       sourcesForMessageId := sourcesForMessageId s |}).

Definition setGameId (v : jsstring) : M unit :=
  update (fun s =>
    {| sessionId := sessionId s; threadId := threadId s; gameId := v;
       spoilerLevel := spoilerLevel s; query := query s;
       loading := loading s; err := err s; messages := messages s;
       sourcesForMessageId := sourcesForMessageId s |}).

Definition setSpoilerLevel (v : number) : M unit :=
  update (fun s =>
    {| sessionId := sessionId s; threadId := threadId s; gameId := gameId s;
       spoilerLevel := v; query := query s;
       loading := loading s; err := err s; messages := messages s;
       sourcesForMessageId := sourcesForMessageId s |}).

Definition setQuery (v : jsstring) : M unit :=
  update (fun s =>
    {| sessionId := sessionId s; threadId := threadId s; gameId := gameId s;
       spoilerLevel := spoilerLevel s; query := v;
       loading := loading s; err := err s; messages := messages s;
       sourcesForMessageId := sourcesForMessageId s |}).

Definition setLoading (v : bool) : M unit :=
  update (fun s =>
    {| sessionId := sessionId s; threadId := threadId s; gameId := gameId s;
       spoilerLevel := spoilerLevel s; query := query s;
       loading := v; err := err s; messages := messages s;
       sourcesForMessageId := sourcesForMessageId s |}).

Definition setErr (v : option value) : M unit :=
  update (fun s =>
    {| sessionId := sessionId s; threadId := threadId s; gameId := gameId s;
       spoilerLevel := spoilerLevel s; query := query s;
       loading := loading s; err := v; messages := messages s;
       sourcesForMessageId := sourcesForMessageId s |}).

Definition setMessagesTo (v : list ChatMessage) : M unit :=
  update (fun s =>
    {| sessionId := sessionId s; threadId := threadId s; gameId := gameId s;
       spoilerLevel := spoilerLevel s; query := query s;
       loading := loading s; err := err s; messages := v;
       sourcesForMessageId := sourcesForMessageId s |}).

Definition setSourcesForMessageId (v : option jsstring) : M unit :=
  update (fun s =>
    {| sessionId := sessionId s; threadId := threadId s; gameId := gameId s;
       spoilerLevel := spoilerLevel s; query := query s;
       loading := loading s; err := err s; messages := messages s;
       sourcesForMessageId := v |}).

(** [setMessages(updater)]: the updater runs on the current log and may
    touch the storage. *)
Definition setMessages (updater : list ChatMessage -> M (list ChatMessage))
  : M unit :=
  s <- readState ;;
  next <- updater (messages s) ;;
  setMessagesTo next.

(** Storage calls. *)
Definition localStorage_getItem (key : string) : M (option jsstring) :=
  fun w => (Normal (getItem (snd w) key), w).

Definition localStorage_setItem (key : string) (v : jsstring) : M unit :=
  fun w =>
    match setItem (snd w) key v with
    | Some ls' => (Normal tt, (fst w, ls'))
    | None => (Abrupt QuotaExceededError, w)
    end.

Definition localStorage_removeItem (key : string) : M unit :=
  fun w => (Normal tt, (fst w, removeItem (snd w) key)).

(** Truthiness of [string | null]. *)
Definition truthy_opt (x : option jsstring) : bool :=
  match x with Some s => JsString.truthy s | None => false end.

(** *** Helpers *)

(** [randomUUID] is the identifier [crypto.randomUUID()] returns if it is
    called. *)
Definition getOrCreateSessionId (randomUUID : jsstring) : M jsstring :=
  existing <- localStorage_getItem LS_SESSION ;;
  match existing with
  | Some e =>
      if JsString.truthy e then ret e
      else localStorage_setItem LS_SESSION randomUUID ;; ret randomUUID
  | None => localStorage_setItem LS_SESSION randomUUID ;; ret randomUUID
  end.

Definition loadThreadId : M (option jsstring) :=
  localStorage_getItem LS_THREAD.

Definition saveThreadId (threadId : option jsstring) : M unit :=
  match threadId with
  | Some t =>
      if negb (JsString.truthy t) then localStorage_removeItem LS_THREAD
      else localStorage_setItem LS_THREAD t
  | None => localStorage_removeItem LS_THREAD
  end.

Definition saveMessages (messages : list ChatMessage) : M unit :=
  try_catch
    (localStorage_setItem LS_MESSAGES (JSON_stringify_messages messages))
    (fun _ => ret tt).

Definition loadGameId : M jsstring :=
  existing <- localStorage_getItem LS_GAME_ID ;;
  let def := lit "valheim" in
  match existing with
  | Some e =>
      if JsString.truthy e then ret e
      else localStorage_setItem LS_GAME_ID def ;; ret def
  | None => localStorage_setItem LS_GAME_ID def ;; ret def
  end.

(** *** Views computed while rendering *)

(** [m.sources ?? []] *)
Definition sources_or_empty (ss : option (list RagSource)) : list RagSource :=
  match ss with Some l => l | None => [] end.

(** The sources shown under an assistant bubble. *)
Definition msgSources (m : ChatMessage) : list RagSource :=
  slice0 5 (dedupeSources (sources_or_empty (sources m))).

(** [messages.find((m) => m.id === wanted)] *)
Definition find_message (ms : list ChatMessage) (wanted : jsstring)
  : option ChatMessage :=
  List.find (fun m => jsstring_eqb (id m) wanted) ms.

(** The sources shown in the detail dialog. *)
Definition activeSources (s : State) : list RagSource :=
  match sourcesForMessageId s with
  | Some wanted =>
      if negb (JsString.truthy wanted) then []
      else
        slice0 8
          (dedupeSources
             (match find_message (messages s) wanted with
              | Some msg => sources_or_empty (sources msg)
              | None => []
              end))
  | None => []
  end.

(** *** [resetThread] *)

Definition resetThread : M unit :=
  setThreadId None ;;
  saveThreadId None ;;
  setMessagesTo [] ;;
  saveMessages [] ;;
  setErr None ;;
  setQuery (lit "") ;;
  setSourcesForMessageId None.

(** *** [onAsk]

    The handler is split at its [await].  [onAsk_begin] is the part that
    runs in the submitting event: it yields the request handed to
    [ragAnswer], or nothing when the guard returns early.  [onAsk_resume]
    is the rest of the [try] statement, run when the promise of [ragAnswer]
    settles. *)

(** [randomUUID] and [now] are what [crypto.randomUUID()] and [Date.now()]
    return in this call. *)
Definition onAsk_begin (randomUUID : jsstring) (now : N)
  : M (option Api.RagAnswerRequest) :=
  s <- readState ;;
  let q := trim (query s) in
  if negb (JsString.truthy q) || negb (JsString.truthy (sessionId s))
     || loading s
  then ret None
  else
    setLoading true ;;
    setErr None ;;
    let userMsg :=
      {| id := randomUUID; role := user; content := q; createdAt := now;
         sources := None; interaction_id := None |} in
    setMessages (fun prev =>
      let next := prev ++ [userMsg] in
      saveMessages next ;;
      ret next) ;;
    setQuery (lit "") ;;
    ret (Some {| Api.sessionId := sessionId s;
                 Api.threadId := threadId s;
                 Api.query := q;
                 Api.spoilerLevel := spoilerLevel s;
                 Api.matchCount := None;
                 Api.docFilter := None;
                 Api.developerMode := None |}).

(** How the awaited promise settles, as the handler sees it. *)
Inductive Settled : Type :=
| Fulfilled (data : RagAnswerResult.t)
| Rejected (e : value).

(** The statements of the [try] block after the [await]. *)
Definition onAsk_fulfilled (data : RagAnswerResult.t)
    (randomUUID : jsstring) (now : N) : M unit :=
  setSessionId (RagAnswerResult.session_id data) ;;
  localStorage_setItem LS_SESSION (RagAnswerResult.session_id data) ;;
  setThreadId (Some (RagAnswerResult.thread_id data)) ;;
  saveThreadId (Some (RagAnswerResult.thread_id data)) ;;
  let assistantMsg :=
    {| id := randomUUID;
       role := assistant;
       content := match RagAnswerResult.answer data with
                  | Some a => a
                  | None => lit ""
                  end;
       createdAt := now;
       sources :=
         Some (slice0 8
                 (dedupeSources
                    (sources_or_empty (RagAnswerResult.sources data))));
       interaction_id := RagAnswerResult.interaction_id data |} in
  setMessages (fun prev =>
    let next := prev ++ [assistantMsg] in
    saveMessages next ;;
    ret next).

(** The [catch] clause. *)
Definition onAsk_catch (e : value) : M unit :=
  if typeof_object e && negb (match e with VNull => true | _ => false end)
  then setErr (Some e)
  else setErr (Some (VObj [("name", VStr (lit "RagApiError"));
                           ("message", VStr (lit "Unbekannter Fehler"));
                           ("body", e)])).

Definition onAsk_resume (settled : Settled) (randomUUID : jsstring) (now : N)
  : M unit :=
  try_finally
    (try_catch
       (match settled with
        | Fulfilled data => onAsk_fulfilled data randomUUID now
        | Rejected e => throw e
        end)
       onAsk_catch)
    (setLoading false).

(** What the handler sees of an outcome of [ragAnswer]; [None] when the
    returned payload does not have the type of the cast. *)
Definition settle (o : Api.Outcome) : option Settled :=
  match o with
  | Api.Returned d =>
      match RagAnswerResult.cast d with
      | Some data => Some (Fulfilled data)
      | None => None
      end
  | Api.Threw e => Some (Rejected e)
  end.

(** An ask from submit to settlement with nothing in between: the remote
    call answers [invoke].  [None] when the guard returned early or the
    payload is outside the type of the cast. *)
Definition onAsk (invoke : Api.Invoke) (id1 : jsstring) (now1 : N)
    (id2 : jsstring) (now2 : N) (w : World) : option World :=
  match onAsk_begin id1 now1 w with
  | (Normal (Some req), w1) =>
      match settle (Api.ragAnswer invoke req) with
      | Some settled => Some (snd (onAsk_resume settled id2 now2 w1))
      | None => None
      end
  | _ => None
  end.

(** *** The page as a transition system *)

Section Events.

(** [JSON.parse(raw) as ChatMessage[]]; [None] when it throws. *)
Variable JSON_parse_messages : jsstring -> option (list ChatMessage).

Definition loadMessages : M (list ChatMessage) :=
  raw <- localStorage_getItem LS_MESSAGES ;;
  match raw with
  | Some r =>
      if JsString.truthy r then
        match JSON_parse_messages r with
        | Some ms => ret ms
        | None => ret []
        end
      else ret []
  | None => ret []
  end.

(** The effect that runs after the first render. *)
Definition mountEffect (randomUUID : jsstring) : M unit :=
  sid <- getOrCreateSessionId randomUUID ;;
  setSessionId sid ;;
  tid <- loadThreadId ;;
  setThreadId tid ;;
  stored <- loadMessages ;;
  setMessagesTo stored ;;
  gid <- loadGameId ;;
  setGameId gid.

(** The page together with the requests that were handed to [ragAnswer]
    and have not settled. *)
Record System : Type := {
  world : World;
  inflight : list Api.RagAnswerRequest;
}.

Inductive Event : Type :=
| Mount (randomUUID : jsstring)
| Change (text : jsstring)                  (* typing in the textarea *)
| Slide (val : list number)                 (* the slider moved *)
| ShowSources (messageId : jsstring)        (* the Details button *)
| CloseSources
| NewTopic                                  (* the button of resetThread *)
| Submit (randomUUID : jsstring) (now : N)  (* Enter or the send button *)
| Settle (r : Api.InvokeResult) (randomUUID : jsstring) (now : N).

(** A handler that completes normally leaves its world; an uncaught
    exception ends the page. *)
Definition run (m : M unit) (sys : System) : option System :=
  match m (world sys) with
  | (Normal _, w) => Some {| world := w; inflight := inflight sys |}
  | (Abrupt _, _) => None
  end.

Definition step (sys : System) (ev : Event) : option System :=
  match ev with
  | Mount randomUUID => run (mountEffect randomUUID) sys
  | Change text => run (setQuery text) sys
  | Slide val =>
      run (setSpoilerLevel
             (Spoiler.snapSpoilerLevel
                (match val with v :: _ => v | [] => of_Z 33 end))) sys
  | ShowSources messageId => run (setSourcesForMessageId (Some messageId)) sys
  | CloseSources => run (setSourcesForMessageId None) sys
  | NewTopic => run resetThread sys
  | Submit randomUUID now =>
      match onAsk_begin randomUUID now (world sys) with
      | (Normal (Some req), w) =>
          Some {| world := w; inflight := inflight sys ++ [req] |}
      | (Normal None, w) => Some {| world := w; inflight := inflight sys |}
      | (Abrupt _, _) => None
      end
  | Settle r randomUUID now =>
      match inflight sys with
      | [] => None
      | _ :: rest =>
          match settle (Api.ragAnswer_result r) with
          | Some settled =>
              match onAsk_resume settled randomUUID now (world sys) with
              | (Normal _, w) => Some {| world := w; inflight := rest |}
              | (Abrupt _, _) => None
              end
          | None => None
          end
      end
  end.

Fixpoint steps (sys : System) (evs : list Event) : option System :=
  match evs with
  | [] => Some sys
  | ev :: rest =>
      match step sys ev with
      | Some sys' => steps sys' rest
      | None => None
      end
  end.

(** The page before its first effect, on a given storage. *)
Definition boot (ls : LocalStorage) : System :=
  {| world := (initialState, ls); inflight := [] |}.

End Events.

End Page.

(* ------------------------------------------------------------------ *)
(** ** What the page renders from its state ([app/page.tsx]) *)
(* ------------------------------------------------------------------ *)

Module Display.
Import JsNumber JsString Sources Page.

(** [a === b] on numbers: [NaN] equals nothing, not even itself. *)
Definition strict_eq (a b : number) : bool :=
  match a, b with
  | Fin p, Fin q => Qeq_bool p q
  | NegInf, NegInf | PosInf, PosInf => true
  | _, _ => false
  end.

(** The label beside the slider.  [246] is the o with diaeresis of the
    fourth label, [8212] the dash of the fallback. *)
Definition spoilerLabel (v : number) : jsstring :=
  if strict_eq v (of_Z 0) then lit "Keine Spoiler"
  else if strict_eq v (of_Z 33) then lit "Wichtige Hinweise"
  else if strict_eq v (of_Z 66) then lit "Tipps & Tricks"
  else if strict_eq v (of_Z 100) then lit "Volle L" ++ [246%N] ++ lit "sung"
  else [8212%N].

(** [s.url] or else the empty string *)
Definition url_or_empty (s : RagSource) : jsstring :=
  match prop s "url" with Some u => u | None => lit "" end.

(** [text.startsWith(prefix)] *)
Fixpoint startsWith (prefix text : jsstring) : bool :=
  match prefix, text with
  | [], _ => true
  | p :: prefix', c :: text' => (p =? c)%N && startsWith prefix' text'
  | _ :: _, [] => false
  end.

(** The address behind the source line of an assistant bubble: the first
    shown source whose address starts with [http], else the first with an
    address at all; [None] is [undefined]. *)
Definition firstLink (shown : list RagSource) : option jsstring :=
  let other :=
    match List.find
            (fun s => negb (Nat.eqb (length (url_or_empty s)) 0)) shown with
    | Some s => prop s "url"
    | None => None
    end in
  match List.find (fun s => startsWith (lit "http") (url_or_empty s)) shown
  with
  | Some s =>
      match prop s "url" with
      | Some u => Some u
      | None => other
      end
  | None => other
  end.

(** The labels of the shown sources, joined by a middle dot ([183])
    between two spaces. *)
Definition sourceText (shown : list RagSource) : jsstring :=
  join (lit " " ++ [183%N] ++ lit " ") (map sourceLabel shown).

End Display.

(* ------------------------------------------------------------------ *)
(** ** The menu page ([app/menu/page.tsx]) *)
(* ------------------------------------------------------------------ *)

Module Menu.
Import JsString JsValue Sources WebStorage Page.

Section Menu.

(** [String.prototype.toLowerCase], whose case table is not part of the
    program. *)
Variable toLowerCase : jsstring -> jsstring.

Definition resetThreadAndMessages (ls : LocalStorage) : LocalStorage :=
  removeItem (removeItem ls LS_THREAD) LS_MESSAGES.


(** [onSelectGame(nextId)] on the state variable [gameId] and the storage,
    up to the navigation back to the chat.  The exception of a rejected
    write leaves the handler after the reset. *)
Definition onSelectGame (nextId : jsstring) (gameId : jsstring)
    (ls : LocalStorage) : Completion unit * (jsstring * LocalStorage) :=
  let current :=
    toLowerCase (match getItem ls LS_GAME_ID with
                 | Some c => c
                 | None => lit ""
                 end) in
  let ls1 :=
    if negb (jsstring_eqb current (toLowerCase nextId))
    then resetThreadAndMessages ls else ls in
  match setItem ls1 LS_GAME_ID nextId with
  | Some ls2 => (Normal tt, (nextId, ls2))
  | None => (Abrupt QuotaExceededError, (gameId, ls1))
  end.

End Menu.

End Menu.

(* ================================================================== *)
(** * Part II: properties                                              *)
(* ================================================================== *)

(* ------------------------------------------------------------------ *)
(** ** Spoiler snapping *)
(* ------------------------------------------------------------------ *)

Module SpoilerFacts.
Import JsNumber Spoiler.
Local Open Scope Q_scope.

(** The value the first line of [snapSpoilerLevel] computes. *)
Definition clamp (v : number) : number :=
  Math_max (of_Z 0) (Math_min (of_Z 100) v).

(** [c] is [v] brought into the interval from 0 to 100. *)
Definition clamps_to (v : number) (c : Q) : Prop :=
  match v with
  | NaN => False
  | NegInf => c == 0
  | PosInf => c == 100
  | Fin q =>
      0 <= c <= 100 /\
      (q <= 0 -> c == 0) /\ (0 <= q <= 100 -> c == q) /\ (100 <= q -> c == 100)
  end.

Lemma snap_step_cases clamped acc p :
  snap_step clamped acc p = (p, Math_abs (sub clamped p)) /\
    ltb (Math_abs (sub clamped p)) (snd acc) = true
  \/ snap_step clamped acc p = acc /\
    ltb (Math_abs (sub clamped p)) (snd acc) = false.
Proof.
  unfold snap_step.
  destruct (ltb (Math_abs (sub clamped p)) (snd acc)); auto.
Qed.

(** The loop only ever selects a snap point. *)
Lemma snap_fold_in clamped (ps : list number) (acc : number * number) :
  fst (fold_left (snap_step clamped) ps acc) = fst acc \/
  In (fst (fold_left (snap_step clamped) ps acc)) ps.
Proof.
  revert acc. induction ps as [|p ps IH]; intros acc; simpl.
  - now left.
  - destruct (IH (snap_step clamped acc p)) as [E|E].
    + rewrite E. destruct (snap_step_cases clamped acc p) as [[-> _]|[-> _]];
        simpl; auto.
    + auto.
Qed.

Lemma snapSpoilerLevel_in (v : number) :
  In (snapSpoilerLevel v) SPOILER_SNAP_POINTS.
Proof.
  unfold snapSpoilerLevel.
  destruct (snap_fold_in (Math_max (of_Z 0) (Math_min (of_Z 100) v))
              SPOILER_SNAP_POINTS (of_Z 0, POSITIVE_INFINITY)) as [E|E].
  - rewrite E. simpl. now left.
  - exact E.
Qed.

Lemma clamp_finite (v : number) (c : Q) :
  clamps_to v c -> exists c', clamp v = Fin c' /\ c' == c.
Proof.
  destruct v as [| |q|]; simpl; intros H.
  - destruct H.
  - exists 0. split; [reflexivity | now symmetry].
  - destruct H as (Hc & H0 & Hmid & H100).
    unfold clamp, of_Z, Math_min, Math_max.
    destruct (Qle_bool (inject_Z 100) q) eqn:E1.
    + apply Qle_bool_iff in E1. change (inject_Z 100) with 100 in *.
      destruct (Qle_bool (inject_Z 0) (inject_Z 100)) eqn:E2.
      * exists 100. split; [reflexivity|]. symmetry. apply H100. lra.
      * discriminate E2.
    + assert (q < 100) as Hq.
      { apply Qnot_le_lt. intros C. apply Qle_bool_iff in C.
        change 100 with (inject_Z 100) in C. congruence. }
      destruct (Qle_bool (inject_Z 0) q) eqn:E2.
      * apply Qle_bool_iff in E2. change (inject_Z 0) with 0 in E2.
        exists q. split; [reflexivity|]. symmetry. apply Hmid. lra.
      * assert (q < 0) as Hq0.
        { apply Qnot_le_lt. intros C. apply Qle_bool_iff in C.
          change 0 with (inject_Z 0) in C. congruence. }
        exists 0. split; [reflexivity|]. symmetry. apply H0. lra.
  - exists 100. split; [reflexivity | now symmetry].
Qed.

Lemma clamps_to_total (v : number) :
  v <> NaN -> exists c, clamps_to v c.
Proof.
  destruct v as [| |q|]; intros H.
  - congruence.
  - exists 0. reflexivity.
  - destruct (Qlt_le_dec q 0) as [L|L].
    + exists 0. simpl. repeat split; intros; lra.
    + destruct (Qlt_le_dec 100 q) as [L'|L'].
      * exists 100. simpl. repeat split; intros; lra.
      * exists q. simpl. repeat split; intros; lra.
  - exists 100. reflexivity.
Qed.

Lemma ltb_Fin_true (p q : Q) : ltb (Fin p) (Fin q) = true -> p < q.
Proof.
  simpl. intros H. apply Qnot_le_lt. intros C.
  apply Qle_bool_iff in C. rewrite C in H. discriminate.
Qed.

Lemma ltb_Fin_false (p q : Q) : ltb (Fin p) (Fin q) = false -> q <= p.
Proof.
  simpl. intros H. apply Qle_bool_iff.
  destruct (Qle_bool q p); [reflexivity | discriminate].
Qed.

Lemma Qabs_cases (x : Q) :
  (0 <= x /\ Qabs x == x) \/ (x <= 0 /\ Qabs x == - x).
Proof.
  apply Qabs_case; intros H; [left|right]; split; auto; reflexivity.
Qed.

(** The loop on a clamped value: the point it returns is nearest, and of two
    nearest points it is the lower one. *)
Lemma nearest_of_four (c : Q) :
  0 <= c <= 100 ->
  exists r,
    fst (fold_left (snap_step (Fin c)) SPOILER_SNAP_POINTS
           (of_Z 0, POSITIVE_INFINITY)) = Fin r /\
    forall p, In p [0; 33; 66; 100] ->
      Qabs (c - r) <= Qabs (c - p) /\
      (Qabs (c - p) == Qabs (c - r) -> r <= p).
Proof.
  intros Hc. unfold SPOILER_SNAP_POINTS, of_Z. cbn [fold_left].
  change (inject_Z 0) with 0. change (inject_Z 33) with 33.
  change (inject_Z 66) with 66. change (inject_Z 100) with 100.
  destruct (Qabs_cases (c - 0)) as [[S0 A0]|[S0 A0]];
  destruct (Qabs_cases (c - 33)) as [[S1 A1]|[S1 A1]];
  destruct (Qabs_cases (c - 66)) as [[S2 A2]|[S2 A2]];
  destruct (Qabs_cases (c - 100)) as [[S3 A3]|[S3 A3]];
  try (exfalso; lra).
  all: unfold snap_step at 4; cbn [snd Math_abs sub ltb POSITIVE_INFINITY].
  all: repeat match goal with
       | |- context [snap_step ?c ?acc ?p] =>
           let E := fresh "E" in
           destruct (snap_step_cases c acc p) as [[-> E]|[-> E]];
           cbn [snd fst Math_abs sub] in E;
           [apply ltb_Fin_true in E | apply ltb_Fin_false in E]
       end.
  all: cbn [fst]; eexists; (split; [reflexivity|]).
  all: intros p [<-|[<-|[<-|[<-|[]]]]]; (split; [|intros T]); lra.
Qed.

Lemma clamps_to_range (v : number) (c : Q) : clamps_to v c -> 0 <= c <= 100.
Proof.
  destruct v as [| |q|]; simpl; intros H.
  - destruct H.
  - rewrite H. lra.
  - tauto.
  - rewrite H. lra.
Qed.

(** *** The function on doubles *)

Lemma snap_step_f64_cases (clamped : float) (acc : float * float)
    (p : float) :
  Binary64.snap_step clamped acc p = (p, abs (clamped - p)%float) \/
  Binary64.snap_step clamped acc p = acc.
Proof.
  unfold Binary64.snap_step.
  destruct (abs (clamped - p) <? snd acc)%float; auto.
Qed.

Lemma snap_fold_f64_in (clamped : float) (ps : list float)
    (acc : float * float) :
  fst (fold_left (Binary64.snap_step clamped) ps acc) = fst acc \/
  In (fst (fold_left (Binary64.snap_step clamped) ps acc)) ps.
Proof.
  revert acc. induction ps as [|p ps IH]; intros acc; simpl.
  - now left.
  - destruct (IH (Binary64.snap_step clamped acc p)) as [E|E].
    + rewrite E. destruct (snap_step_f64_cases clamped acc p) as [-> | ->];
        simpl; auto.
    + auto.
Qed.

Lemma snapSpoilerLevel_f64_in (v : float) :
  In (Binary64.snapSpoilerLevel v) Binary64.SPOILER_SNAP_POINTS.
Proof.
  unfold Binary64.snapSpoilerLevel.
  destruct (snap_fold_f64_in
              (Binary64.Math_max 0 (Binary64.Math_min 100 v))
              Binary64.SPOILER_SNAP_POINTS (0%float, infinity)) as [E|E].
  - rewrite E. simpl. now left.
  - exact E.
Qed.

(** The double of an integer, exact below 2^53. *)
Fixpoint double_of_positive (p : positive) : float :=
  match p with
  | xH => 1
  | xO q => 2 * double_of_positive q
  | xI q => 2 * double_of_positive q + 1
  end%float.

Definition double_of_Z (z : Z) : float :=
  match z with
  | Z0 => 0%float
  | Zpos p => double_of_positive p
  | Zneg p => (- double_of_positive p)%float
  end.

(** The double nearest to a number of the exact model, for numerator and
    denominator below 2^53. *)
Definition to_double (n : number) : float :=
  match n with
  | NaN => nan
  | NegInf => neg_infinity
  | PosInf => infinity
  | Fin q => (double_of_Z (Qnum q) / double_of_Z (Zpos (Qden q)))%float
  end.

(** The inputs on which the two models are compared: [NaN], the infinities
    and the multiples of one half from -5 to 105, which contain every
    position of the slider and the three midpoints 16.5, 49.5 and 83. *)
Definition samples : list number :=
  [NaN; NegInf; PosInf] ++
  map (fun k : Z => Fin (Qmake k 2)) (seqZ (-10) 221).

(** On the samples the exact model computes what the doubles compute. *)
Lemma snapSpoilerLevel_models_agree :
  map (fun n => Binary64.snapSpoilerLevel (to_double n)) samples =
  map (fun n => to_double (snapSpoilerLevel n)) samples.
Proof. vm_compute. reflexivity. Qed.

(** C2: the result of [snapSpoilerLevel] is one of 0, 33, 66 and 100 for
    every input, [NaN] and the infinities included, and snapping a snapped
    value changes nothing; in the exact model and on doubles alike. *)
Theorem snapSpoilerLevel_canonical_idempotent :
  (forall v : number,
      (snapSpoilerLevel v = of_Z 0 \/ snapSpoilerLevel v = of_Z 33 \/
       snapSpoilerLevel v = of_Z 66 \/ snapSpoilerLevel v = of_Z 100) /\
      snapSpoilerLevel (snapSpoilerLevel v) = snapSpoilerLevel v) /\
  (forall x : float,
      (Binary64.snapSpoilerLevel x = 0 \/ Binary64.snapSpoilerLevel x = 33 \/
       Binary64.snapSpoilerLevel x = 66 \/
       Binary64.snapSpoilerLevel x = 100)%float /\
      Binary64.snapSpoilerLevel (Binary64.snapSpoilerLevel x)
        = Binary64.snapSpoilerLevel x).
Proof.
  split.
  - intros v. pose proof (snapSpoilerLevel_in v) as H.
    unfold SPOILER_SNAP_POINTS in H. simpl in H.
    destruct H as [H|[H|[H|[H|[]]]]]; rewrite <- H; split; auto;
      vm_compute; reflexivity.
  - intros x. pose proof (snapSpoilerLevel_f64_in x) as H.
    unfold Binary64.SPOILER_SNAP_POINTS in H. simpl in H.
    destruct H as [H|[H|[H|[H|[]]]]]; rewrite <- H; split; auto;
      vm_compute; reflexivity.
Qed.

(** C3: [snapSpoilerLevel] brings its argument into the interval from 0 to
    100 and returns the snap point nearest to the clamped value; when two
    snap points are equally near it returns the lower one.  It sends 16 to
    0, 17 to 33 and the midpoint 16.5 to 0, in the exact model and on
    doubles. *)
Theorem snapSpoilerLevel_nearest_lower_on_tie :
  (forall (v : number) (c : Q),
      clamps_to v c ->
      exists r,
        snapSpoilerLevel v = Fin r /\
        In r [0; 33; 66; 100] /\
        forall p, In p [0; 33; 66; 100] ->
          Qabs (c - r) <= Qabs (c - p) /\
          (Qabs (c - p) == Qabs (c - r) -> r <= p)) /\
  (snapSpoilerLevel (of_Z 16) = of_Z 0 /\
   snapSpoilerLevel (of_Z 17) = of_Z 33 /\
   snapSpoilerLevel (Fin (33 # 2)) = of_Z 0) /\
  (Binary64.snapSpoilerLevel 16 = 0 /\
   Binary64.snapSpoilerLevel 17 = 33 /\
   Binary64.snapSpoilerLevel 16.5 = 0)%float.
Proof.
  split; [|repeat split; vm_compute; reflexivity].
  intros v c Hv.
  destruct (clamp_finite v c Hv) as (c' & Ec & Hcc).
  pose proof (clamps_to_range v c Hv) as Hr.
  assert (0 <= c' <= 100) as Hr' by (rewrite Hcc; exact Hr).
  destruct (nearest_of_four c' Hr') as (r & Er & Hmin).
  exists r. split; [|split].
  - unfold snapSpoilerLevel. fold (clamp v). rewrite Ec. exact Er.
  - pose proof (snapSpoilerLevel_in v) as Hin.
    unfold snapSpoilerLevel in Hin. fold (clamp v) in Hin.
    rewrite Ec, Er in Hin. unfold SPOILER_SNAP_POINTS, of_Z in Hin.
    simpl in Hin.
    destruct Hin as [H|[H|[H|[H|[]]]]]; injection H as <-; simpl; auto.
  - intros p Hp. destruct (Hmin p Hp) as [H1 H2].
    rewrite <- Hcc. split; [exact H1 | exact H2].
Qed.

(** C3 at the midpoint between 0 and 33. *)
Lemma snapSpoilerLevel_nearest_lower_on_tie_witness :
  clamps_to (Fin (33 # 2)) (33 # 2) /\
  exists r,
    snapSpoilerLevel (Fin (33 # 2)) = Fin r /\
    In r [0; 33; 66; 100] /\
    forall p, In p [0; 33; 66; 100] ->
      Qabs ((33 # 2) - r) <= Qabs ((33 # 2) - p) /\
      (Qabs ((33 # 2) - p) == Qabs ((33 # 2) - r) -> r <= p).
Proof.
  assert (clamps_to (Fin (33 # 2)) (33 # 2)) as H.
  { simpl. repeat split; intros; lra. }
  split; [exact H|].
  exact (proj1 snapSpoilerLevel_nearest_lower_on_tie (Fin (33 # 2)) (33 # 2) H).
Defined.

End SpoilerFacts.

(* ------------------------------------------------------------------ *)
(** ** Source deduplication *)
(* ------------------------------------------------------------------ *)

Module SourcesFacts.
Import JsString Sources.

Lemma Map_has_spec (m : JsMap) (key : jsstring) :
  Map_has m key = true <-> key ∈ map fst m.
Proof.
  unfold Map_has, jsstring_eqb.
  induction m as [|[k v] m IH]; cbn [existsb map fst].
  - split; [discriminate | intros H; inversion H].
  - rewrite orb_true_iff, IH, bool_decide_eq_true, elem_of_cons.
    split; intros [H|H]; auto.
Qed.

(** Setting a key the map does not hold appends the entry. *)
Lemma Map_set_fresh (m : JsMap) (key : jsstring) (s : RagSource) :
  Map_has m key = false -> Map_set m key s = m ++ [(key, s)].
Proof.
  unfold Map_has.
  induction m as [|[k v] m IH]; cbn [existsb Map_set fst app]; intros H.
  - reflexivity.
  - apply orb_false_iff in H as [H1 H2]. rewrite H1. f_equal. auto.
Qed.

(** Only the set of keys seen so far matters. *)
Lemma keepFirstPerKey_ext (xs : list RagSource) (seen seen' : list jsstring) :
  (forall k, k ∈ seen <-> k ∈ seen') ->
  keepFirstPerKey seen xs = keepFirstPerKey seen' xs.
Proof.
  revert seen seen'. induction xs as [|x xs IH]; intros seen seen' H; simpl.
  - reflexivity.
  - rewrite (bool_decide_ext _ _ (H (sourceKey x))).
    case_bool_decide.
    + auto.
    + f_equal. apply IH. intros k. rewrite !elem_of_cons, H. reflexivity.
Qed.

(** The loop of [dedupeSources], started on any map, appends to its values
    the records the rule keeps. *)
Lemma dedupe_loop (xs : list RagSource) (m : JsMap) :
  Map_values (fold_left dedupe_step xs m) =
  Map_values m ++ keepFirstPerKey (map fst m) xs.
Proof.
  revert m. induction xs as [|x xs IH]; intros m; simpl.
  - now rewrite app_nil_r.
  - rewrite IH. unfold dedupe_step.
    destruct (Map_has m (sourceKey x)) eqn:E; simpl.
    + apply Map_has_spec in E. now rewrite bool_decide_eq_true_2.
    + rewrite Map_set_fresh by exact E.
      rewrite bool_decide_eq_false_2.
      2:{ intros C. apply Map_has_spec in C. congruence. }
      unfold Map_values. rewrite map_app, <- app_assoc. simpl.
      f_equal. f_equal. apply keepFirstPerKey_ext.
      intros k. rewrite map_app, elem_of_app, elem_of_cons. simpl.
      rewrite list_elem_of_singleton. tauto.
Qed.

Lemma dedupeSources_keepFirstPerKey (xs : list RagSource) :
  dedupeSources xs = keepFirstPerKey [] xs.
Proof. unfold dedupeSources. now rewrite dedupe_loop. Qed.

Lemma keepFirstPerKey_sublist (seen : list jsstring) (xs : list RagSource) :
  sublist (keepFirstPerKey seen xs) xs.
Proof.
  revert seen. induction xs as [|x xs IH]; intros seen; simpl.
  - constructor.
  - case_bool_decide.
    + apply sublist_cons, IH.
    + apply sublist_skip, IH.
Qed.

Lemma keepFirstPerKey_unseen (seen : list jsstring) (xs : list RagSource)
    (s : RagSource) :
  s ∈ keepFirstPerKey seen xs -> sourceKey s ∉ seen.
Proof.
  revert seen. induction xs as [|x xs IH]; intros seen; simpl.
  - intros H. inversion H.
  - case_bool_decide as E.
    + apply IH.
    + rewrite elem_of_cons. intros [->|H]; [exact E|].
      apply IH in H. rewrite not_elem_of_cons in H. tauto.
Qed.

Lemma keepFirstPerKey_NoDup (seen : list jsstring) (xs : list RagSource) :
  NoDup (map sourceKey (keepFirstPerKey seen xs)).
Proof.
  revert seen. induction xs as [|x xs IH]; intros seen; simpl.
  - constructor.
  - case_bool_decide.
    + apply IH.
    + simpl. constructor; [|apply IH].
      rewrite list_elem_of_In, in_map_iff. intros (s & Es & Hs).
      apply list_elem_of_In, keepFirstPerKey_unseen in Hs. rewrite Es in Hs.
      apply Hs. left.
Qed.

(** A record is kept exactly when it stands at a position of the input that
    no record with the same key precedes and whose key was not seen. *)
Lemma keepFirstPerKey_elem (seen : list jsstring) (xs : list RagSource)
    (s : RagSource) :
  s ∈ keepFirstPerKey seen xs <->
  (sourceKey s ∉ seen) /\
  exists i, xs !! i = Some s /\
    forall j s', (j < i)%nat -> xs !! j = Some s' -> sourceKey s' <> sourceKey s.
Proof.
  revert seen. induction xs as [|x xs IH]; intros seen; simpl.
  - split.
    + intros H. inversion H.
    + intros (_ & i & H & _). rewrite lookup_nil in H. discriminate.
  - case_bool_decide as E.
    + rewrite IH. split.
      * intros (Hs & i & Hi & Hfirst). split; [exact Hs|].
        exists (S i). split; [exact Hi|].
        intros [|j] s' Hj Hs'; simpl in Hs'.
        -- injection Hs' as <-. congruence.
        -- apply (Hfirst j); [lia | exact Hs'].
      * intros (Hs & [|i] & Hi & Hfirst); simpl in Hi.
        -- injection Hi as <-. contradiction.
        -- split; [exact Hs|]. exists i. split; [exact Hi|].
           intros j s' Hj Hs'. apply (Hfirst (S j)); [lia | exact Hs'].
    + rewrite elem_of_cons, IH. split.
      * intros [->|(Hs & i & Hi & Hfirst)].
        -- split; [exact E|]. exists 0%nat. split; [reflexivity|].
           intros j s' Hj. lia.
        -- rewrite not_elem_of_cons in Hs. destruct Hs as [Hne Hs].
           split; [exact Hs|]. exists (S i). split; [exact Hi|].
           intros [|j] s' Hj Hs'; simpl in Hs'.
           ++ injection Hs' as <-. congruence.
           ++ apply (Hfirst j); [lia | exact Hs'].
      * intros (Hs & [|i] & Hi & Hfirst); simpl in Hi.
        -- injection Hi as <-. now left.
        -- right. split.
           ++ rewrite not_elem_of_cons. split; [|exact Hs].
              intros C. apply (Hfirst 0%nat x); [lia | reflexivity | ].
              now symmetry.
           ++ exists i. split; [exact Hi|].
              intros j s' Hj Hs'. apply (Hfirst (S j)); [lia | exact Hs'].
Qed.

(** A list whose keys are pairwise different and unseen is kept whole. *)
Lemma keepFirstPerKey_id (seen : list jsstring) (ys : list RagSource) :
  NoDup (map sourceKey ys) ->
  (forall s, s ∈ ys -> sourceKey s ∉ seen) ->
  keepFirstPerKey seen ys = ys.
Proof.
  revert seen. induction ys as [|y ys IH]; intros seen Hnd Hseen; simpl.
  - reflexivity.
  - inversion Hnd as [|k ks Hk Hks]; subst.
    rewrite bool_decide_eq_false_2 by (apply Hseen; left).
    f_equal. apply IH; [exact Hks|].
    intros s Hs. rewrite not_elem_of_cons. split.
    + intros C. apply Hk. rewrite <- C.
      apply list_elem_of_In, in_map, list_elem_of_In, Hs.
    + apply Hseen. now right.
Qed.

(** A prefix of a deduplicated list is deduplicated. *)
Lemma dedupeSources_slice_fixed (n : nat) (xs : list RagSource) :
  dedupeSources (slice0 n (dedupeSources xs)) = slice0 n (dedupeSources xs).
Proof.
  rewrite !dedupeSources_keepFirstPerKey. unfold slice0.
  apply keepFirstPerKey_id.
  - pose proof (keepFirstPerKey_NoDup [] xs) as H.
    rewrite <- (firstn_skipn n (keepFirstPerKey [] xs)) in H.
    rewrite map_app in H. now apply NoDup_app in H as [H _].
  - intros s _ C. inversion C.
Qed.

(** C4: [dedupeSources] goes through the records in input order and keeps a
    record exactly when no earlier record has its key, so the result is a
    subsequence of the input with pairwise different keys; deduplicating
    twice is deduplicating once; and of [{url:"a"}, {url:"a"}, {title:"b"}]
    two records remain. *)
Theorem dedupeSources_first_occurrences :
  (forall xs : list RagSource,
      dedupeSources xs = keepFirstPerKey [] xs /\
      sublist (dedupeSources xs) xs /\
      NoDup (map sourceKey (dedupeSources xs)) /\
      (forall s, s ∈ dedupeSources xs <->
         exists i, xs !! i = Some s /\
           forall j s', (j < i)%nat -> xs !! j = Some s' ->
             sourceKey s' <> sourceKey s) /\
      dedupeSources (dedupeSources xs) = dedupeSources xs) /\
  dedupeSources
    [[("url", lit "a")]; [("url", lit "a")]; [("title", lit "b")]] =
    [[("url", lit "a")]; [("title", lit "b")]].
Proof.
  split; [|vm_compute; reflexivity].
  intros xs. rewrite !dedupeSources_keepFirstPerKey.
  split; [reflexivity|].
  split; [apply keepFirstPerKey_sublist|].
  split; [apply keepFirstPerKey_NoDup|].
  split.
  - intros s. rewrite keepFirstPerKey_elem. split.
    + intros [_ H]. exact H.
    + intros H. split; [|exact H]. intros C. inversion C.
  - apply keepFirstPerKey_id.
    + apply keepFirstPerKey_NoDup.
    + intros s _ C. inversion C.
Qed.

End SourcesFacts.

(* ------------------------------------------------------------------ *)
(** ** The answer gateway *)
(* ------------------------------------------------------------------ *)

Module ApiFacts.
Import JsNumber JsString JsValue Api.

Lemma lookup_set_prop (props : Props) (name name' : string) (v : value) :
  lookup_prop (set_prop props name v) name' =
  if String.eqb name name' then Some v else lookup_prop props name'.
Proof.
  induction props as [|[k w] props IH]; simpl.
  - reflexivity.
  - destruct (String.eqb k name) eqn:E; simpl.
    + apply String.eqb_eq in E. subst k.
      destruct (String.eqb name name'); reflexivity.
    + rewrite IH. destruct (String.eqb k name') eqn:E'; [|reflexivity].
      apply String.eqb_eq in E'. subst k. now rewrite String.eqb_sym, E.
Qed.

Lemma has_set_prop (props : Props) (name name' : string) (v : value) :
  has_prop (set_prop props name v) name' =
  String.eqb name name' || has_prop props name'.
Proof.
  unfold has_prop. rewrite lookup_set_prop.
  destruct (String.eqb name name'); reflexivity.
Qed.

(** The request with the thread identifier left out. *)
Definition without_thread (req : RagAnswerRequest) : RagAnswerRequest :=
  {| sessionId := sessionId req; threadId := None; query := query req;
     spoilerLevel := spoilerLevel req; matchCount := matchCount req;
     docFilter := docFilter req; developerMode := developerMode req |}.

(** The part of the body before the retrieval knobs. *)
Lemma regex_test_length (pattern : list (code_unit -> bool)) (s : jsstring) :
  regex_test pattern s = true -> length s = length pattern.
Proof.
  revert s. induction pattern as [|p pattern IH]; intros [|c s]; simpl;
    try discriminate; try reflexivity.
  intros H. apply andb_true_iff in H as [_ H]. f_equal. auto.
Qed.

(** A well-formed identifier has the 36 characters of the UUID layout, a
    version digit from 1 to 5 and a variant digit among 8, 9, a, b. *)
Lemma isValidUuid_shape (v : value) :
  isValidUuid v = true ->
  exists s, v = VStr s /\ length s = 36%nat /\ JsString.truthy s = true /\
    (forall c, s !! 14%nat = Some c -> is_version c = true) /\
    (forall c, s !! 19%nat = Some c -> is_variant c = true) /\
    (forall i c, i ∈ [8; 13; 18; 23]%nat -> s !! i = Some c -> c = 45%N).
Proof.
  destruct v as [| | | |s| | |]; cbn [isValidUuid]; try discriminate.
  intros H. exists s. split; [reflexivity|].
  pose proof (regex_test_length _ _ H) as L.
  change (length UUID_PATTERN) with 36%nat in L.
  split; [exact L|].
  do 36 (destruct s as [|? s]; [discriminate L|]).
  destruct s; [|discriminate L]. clear L.
  split; [reflexivity|].
  cbn [UUID_PATTERN repeat app regex_test] in H.
  repeat (apply andb_true_iff in H as [?H H]).
  split; [|split].
  - intros u [= <-]. assumption.
  - intros u [= <-]. assumption.
  - intros i u Hi. unfold is_dash in *.
    repeat (apply elem_of_cons in Hi as [->|Hi]);
      [ | | | | inversion Hi]; intros [= <-]; now apply N.eqb_eq.
Qed.

(** C6: the body [ragAnswer] sends has the property [thread_id] exactly when
    a thread identifier was supplied and passes the identifier check, and
    then carries it unchanged; a supplied identifier that fails the check is
    left out, so that the call goes out and ends exactly as the call
    without a thread identifier does. *)
Theorem ragAnswer_body_thread_id (req : RagAnswerRequest) :
  (has_prop (ragAnswer_body req) "thread_id" = true <->
   exists t, threadId req = Some t /\ isValidUuid (VStr t) = true) /\
  (forall t, threadId req = Some t -> isValidUuid (VStr t) = true ->
     lookup_prop (ragAnswer_body req) "thread_id" = Some (VStr t)) /\
  (forall t, threadId req = Some t -> isValidUuid (VStr t) = false ->
     ragAnswer_body req = ragAnswer_body (without_thread req) /\
     forall invoke : Invoke,
       ragAnswer invoke req = ragAnswer invoke (without_thread req)).
Proof.
  assert (forall t, threadId req = Some t -> isValidUuid (VStr t) = false ->
            ragAnswer_body req = ragAnswer_body (without_thread req)) as Hbad.
  { intros t Ht Hv. unfold ragAnswer_body, without_thread.
    cbn [threadId matchCount docFilter developerMode query sessionId
         spoilerLevel].
    rewrite Ht, Hv, andb_false_r. reflexivity. }
  assert (forall t, threadId req = Some t -> isValidUuid (VStr t) = true ->
            lookup_prop (ragAnswer_body req) "thread_id" = Some (VStr t))
    as Hgood.
  { intros t Ht Hv. unfold ragAnswer_body. rewrite Ht, Hv.
    destruct (isValidUuid_shape _ Hv) as (s & [= <-] & _ & -> & _).
    cbn [andb].
    destruct (matchCount req), (docFilter req) as [[?|]|], (developerMode req);
      repeat (rewrite lookup_set_prop; cbn [String.eqb Ascii.eqb Bool.eqb]);
      reflexivity. }
  split; [|split].
  - split.
    + intros H. destruct (threadId req) as [t|] eqn:Ht.
      * destruct (isValidUuid (VStr t)) eqn:Hv; [eauto|].
        exfalso. rewrite (Hbad t eq_refl Hv) in H. revert H.
        unfold ragAnswer_body, without_thread.
        cbn [threadId matchCount docFilter developerMode query sessionId
             spoilerLevel].
        destruct (matchCount req), (docFilter req) as [[?|]|],
          (developerMode req);
          repeat (rewrite has_set_prop; cbn [String.eqb Ascii.eqb Bool.eqb]);
          discriminate.
      * exfalso. revert H. unfold ragAnswer_body. rewrite Ht.
        destruct (matchCount req), (docFilter req) as [[?|]|],
          (developerMode req);
          repeat (rewrite has_set_prop; cbn [String.eqb Ascii.eqb Bool.eqb]);
          discriminate.
    + intros (t & Ht & Hv). unfold has_prop.
      now rewrite (Hgood t Ht Hv).
  - exact Hgood.
  - intros t Ht Hv. split; [exact (Hbad t Ht Hv)|].
    intros invoke. unfold ragAnswer. now rewrite (Hbad t Ht Hv).
Qed.

Definition well_formed_id : jsstring :=
  lit "123e4567-e89b-42d3-a456-426614174000".

Definition sample_request (t : option jsstring) : RagAnswerRequest :=
  {| sessionId := well_formed_id; threadId := t;
     query := lit "Where is the forge?"; spoilerLevel := of_Z 33;
     matchCount := None; docFilter := None; developerMode := None |}.

(** C6 on a request with a good identifier and on one with a bad one. *)
Lemma ragAnswer_body_thread_id_witness :
  lookup_prop (ragAnswer_body (sample_request (Some well_formed_id)))
    "thread_id" = Some (VStr well_formed_id) /\
  ragAnswer_body (sample_request (Some (lit "not-a-uuid"))) =
  ragAnswer_body (without_thread (sample_request (Some (lit "not-a-uuid")))).
Proof.
  split.
  - apply (proj1 (proj2 (ragAnswer_body_thread_id
                           (sample_request (Some well_formed_id))))).
    + reflexivity.
    + vm_compute. reflexivity.
  - apply (proj2 (proj2 (ragAnswer_body_thread_id
                           (sample_request (Some (lit "not-a-uuid")))))
             (lit "not-a-uuid")).
    + reflexivity.
    + vm_compute. reflexivity.
Defined.

(** A response that is a structured object: neither [null] nor a
    primitive. *)
Definition structured (d : value) : Prop :=
  truthy d = true /\ typeof_object d = true.

(** What [ragAnswer] throws is an object, which the [catch] clause of the
    controller stores as it is. *)
Lemma ragAnswer_result_throws_object (r : InvokeResult) (e : value) :
  ragAnswer_result r = Threw e -> exists props, e = VObj props.
Proof.
  unfold ragAnswer_result.
  destruct (truthy (error r)).
  { intros [= <-]. exact (ex_intro _ _ eq_refl). }
  destruct (negb (truthy (data r)) || negb (typeof_object (data r))).
  { intros [= <-]. eexists. reflexivity. }
  destruct (negb (isValidUuid (get (data r) "session_id"))
            || negb (isValidUuid (get (data r) "thread_id"))).
  { intros [= <-]. eexists. reflexivity. }
  discriminate.
Qed.

End ApiFacts.

(* ------------------------------------------------------------------ *)
(** ** Storage and the handlers of the page *)
(* ------------------------------------------------------------------ *)

Module PageFacts.
Import JsNumber JsString JsValue Sources WebStorage Page.
Local Open Scope js_scope.

(** *** Storage *)

Lemma getItem_setItem (ls ls' : LocalStorage) (key key' : string)
    (v : jsstring) :
  setItem ls key v = Some ls' ->
  getItem ls' key' = (if decide (key = key') then Some v else getItem ls key')
  /\ quota ls' = quota ls.
Proof.
  unfold setItem, getItem.
  destruct (usage (<[key:=v]> (items ls)) <=? quota ls)%N; [|discriminate].
  intros [= <-]. cbn [items quota]. split; [|reflexivity].
  apply lookup_insert.
Qed.

Lemma getItem_removeItem (ls : LocalStorage) (key key' : string) :
  getItem (removeItem ls key) key' =
  if decide (key = key') then None else getItem ls key'.
Proof. unfold getItem, removeItem. cbn [items]. apply lookup_delete. Qed.

(** A write whose rejection is swallowed. *)
Definition persist (ls : LocalStorage) (key : string) (v : jsstring)
  : LocalStorage :=
  match setItem ls key v with Some ls' => ls' | None => ls end.

Lemma getItem_persist_ne (ls : LocalStorage) (key key' : string)
    (v : jsstring) :
  key <> key' -> getItem (persist ls key v) key' = getItem ls key'.
Proof.
  intros Hne. unfold persist. destruct (setItem ls key v) as [ls'|] eqn:E.
  - destruct (getItem_setItem _ _ _ key' _ E) as [-> _].
    now rewrite decide_False.
  - reflexivity.
Qed.

Lemma quota_persist (ls : LocalStorage) (key : string) (v : jsstring) :
  quota (persist ls key v) = quota ls.
Proof.
  unfold persist. destruct (setItem ls key v) as [ls'|] eqn:E.
  - now destruct (getItem_setItem _ _ _ key _ E) as [_ ->].
  - reflexivity.
Qed.

Lemma saveMessages_run (ms : list ChatMessage) (w : World) :
  saveMessages ms w =
  (Normal tt, (fst w, persist (snd w) LS_MESSAGES (JSON_stringify_messages ms))).
Proof.
  unfold saveMessages, try_catch, localStorage_setItem, persist, ret.
  destruct w as [s ls]. cbn [fst snd].
  destruct (setItem ls LS_MESSAGES (JSON_stringify_messages ms)); reflexivity.
Qed.

(** *** What a computation leaves unchanged *)

(** [m] never changes the observation [f] of the world. *)
Definition keeps {A X : Type} (f : World -> X) (m : M A) : Prop :=
  forall w, f (snd (m w)) = f w.

Create HintDb frame discriminated.

Lemma keeps_ret {A X} (f : World -> X) (a : A) : keeps f (ret a).
Proof. intros w. reflexivity. Qed.

Lemma keeps_throw {A X} (f : World -> X) (e : value) : keeps f (@throw A e).
Proof. intros w. reflexivity. Qed.

Lemma keeps_bind {A B X} (f : World -> X) (m : M A) (k : A -> M B) :
  keeps f m -> (forall a, keeps f (k a)) -> keeps f (bind m k).
Proof.
  intros Hm Hk w. unfold bind. specialize (Hm w).
  destruct (m w) as [[a|e] w']; cbn [snd] in *.
  - now rewrite Hk.
  - exact Hm.
Qed.

Lemma keeps_try_catch {A X} (f : World -> X) (m : M A) (h : value -> M A) :
  keeps f m -> (forall e, keeps f (h e)) -> keeps f (try_catch m h).
Proof.
  intros Hm Hh w. unfold try_catch. specialize (Hm w).
  destruct (m w) as [[a|e] w']; cbn [snd] in *.
  - exact Hm.
  - now rewrite Hh.
Qed.

Lemma keeps_try_finally {A X} (f : World -> X) (m : M A) (c : M unit) :
  keeps f m -> keeps f c -> keeps f (try_finally m c).
Proof.
  intros Hm Hc w. unfold try_finally. specialize (Hm w).
  destruct (m w) as [r w']. specialize (Hc w').
  destruct (c w') as [[u|e] w'']; cbn [snd] in *; congruence.
Qed.

Lemma keeps_readState {X} (f : World -> X) : keeps f readState.
Proof. intros w. reflexivity. Qed.

Lemma keeps_update {X} (f : World -> X) (g : State -> State) :
  (forall s ls, f (g s, ls) = f (s, ls)) -> keeps f (update g).
Proof. intros H [s ls]. apply H. Qed.

Lemma keeps_getItem {X} (f : World -> X) (key : string) :
  keeps f (localStorage_getItem key).
Proof. intros w. reflexivity. Qed.

Lemma keeps_setMessages {X} (f : World -> X)
    (updater : list ChatMessage -> M (list ChatMessage)) :
  (forall prev, keeps f (updater prev)) ->
  (forall next, keeps f (setMessagesTo next)) ->
  keeps f (setMessages updater).
Proof.
  intros Hu Hs. unfold setMessages.
  apply keeps_bind; [apply keeps_readState|]. intros s.
  apply keeps_bind; [apply Hu|]. intros next. apply Hs.
Qed.

(** Observations of the state are untouched by storage calls. *)
Lemma keeps_state_setItem {X} (g : State -> X) (key : string) (v : jsstring) :
  keeps (fun w => g (fst w)) (localStorage_setItem key v).
Proof.
  intros [s ls]. unfold localStorage_setItem. cbn [fst snd].
  destruct (setItem ls key v); reflexivity.
Qed.

Lemma keeps_state_removeItem {X} (g : State -> X) (key : string) :
  keeps (fun w => g (fst w)) (localStorage_removeItem key).
Proof. intros [s ls]. reflexivity. Qed.

(** An item is untouched by calls on other keys and by state updates. *)
Lemma keeps_item_setItem (key key' : string) (v : jsstring) :
  key' <> key ->
  keeps (fun w => getItem (snd w) key) (localStorage_setItem key' v).
Proof.
  intros Hne [s ls]. unfold localStorage_setItem. cbn [fst snd].
  destruct (setItem ls key' v) as [ls'|] eqn:E; cbn [snd]; [|reflexivity].
  destruct (getItem_setItem _ _ _ key _ E) as [-> _].
  now rewrite decide_False.
Qed.

Lemma keeps_item_removeItem (key key' : string) :
  key' <> key ->
  keeps (fun w => getItem (snd w) key) (localStorage_removeItem key').
Proof.
  intros Hne [s ls]. unfold localStorage_removeItem. cbn [fst snd].
  rewrite getItem_removeItem. now rewrite decide_False.
Qed.

Lemma keeps_storage_update {X} (g : LocalStorage -> X) (h : State -> State) :
  keeps (fun w => g (snd w)) (update h).
Proof. intros [s ls]. reflexivity. Qed.

#[export] Hint Resolve keeps_ret keeps_throw keeps_readState keeps_getItem
  keeps_state_setItem keeps_state_removeItem keeps_storage_update : frame.
#[export] Hint Extern 1 (keeps _ (update _)) =>
  apply keeps_update; intros ? ?; reflexivity : frame.
#[export] Hint Extern 1 (keeps _ (localStorage_setItem _ _)) =>
  apply keeps_item_setItem; discriminate : frame.
#[export] Hint Extern 1 (keeps _ (localStorage_removeItem _)) =>
  apply keeps_item_removeItem; discriminate : frame.

(** Takes a handler apart down to its primitive calls, whose frame
    conditions the hints discharge. *)
Ltac frame :=
  repeat first
    [ apply keeps_bind; [|intros ?]
    | apply keeps_try_finally
    | apply keeps_try_catch; [|intros ?]
    | apply keeps_setMessages; intros ?
    | match goal with
      | |- keeps _ (match ?x with _ => _ end) => destruct x
      | |- keeps _ (if ?b then _ else _) => destruct b
      end
    | solve [auto with frame] ].

(** *** [getOrCreateSessionId] *)

Definition sample_uuid : jsstring :=
  lit "123e4567-e89b-42d3-a456-426614174000".

Definition other_uuid : jsstring :=
  lit "9f1c2d3e-4b5a-4c6d-8e7f-0a1b2c3d4e5f".

(** An empty storage with room for [n] code units. *)
Definition empty_storage (n : N) : LocalStorage :=
  {| items := ∅; quota := n |}.

(** C8, as the code has it: a persisted identifier that is not the empty
    string is returned as it is and the storage is not written; otherwise a
    new identifier is generated and, once the storage has accepted it,
    returned; and whenever a call returns, the next call on the storage it
    left returns the same value and leaves the storage alone. *)
Theorem getOrCreateSessionId_idempotent (w : World) (id1 id2 : jsstring) :
  JsString.truthy id1 = true ->
  (forall e, getItem (snd w) LS_SESSION = Some e ->
     JsString.truthy e = true ->
     getOrCreateSessionId id1 w = (Normal e, w)) /\
  (forall ls', truthy_opt (getItem (snd w) LS_SESSION) = false ->
     setItem (snd w) LS_SESSION id1 = Some ls' ->
     getOrCreateSessionId id1 w = (Normal id1, (fst w, ls')) /\
     getItem ls' LS_SESSION = Some id1) /\
  (forall v w1, getOrCreateSessionId id1 w = (Normal v, w1) ->
     getOrCreateSessionId id2 w1 = (Normal v, w1)).
Proof.
  intros Hid. destruct w as [s ls].
  assert (forall e, getItem ls LS_SESSION = Some e ->
            JsString.truthy e = true ->
            forall id (s' : State),
              getOrCreateSessionId id (s', ls) = (Normal e, (s', ls))) as Hkeep.
  { intros e He Ht id s'.
    unfold getOrCreateSessionId, bind, localStorage_getItem. cbn [fst snd].
    now rewrite He, Ht. }
  assert (forall ls', truthy_opt (getItem ls LS_SESSION) = false ->
            setItem ls LS_SESSION id1 = Some ls' ->
            getOrCreateSessionId id1 (s, ls) = (Normal id1, (s, ls')))
    as Hnew.
  { intros ls' Hf Hset.
    unfold getOrCreateSessionId, bind, localStorage_getItem,
      localStorage_setItem, ret. cbn [fst snd].
    unfold truthy_opt in Hf.
    destruct (getItem ls LS_SESSION) as [e|]; [rewrite Hf|];
      cbv beta iota; cbn [fst snd]; now rewrite Hset. }
  split; [|split].
  - intros e He Ht. cbn [snd] in He. now apply Hkeep.
  - cbn [fst snd]. intros ls' Hf Hset. split; [now apply Hnew|].
    destruct (getItem_setItem _ _ _ LS_SESSION _ Hset) as [-> _].
    now rewrite decide_True.
  - intros v w1.
    destruct (truthy_opt (getItem ls LS_SESSION)) eqn:Ht.
    + unfold truthy_opt in Ht.
      destruct (getItem ls LS_SESSION) as [e|] eqn:He; [|discriminate].
      rewrite (Hkeep e eq_refl Ht id1 s). intros [= <- <-]. now apply Hkeep.
    + destruct (setItem ls LS_SESSION id1) as [ls'|] eqn:Hset.
      * rewrite (Hnew ls' eq_refl eq_refl). intros [= <- <-].
        unfold getOrCreateSessionId, bind, localStorage_getItem.
        cbn [fst snd].
        destruct (getItem_setItem _ _ _ LS_SESSION _ Hset) as [-> _].
        now rewrite decide_True, Hid.
      * unfold getOrCreateSessionId, bind, localStorage_getItem,
          localStorage_setItem. cbn [fst snd].
        unfold truthy_opt in Ht.
        destruct (getItem ls LS_SESSION) as [e|]; [rewrite Ht|];
          cbv beta iota; cbn [fst snd]; rewrite Hset; discriminate.
Qed.

(** C8 on a storage that holds no session identifier. *)
Lemma getOrCreateSessionId_idempotent_witness :
  JsString.truthy sample_uuid = true /\
  forall v w1,
    getOrCreateSessionId sample_uuid (initialState, empty_storage 1000)
      = (Normal v, w1) ->
    getOrCreateSessionId other_uuid w1 = (Normal v, w1).
Proof.
  split; [reflexivity|].
  apply (getOrCreateSessionId_idempotent
           (initialState, empty_storage 1000) sample_uuid other_uuid).
  reflexivity.
Defined.

(** C8 as stated fails: a persisted session identifier that is the empty
    string is not returned but replaced by a new one. *)
Lemma getOrCreateSessionId_counterexample :
  let ls := {| items := {[ LS_SESSION := lit "" ]}; quota := 1000 |} in
  getItem ls LS_SESSION = Some (lit "") /\
  fst (getOrCreateSessionId sample_uuid (initialState, ls))
    = Normal sample_uuid /\
  getItem (snd (snd (getOrCreateSessionId sample_uuid (initialState, ls))))
    LS_SESSION = Some sample_uuid /\
  sample_uuid <> lit "".
Proof.
  split; [reflexivity|]. split; [vm_compute; reflexivity|].
  split; [vm_compute; reflexivity|]. discriminate.
Qed.

(** On a storage that rejects the write the call does not return: the
    exception of [setItem] leaves the function, nothing is persisted. *)
Lemma getOrCreateSessionId_rejected_write (s : State) (ls : LocalStorage)
    (randomUUID : jsstring) :
  truthy_opt (getItem ls LS_SESSION) = false ->
  setItem ls LS_SESSION randomUUID = None ->
  getOrCreateSessionId randomUUID (s, ls) = (Abrupt QuotaExceededError, (s, ls)).
Proof.
  intros Hf Hset.
  unfold getOrCreateSessionId, bind, localStorage_getItem,
    localStorage_setItem. cbn [fst snd].
  unfold truthy_opt in Hf.
  destruct (getItem ls LS_SESSION) as [e|]; [rewrite Hf|];
    cbv beta iota; cbn [fst snd]; now rewrite Hset.
Qed.

(** So it is on the empty storage of a browser that grants no quota. *)
Example getOrCreateSessionId_private_mode :
  getOrCreateSessionId sample_uuid (initialState, empty_storage 0)
    = (Abrupt QuotaExceededError, (initialState, empty_storage 0)).
Proof. vm_compute. reflexivity. Qed.

(** *** [resetThread] *)

(** The state [resetThread] leaves. *)
Definition cleared (s : State) : State :=
  {| sessionId := sessionId s; threadId := None; gameId := gameId s;
     spoilerLevel := spoilerLevel s; query := lit ""; loading := loading s;
     err := None; messages := []; sourcesForMessageId := None |}.

(** The text of the empty log. *)
Lemma JSON_stringify_messages_nil : JSON_stringify_messages [] = lit "[]".
Proof. reflexivity. Qed.

Lemma resetThread_run (s : State) (ls : LocalStorage) :
  resetThread (s, ls) =
  (Normal tt,
   (cleared s, persist (removeItem ls LS_THREAD) LS_MESSAGES (lit "[]"))).
Proof.
  unfold resetThread, bind, saveThreadId, localStorage_removeItem,
    setThreadId, setMessagesTo, setErr, setQuery, setSourcesForMessageId,
    update.
  cbn [fst snd]. rewrite saveMessages_run, JSON_stringify_messages_nil.
  reflexivity.
Qed.

(** C9, as the code has it: [resetThread] clears the thread identifier in
    memory and in storage, the message log in memory, the displayed error,
    the input text and also the selection of the source dialog; it
    overwrites the persisted log with the empty log when the storage
    accepts the write and leaves it as it was when the write is rejected.
    The session identifier in memory and in storage, the game, the spoiler
    level, the loading flag and every other item are unchanged. *)
Theorem resetThread_frame (s : State) (ls : LocalStorage) :
  exists ls',
    resetThread (s, ls) = (Normal tt, (cleared s, ls')) /\
    (threadId (cleared s) = None /\ getItem ls' LS_THREAD = None) /\
    (messages (cleared s) = [] /\
     (forall ls2, setItem (removeItem ls LS_THREAD) LS_MESSAGES (lit "[]")
                    = Some ls2 ->
        getItem ls' LS_MESSAGES = Some (lit "[]")) /\
     (setItem (removeItem ls LS_THREAD) LS_MESSAGES (lit "[]") = None ->
        getItem ls' LS_MESSAGES = getItem ls LS_MESSAGES)) /\
    (err (cleared s) = None /\ query (cleared s) = lit "" /\
     sourcesForMessageId (cleared s) = None) /\
    (sessionId (cleared s) = sessionId s /\
     getItem ls' LS_SESSION = getItem ls LS_SESSION) /\
    (gameId (cleared s) = gameId s /\
     spoilerLevel (cleared s) = spoilerLevel s /\
     loading (cleared s) = loading s) /\
    (forall key, key <> LS_THREAD -> key <> LS_MESSAGES ->
       getItem ls' key = getItem ls key) /\
    quota ls' = quota ls.
Proof.
  exists (persist (removeItem ls LS_THREAD) LS_MESSAGES (lit "[]")).
  assert (forall key, key <> LS_THREAD -> key <> LS_MESSAGES ->
            getItem (persist (removeItem ls LS_THREAD) LS_MESSAGES (lit "[]"))
              key = getItem ls key) as Hother.
  { intros key H1 H2. rewrite getItem_persist_ne by congruence.
    rewrite getItem_removeItem. now rewrite decide_False by congruence. }
  split; [apply resetThread_run|].
  split; [split; [reflexivity|]|].
  { rewrite getItem_persist_ne by discriminate.
    rewrite getItem_removeItem. now rewrite decide_True. }
  split; [split; [reflexivity|split]|].
  { intros ls2 E. unfold persist. rewrite E.
    destruct (getItem_setItem _ _ _ LS_MESSAGES _ E) as [-> _].
    now rewrite decide_True. }
  { intros E. unfold persist. rewrite E. rewrite getItem_removeItem.
    now rewrite decide_False by discriminate. }
  split; [repeat split|].
  split; [split; [reflexivity|apply Hother; discriminate]|].
  split; [repeat split|].
  split; [exact Hother|].
  rewrite quota_persist. reflexivity.
Qed.

(** *** The quota *)

Definition item_size (key : string) (v : jsstring) : N :=
  (N.of_nat (String.length key) + N.of_nat (length v))%N.

Lemma usage_delete (m : gmap string jsstring) (key : string) (v : jsstring) :
  m !! key = Some v ->
  usage m = (usage (delete key m) + item_size key v)%N.
Proof.
  intros H. unfold usage, item_size.
  rewrite (map_fold_delete_L _ _ key v m); [lia | | exact H].
  intros. lia.
Qed.

Lemma usage_insert (m : gmap string jsstring) (key : string) (v : jsstring) :
  usage (<[key:=v]> m) = (usage (delete key m) + item_size key v)%N.
Proof.
  rewrite <- (insert_delete_eq m key v). unfold usage, item_size.
  rewrite map_fold_insert_L; [lia|intros; lia|apply lookup_delete_eq].
Qed.

Lemma usage_delete_le (m : gmap string jsstring) (key : string) :
  (usage (delete key m) <= usage m)%N.
Proof.
  destruct (m !! key) as [v|] eqn:E.
  - rewrite (usage_delete m key v E). lia.
  - rewrite delete_id by exact E. lia.
Qed.

(** The storage holds no more than its quota. *)
Definition within_quota (ls : LocalStorage) : Prop :=
  (usage (items ls) <= quota ls)%N.

(** A storage within its quota accepts a value in the place of one that is
    not shorter. *)
Lemma setItem_accepts_shorter (ls : LocalStorage) (key : string)
    (old v : jsstring) :
  within_quota ls ->
  getItem ls key = Some old ->
  (length v <= length old)%nat ->
  exists ls', setItem ls key v = Some ls' /\ within_quota ls'.
Proof.
  unfold within_quota, getItem, setItem. intros Hq Hold Hlen.
  assert (usage (<[key:=v]> (items ls)) <= quota ls)%N as Hfit.
  { rewrite usage_insert. rewrite (usage_delete _ key old Hold) in Hq.
    unfold item_size in *. lia. }
  apply N.leb_le in Hfit as Hfit'. rewrite Hfit'.
  eexists. split; [reflexivity|]. exact Hfit.
Qed.

Lemma within_quota_removeItem (ls : LocalStorage) (key : string) :
  within_quota ls -> within_quota (removeItem ls key).
Proof.
  unfold within_quota, removeItem. cbn [items quota].
  pose proof (usage_delete_le (items ls) key). lia.
Qed.

(** The text of a log is at least its two brackets long. *)
Lemma JSON_stringify_messages_length (ms : list ChatMessage) :
  (2 <= length (JSON_stringify_messages ms))%nat.
Proof.
  unfold JSON_stringify_messages. rewrite !length_app. cbn [lit length
    list_ascii_of_string map]. lia.
Qed.

(** On a storage within its quota [resetThread] does empty a persisted log
    that [saveMessages] has written. *)
Lemma resetThread_empties_persisted_log (s : State) (ls : LocalStorage)
    (old : jsstring) :
  within_quota ls ->
  getItem ls LS_MESSAGES = Some old ->
  (2 <= length old)%nat ->
  getItem (snd (snd (resetThread (s, ls)))) LS_MESSAGES = Some (lit "[]").
Proof.
  intros Hq Hold Hlen. rewrite resetThread_run. cbn [snd].
  destruct (setItem_accepts_shorter (removeItem ls LS_THREAD) LS_MESSAGES
              old (lit "[]")) as (ls' & E & _).
  - now apply within_quota_removeItem.
  - rewrite getItem_removeItem. now rewrite decide_False by discriminate.
  - exact Hlen.
  - unfold persist. rewrite E.
    destruct (getItem_setItem _ _ _ LS_MESSAGES _ E) as [-> _].
    now rewrite decide_True.
Qed.

Definition sample_message : ChatMessage :=
  {| id := other_uuid; role := user; content := lit "Where is the forge?";
     createdAt := 1730000000000; sources := None; interaction_id := None |}.

(** C9 on a page that shows one message of a thread. *)
Lemma resetThread_frame_witness :
  let s := {| sessionId := sample_uuid; threadId := Some other_uuid;
              gameId := lit "valheim"; spoilerLevel := of_Z 33;
              query := lit "next"; loading := false; err := None;
              messages := [sample_message];
              sourcesForMessageId := None |} in
  let ls := {| items := {[ LS_SESSION := sample_uuid;
                           LS_THREAD := other_uuid;
                           LS_MESSAGES :=
                             JSON_stringify_messages [sample_message] ]};
               quota := 5000 |} in
  exists ls',
    resetThread (s, ls) = (Normal tt, (cleared s, ls')) /\
    getItem ls' LS_THREAD = None /\
    getItem ls' LS_MESSAGES = Some (lit "[]") /\
    getItem ls' LS_SESSION = Some sample_uuid.
Proof.
  intros s ls.
  destruct (resetThread_frame s ls)
    as (ls' & Hrun & [_ Hthread] & (_ & Hlog & _) & _ & [_ Hsess] & _).
  exists ls'. split; [exact Hrun|]. split; [exact Hthread|]. split.
  - refine (Hlog _ _). vm_compute. reflexivity.
  - rewrite Hsess. vm_compute. reflexivity.
Defined.

(** C9 as stated fails: [resetThread] clears one more thing, the selection
    of the source dialog. *)
Lemma resetThread_counterexample :
  let s := {| sessionId := sample_uuid; threadId := None;
              gameId := lit "valheim"; spoilerLevel := of_Z 33;
              query := lit ""; loading := false; err := None;
              messages := [];
              sourcesForMessageId := Some other_uuid |} in
  sourcesForMessageId (fst (snd (resetThread (s, empty_storage 1000))))
    <> sourcesForMessageId s.
Proof. vm_compute. discriminate. Qed.

(** *** [onAsk]: the guard and the submitting part *)

(** Reduces projections of pairs and of explicit states. *)
Ltac reduce :=
  cbn [fst snd sessionId threadId gameId spoilerLevel query loading err
       messages sourcesForMessageId].

(** The guard of [onAsk] returns early. *)
Definition blocked (s : State) : Prop :=
  JsString.truthy (trim (query s)) = false \/
  JsString.truthy (sessionId s) = false \/
  loading s = true.

(** The user message [onAsk] appends. *)
Definition userMsg_of (s : State) (randomUUID : jsstring) (now : N)
  : ChatMessage :=
  {| id := randomUUID; role := user; content := trim (query s);
     createdAt := now; sources := None; interaction_id := None |}.

(** The request [onAsk] hands to [ragAnswer]. *)
Definition request_of (s : State) : Api.RagAnswerRequest :=
  {| Api.sessionId := sessionId s; Api.threadId := threadId s;
     Api.query := trim (query s); Api.spoilerLevel := spoilerLevel s;
     Api.matchCount := None; Api.docFilter := None;
     Api.developerMode := None |}.

(** The state in which the request is awaited. *)
Definition sending (s : State) (randomUUID : jsstring) (now : N) : State :=
  {| sessionId := sessionId s; threadId := threadId s; gameId := gameId s;
     spoilerLevel := spoilerLevel s; query := lit ""; loading := true;
     err := None; messages := messages s ++ [userMsg_of s randomUUID now];
     sourcesForMessageId := sourcesForMessageId s |}.

Lemma onAsk_begin_blocked (s : State) (ls : LocalStorage)
    (randomUUID : jsstring) (now : N) :
  blocked s -> onAsk_begin randomUUID now (s, ls) = (Normal None, (s, ls)).
Proof.
  intros H. unfold onAsk_begin, bind, readState. cbn [fst snd].
  assert (negb (JsString.truthy (trim (query s)))
          || negb (JsString.truthy (sessionId s)) || loading s = true) as ->.
  { destruct H as [-> | [-> | ->] ]; cbn [negb orb];
      repeat rewrite orb_true_r; reflexivity. }
  reflexivity.
Qed.

Lemma onAsk_begin_dispatch (s : State) (ls : LocalStorage)
    (randomUUID : jsstring) (now : N) :
  JsString.truthy (trim (query s)) = true ->
  JsString.truthy (sessionId s) = true ->
  loading s = false ->
  onAsk_begin randomUUID now (s, ls) =
  (Normal (Some (request_of s)),
   (sending s randomUUID now,
    persist ls LS_MESSAGES
      (JSON_stringify_messages
         (messages s ++ [userMsg_of s randomUUID now])))).
Proof.
  intros Hq Hs Hl.
  unfold onAsk_begin, bind, readState. cbn [fst snd].
  rewrite Hq, Hs, Hl. cbn [negb orb].
  unfold setMessages, setLoading, setErr, setQuery, setMessagesTo.
  unfold bind, readState, update, ret.
  reduce. rewrite saveMessages_run. reflexivity.
Qed.

Lemma blocked_dec (s : State) :
  blocked s \/
  (JsString.truthy (trim (query s)) = true /\
   JsString.truthy (sessionId s) = true /\ loading s = false).
Proof.
  unfold blocked.
  destruct (JsString.truthy (trim (query s))),
    (JsString.truthy (sessionId s)), (loading s); auto.
Qed.

(** A text of white space only trims to the empty string. *)
Lemma trimStart_whitespace (t : jsstring) :
  forallb isWhiteSpace t = true -> trimStart t = [].
Proof.
  induction t as [|c t IH]; cbn [forallb trimStart]; [reflexivity|].
  intros H. apply andb_true_iff in H as [-> H]. auto.
Qed.

Lemma trim_whitespace (t : jsstring) :
  forallb isWhiteSpace t = true -> trim t = [].
Proof.
  intros H. unfold trim. now rewrite trimStart_whitespace.
Qed.

(** *** [onAsk]: the part after the [await] *)

(** The state after the [catch] clause and the [finally] clause. *)
Definition failed (s : State) (e : value) : State :=
  {| sessionId := sessionId s; threadId := threadId s; gameId := gameId s;
     spoilerLevel := spoilerLevel s; query := query s; loading := false;
     err := Some e; messages := messages s;
     sourcesForMessageId := sourcesForMessageId s |}.

(** The error the [catch] clause records for a thrown value. *)
Definition recorded (e : value) : value :=
  if typeof_object e && negb (match e with VNull => true | _ => false end)
  then e
  else VObj [("name", VStr (lit "RagApiError"));
             ("message", VStr (lit "Unbekannter Fehler"));
             ("body", e)].

Lemma onAsk_resume_rejected (s : State) (ls : LocalStorage) (e : value)
    (randomUUID : jsstring) (now : N) :
  onAsk_resume (Rejected e) randomUUID now (s, ls) =
  (Normal tt, (failed s (recorded e), ls)).
Proof.
  unfold onAsk_resume, try_finally, try_catch, throw, onAsk_catch, recorded.
  destruct (typeof_object e
            && negb (match e with VNull => true | _ => false end));
    reflexivity.
Qed.

Lemma recorded_object (props : Props) : recorded (VObj props) = VObj props.
Proof. reflexivity. Qed.

(** The assistant message [onAsk] appends. *)
Definition assistantMsg_of (data : RagAnswerResult.t)
    (randomUUID : jsstring) (now : N) : ChatMessage :=
  {| id := randomUUID; role := assistant;
     content := match RagAnswerResult.answer data with
                | Some a => a
                | None => lit ""
                end;
     createdAt := now;
     sources :=
       Some (slice0 8
               (dedupeSources
                  (sources_or_empty (RagAnswerResult.sources data))));
     interaction_id := RagAnswerResult.interaction_id data |}.

(** The state after an answer was taken over. *)
Definition answered (s : State) (data : RagAnswerResult.t)
    (randomUUID : jsstring) (now : N) : State :=
  {| sessionId := RagAnswerResult.session_id data;
     threadId := Some (RagAnswerResult.thread_id data);
     gameId := gameId s; spoilerLevel := spoilerLevel s; query := query s;
     loading := false; err := err s;
     messages := messages s ++ [assistantMsg_of data randomUUID now];
     sourcesForMessageId := sourcesForMessageId s |}.

Lemma onAsk_resume_fulfilled (s : State) (ls ls1 ls2 : LocalStorage)
    (data : RagAnswerResult.t) (randomUUID : jsstring) (now : N) :
  JsString.truthy (RagAnswerResult.thread_id data) = true ->
  setItem ls LS_SESSION (RagAnswerResult.session_id data) = Some ls1 ->
  setItem ls1 LS_THREAD (RagAnswerResult.thread_id data) = Some ls2 ->
  onAsk_resume (Fulfilled data) randomUUID now (s, ls) =
  (Normal tt,
   (answered s data randomUUID now,
    persist ls2 LS_MESSAGES
      (JSON_stringify_messages
         (messages s ++ [assistantMsg_of data randomUUID now])))).
Proof.
  intros Ht H1 H2.
  unfold onAsk_resume, onAsk_fulfilled, saveThreadId, setMessages,
    setSessionId, setThreadId, setMessagesTo, setLoading.
  unfold try_finally, try_catch, bind, localStorage_setItem, readState,
    update, ret.
  reduce. rewrite H1. reduce. rewrite Ht. cbn [negb]. reduce.
  rewrite H2. reduce. rewrite saveMessages_run. reflexivity.
Qed.

(** Whatever the promise settles with, the [finally] clause leaves the
    loading flag off. *)
Lemma onAsk_resume_not_loading (settled : Settled) (randomUUID : jsstring)
    (now : N) (w : World) :
  loading (fst (snd (onAsk_resume settled randomUUID now w))) = false.
Proof.
  unfold onAsk_resume, try_finally.
  destruct (try_catch _ onAsk_catch w) as [c [s ls]].
  reflexivity.
Qed.

(** An identifier that [ragAnswer] let through is not the empty string. *)
Lemma returned_thread_id_truthy (r : Api.InvokeResult) (d : value)
    (data : RagAnswerResult.t) :
  Api.ragAnswer_result r = Api.Returned d ->
  RagAnswerResult.cast d = Some data ->
  JsString.truthy (RagAnswerResult.thread_id data) = true /\
  Api.isValidUuid (VStr (RagAnswerResult.session_id data)) = true /\
  Api.isValidUuid (VStr (RagAnswerResult.thread_id data)) = true.
Proof.
  unfold Api.ragAnswer_result.
  destruct (truthy (Api.error r)); [discriminate|].
  destruct (negb (truthy (Api.data r)) || negb (typeof_object (Api.data r)));
    [discriminate|].
  destruct (Api.isValidUuid (get (Api.data r) "session_id")) eqn:Hs;
    [|discriminate].
  destruct (Api.isValidUuid (get (Api.data r) "thread_id")) eqn:Ht;
    [|discriminate].
  cbn [negb orb]. intros [= <-]. unfold RagAnswerResult.cast.
  destruct (ApiFacts.isValidUuid_shape _ Hs) as (sid & Es & _).
  destruct (ApiFacts.isValidUuid_shape _ Ht) as (tid & Et & _ & Htt & _).
  rewrite Es, Et in *.
  destruct (RagAnswerResult.optional_string (get (Api.data r) "answer"));
    [|discriminate].
  destruct (RagAnswerResult.optional_sources (get (Api.data r) "sources"));
    [|discriminate].
  destruct (RagAnswerResult.optional_string
              (get (Api.data r) "interaction_id")); [|discriminate].
  intros [= <-]. cbn [RagAnswerResult.thread_id RagAnswerResult.session_id].
  auto.
Qed.

(** *** C1: what is stored and what is shown *)

Lemma slice0_slice0 {A : Type} (n m : nat) (xs : list A) :
  slice0 n (slice0 m xs) = slice0 (Nat.min n m) xs.
Proof. unfold slice0. apply firstn_firstn. Qed.

(** C1, as the code has it: on an answer whose identifiers the storage
    accepts, the assistant message that goes into the log holds the first 8
    records of the deduplicated sources of the response, so all of them
    when there are at most 8.  Showing is truncation of what is stored: the
    bubble shows the first 5 stored records and the dialog the stored
    records, and neither changes the message. *)
Theorem onAsk_stores_first_eight_sources (s : State)
    (ls ls1 ls2 : LocalStorage) (data : RagAnswerResult.t)
    (randomUUID : jsstring) (now : N) :
  JsString.truthy (RagAnswerResult.thread_id data) = true ->
  setItem ls LS_SESSION (RagAnswerResult.session_id data) = Some ls1 ->
  setItem ls1 LS_THREAD (RagAnswerResult.thread_id data) = Some ls2 ->
  let m := assistantMsg_of data randomUUID now in
  let deduplicated :=
    dedupeSources (sources_or_empty (RagAnswerResult.sources data)) in
  let log := messages s ++ [m] in
  onAsk_resume (Fulfilled data) randomUUID now (s, ls) =
    (Normal tt,
     (answered s data randomUUID now,
      persist ls2 LS_MESSAGES (JSON_stringify_messages log))) /\
  messages (answered s data randomUUID now) = log /\
  sources m = Some (slice0 8 deduplicated) /\
  ((length deduplicated <= 8)%nat -> sources m = Some deduplicated) /\
  msgSources m = slice0 5 deduplicated /\
  (forall s' : State,
      sourcesForMessageId s' = Some randomUUID ->
      JsString.truthy randomUUID = true ->
      find_message (messages s') randomUUID = Some m ->
      activeSources s' = slice0 8 deduplicated).
Proof.
  intros Ht H1 H2 m deduplicated log.
  split; [now apply onAsk_resume_fulfilled with (ls1 := ls1)|].
  split; [reflexivity|].
  split; [reflexivity|].
  split.
  { intros Hlen. unfold m, assistantMsg_of. cbn [sources]. f_equal.
    unfold slice0. now apply firstn_all2. }
  split.
  { unfold msgSources, m, assistantMsg_of, deduplicated.
    cbn [sources sources_or_empty].
    rewrite SourcesFacts.dedupeSources_slice_fixed. apply slice0_slice0. }
  intros s' Hsel Hid Hfind. unfold activeSources.
  rewrite Hsel, Hid, Hfind. unfold m, assistantMsg_of, deduplicated.
  cbn [negb sources sources_or_empty].
  rewrite SourcesFacts.dedupeSources_slice_fixed. apply slice0_slice0.
Qed.

(** Nine sources with different addresses. *)
Definition nine_sources : list RagSource :=
  map (fun u : string => [("title", lit "Wiki"); ("url", lit u)])
    ["https://x/1"; "https://x/2"; "https://x/3"; "https://x/4";
     "https://x/5"; "https://x/6"; "https://x/7"; "https://x/8";
     "https://x/9"].

Definition nine_source_answer : RagAnswerResult.t :=
  {| RagAnswerResult.session_id := sample_uuid;
     RagAnswerResult.thread_id := other_uuid;
     RagAnswerResult.answer := Some (lit "Near the shore.");
     RagAnswerResult.sources := Some nine_sources;
     RagAnswerResult.interaction_id := None |}.

(** The page while the question of [sample_message] is awaited. *)
Definition awaiting : State :=
  {| sessionId := sample_uuid; threadId := None; gameId := lit "valheim";
     spoilerLevel := of_Z 33; query := lit ""; loading := true; err := None;
     messages := [sample_message]; sourcesForMessageId := None |}.

(** C1 on an answer with nine sources. *)
Lemma onAsk_stores_first_eight_sources_witness :
  sources (assistantMsg_of nine_source_answer sample_uuid 1730000000500)
    = Some (slice0 8 nine_sources) /\
  msgSources (assistantMsg_of nine_source_answer sample_uuid 1730000000500)
    = slice0 5 nine_sources.
Proof.
  pose (ls1 := persist (empty_storage 10000) LS_SESSION sample_uuid).
  pose (ls2 := persist ls1 LS_THREAD other_uuid).
  assert (setItem (empty_storage 10000) LS_SESSION sample_uuid = Some ls1)
    as E1 by (vm_compute; reflexivity).
  assert (setItem ls1 LS_THREAD other_uuid = Some ls2)
    as E2 by (vm_compute; reflexivity).
  destruct (onAsk_stores_first_eight_sources awaiting (empty_storage 10000)
              ls1 ls2 nine_source_answer sample_uuid 1730000000500
              eq_refl E1 E2) as (_ & _ & Hstored & _ & Hshown & _).
  split.
  - rewrite Hstored. vm_compute. reflexivity.
  - rewrite Hshown. vm_compute. reflexivity.
Defined.

(** C1 as stated fails: of the nine deduplicated sources of this answer the
    stored assistant message holds eight; the ninth is gone from the log. *)
Lemma onAsk_stores_all_sources_counterexample :
  let w := snd (onAsk_resume (Fulfilled nine_source_answer) sample_uuid
                  1730000000500 (awaiting, empty_storage 10000)) in
  dedupeSources nine_sources = nine_sources /\
  exists m, last (messages (fst w)) = Some m /\
    role m = assistant /\
    sources m = Some (slice0 8 nine_sources) /\
    sources m <> Some (dedupeSources nine_sources).
Proof.
  split; [vm_compute; reflexivity|].
  eexists. split; [vm_compute; reflexivity|].
  split; [reflexivity|]. split; [vm_compute; reflexivity|].
  vm_compute. discriminate.
Qed.


(** *** C5: a response without well-formed identifiers *)

(** C5: when the call resolved without an error and with a structured
    object whose [session_id] or [thread_id] fails the identifier check,
    [ragAnswer] throws the object with name [RagApiError], message
    [Backend response missing session_id/thread_id], status 500 and the raw
    response as body; the controller records that object as the error and
    appends no message. *)
Theorem ragAnswer_missing_ids_rejected (r : Api.InvokeResult) :
  truthy (Api.error r) = false ->
  ApiFacts.structured (Api.data r) ->
  Api.isValidUuid (get (Api.data r) "session_id") = false \/
  Api.isValidUuid (get (Api.data r) "thread_id") = false ->
  let e :=
    VObj [("name", VStr (lit "RagApiError"));
          ("message",
           VStr (lit "Backend response missing session_id/thread_id"));
          ("status", VNum (of_Z 500));
          ("body", Api.data r)] in
  Api.ragAnswer_result r = Api.Threw e /\
  (forall (invoke : Api.Invoke) (req : Api.RagAnswerRequest),
      invoke Api.ENDPOINT (Api.ragAnswer_body req) = r ->
      Api.ragAnswer invoke req = Api.Threw e) /\
  settle (Api.Threw e) = Some (Rejected e) /\
  (forall (s : State) (ls : LocalStorage) (randomUUID : jsstring) (now : N),
      onAsk_resume (Rejected e) randomUUID now (s, ls)
        = (Normal tt, (failed s e, ls)) /\
      messages (failed s e) = messages s /\
      err (failed s e) = Some e).
Proof.
  intros Herr [Htruthy Hobj] Hids e.
  assert (Api.ragAnswer_result r = Api.Threw e) as Hthrow.
  { unfold Api.ragAnswer_result. rewrite Herr, Htruthy, Hobj. cbn [negb orb].
    assert (negb (Api.isValidUuid (get (Api.data r) "session_id"))
            || negb (Api.isValidUuid (get (Api.data r) "thread_id")) = true)
      as ->.
    { destruct Hids as [-> | ->]; cbn [negb orb];
        [reflexivity | apply orb_true_r]. }
    reflexivity. }
  split; [exact Hthrow|].
  split; [intros invoke req <-; exact Hthrow|].
  split; [reflexivity|].
  intros s ls randomUUID now.
  rewrite onAsk_resume_rejected. repeat split.
Qed.

(** A response that lacks [thread_id]. *)
Definition response_without_thread : Api.InvokeResult :=
  {| Api.data :=
       VObj [("ok", VBool true);
             ("session_id", VStr sample_uuid);
             ("answer", VStr (lit "Near the shore."))];
     Api.error := VNull |}.

(** C5 on a response that lacks [thread_id]. *)
Lemma ragAnswer_missing_ids_rejected_witness :
  Api.ragAnswer_result response_without_thread =
  Api.Threw
    (VObj [("name", VStr (lit "RagApiError"));
           ("message",
            VStr (lit "Backend response missing session_id/thread_id"));
           ("status", VNum (of_Z 500));
           ("body", Api.data response_without_thread)]).
Proof.
  apply (ragAnswer_missing_ids_rejected response_without_thread).
  - reflexivity.
  - split; reflexivity.
  - right. reflexivity.
Defined.

(** *** C10: an ask that fails *)

(** The state after an ask that was submitted in [s] and failed with [e]. *)
Definition after_failure (s : State) (randomUUID : jsstring) (now : N)
    (e : value) : State :=
  {| sessionId := sessionId s; threadId := threadId s; gameId := gameId s;
     spoilerLevel := spoilerLevel s; query := lit ""; loading := false;
     err := Some e; messages := messages s ++ [userMsg_of s randomUUID now];
     sourcesForMessageId := sourcesForMessageId s |}.

(** C10, as the code has it: when [ragAnswer] throws, the session and thread
    identifiers in memory and in storage are what they were when the ask
    began.  What has changed is the recorded error, the user message
    appended on entry (in the log and, if the storage took the write, in
    the persisted log) and the input text, which was cleared on entry.
    The part of the handler that runs on the rejection changes nothing but
    the error and the loading flag, on whatever state it finds. *)
Theorem onAsk_failure_keeps_identity (invoke : Api.Invoke) (s : State)
    (ls : LocalStorage) (e : value) (id1 : jsstring) (now1 : N)
    (id2 : jsstring) (now2 : N) :
  JsString.truthy (trim (query s)) = true ->
  JsString.truthy (sessionId s) = true ->
  loading s = false ->
  Api.ragAnswer invoke (request_of s) = Api.Threw e ->
  let ls' :=
    persist ls LS_MESSAGES
      (JSON_stringify_messages (messages s ++ [userMsg_of s id1 now1])) in
  onAsk invoke id1 now1 id2 now2 (s, ls)
    = Some (after_failure s id1 now1 e, ls') /\
  (sessionId (after_failure s id1 now1 e) = sessionId s /\
   threadId (after_failure s id1 now1 e) = threadId s /\
   getItem ls' LS_SESSION = getItem ls LS_SESSION /\
   getItem ls' LS_THREAD = getItem ls LS_THREAD) /\
  (forall key, key <> LS_MESSAGES -> getItem ls' key = getItem ls key) /\
  (forall (s1 : State) (ls1 : LocalStorage),
      onAsk_resume (Rejected e) id2 now2 (s1, ls1)
        = (Normal tt, (failed s1 e, ls1))).
Proof.
  intros Hq Hs Hl Hthrow ls'.
  destruct (ApiFacts.ragAnswer_result_throws_object _ _ Hthrow)
    as [props ->].
  assert (forall key, key <> LS_MESSAGES -> getItem ls' key = getItem ls key)
    as Hother.
  { intros key Hkey. unfold ls'. apply getItem_persist_ne. congruence. }
  split.
  { unfold onAsk. rewrite onAsk_begin_dispatch by assumption.
    rewrite Hthrow. cbn [settle]. rewrite onAsk_resume_rejected.
    reflexivity. }
  split.
  { repeat split; try reflexivity; apply Hother; discriminate. }
  split; [exact Hother|].
  intros s1 ls1. apply onAsk_resume_rejected.
Qed.

(** A remote call that answers nothing usable. *)
Definition broken_invoke : Api.Invoke :=
  fun _ _ => {| Api.data := VNull; Api.error := VUndefined |}.

(** The page with a question typed in. *)
Definition asking : State :=
  {| sessionId := sample_uuid; threadId := Some other_uuid;
     gameId := lit "valheim"; spoilerLevel := of_Z 33;
     query := lit " Where is the forge? "; loading := false; err := None;
     messages := []; sourcesForMessageId := None |}.

Definition stored_identity : LocalStorage :=
  {| items := {[ LS_SESSION := sample_uuid; LS_THREAD := other_uuid ]};
     quota := 5000 |}.

(** C10 on a call that comes back with [null]. *)
Lemma onAsk_failure_keeps_identity_witness :
  exists w,
    onAsk broken_invoke other_uuid 1730000000000 sample_uuid 1730000000500
      (asking, stored_identity) = Some w /\
    sessionId (fst w) = sample_uuid /\
    threadId (fst w) = Some other_uuid /\
    getItem (snd w) LS_SESSION = Some sample_uuid /\
    getItem (snd w) LS_THREAD = Some other_uuid.
Proof.
  destruct (onAsk_failure_keeps_identity broken_invoke asking stored_identity
              (Api.api_error "Invalid response payload" VNull)
              other_uuid 1730000000000 sample_uuid 1730000000500)
    as (Hrun & (H1 & H2 & H3 & H4) & _).
  - vm_compute. reflexivity.
  - reflexivity.
  - reflexivity.
  - vm_compute. reflexivity.
  - eexists. split; [exact Hrun|]. cbn [fst snd].
    rewrite H1, H2, H3, H4. repeat split; vm_compute; reflexivity.
Defined.

(** C10 as stated fails: besides the error and the user message, the failed
    ask has changed the input text, which the handler cleared on entry. *)
Lemma onAsk_failure_counterexample :
  exists w,
    onAsk broken_invoke other_uuid 1730000000000 sample_uuid 1730000000500
      (asking, stored_identity) = Some w /\
    query asking = lit " Where is the forge? " /\
    query (fst w) = lit "" /\
    query (fst w) <> query asking.
Proof.
  eexists. split; [vm_compute; reflexivity|].
  split; [reflexivity|]. split; [reflexivity|]. discriminate.
Qed.

(** *** C7: one ask at a time *)

Section SingleFlight.

Variable JSON_parse_messages : jsstring -> option (list ChatMessage).

Abbreviation step := (step JSON_parse_messages).
Abbreviation steps := (steps JSON_parse_messages).

(** The loading flag is on exactly while one request is awaited, and there
    is never a second one. *)
Definition single_flight (sys : System) : Prop :=
  (loading (fst (world sys)) = false /\ inflight sys = []) \/
  (loading (fst (world sys)) = true /\ exists req, inflight sys = [req]).

Definition loading_of (w : World) : bool := loading (fst w).

Lemma run_keeps_flight (m : M unit) (sys sys' : System) :
  keeps loading_of m ->
  run m sys = Some sys' ->
  single_flight sys -> single_flight sys'.
Proof.
  intros Hm. unfold run. specialize (Hm (world sys)). unfold loading_of in Hm.
  destruct (m (world sys)) as [[u|e] w]; [|discriminate].
  intros [= <-]. unfold single_flight. cbn [world inflight snd] in *.
  now rewrite Hm.
Qed.

Lemma mountEffect_keeps_loading (randomUUID : jsstring) :
  keeps loading_of (mountEffect JSON_parse_messages randomUUID).
Proof.
  unfold mountEffect, getOrCreateSessionId, loadThreadId, loadMessages,
    loadGameId, setSessionId, setThreadId, setMessagesTo, setGameId,
    loading_of.
  frame.
Qed.

Lemma resetThread_keeps_loading : keeps loading_of resetThread.
Proof.
  unfold resetThread, saveThreadId, saveMessages, setThreadId, setMessagesTo,
    setErr, setQuery, setSourcesForMessageId, loading_of.
  frame.
Qed.

Lemma step_single_flight (sys sys' : System) (ev : Event) :
  single_flight sys -> step sys ev = Some sys' -> single_flight sys'.
Proof.
  intros Hinv. destruct ev as [id|text|val|mid| | |id now|r id now];
    cbn [Page.step].
  - intros H. eapply run_keeps_flight; eauto. apply mountEffect_keeps_loading.
  - intros H. eapply run_keeps_flight; eauto.
    unfold setQuery, loading_of. frame.
  - intros H. eapply run_keeps_flight; eauto.
    unfold setSpoilerLevel, loading_of. frame.
  - intros H. eapply run_keeps_flight; eauto.
    unfold setSourcesForMessageId, loading_of. frame.
  - intros H. eapply run_keeps_flight; eauto.
    unfold setSourcesForMessageId, loading_of. frame.
  - intros H. eapply run_keeps_flight; eauto.
    apply resetThread_keeps_loading.
  - destruct sys as [[s ls] pending]. cbn [world inflight] in *.
    destruct (blocked_dec s) as [Hb|(Hq & Hs & Hl)].
    + rewrite onAsk_begin_blocked by exact Hb. intros [= <-]. exact Hinv.
    + rewrite onAsk_begin_dispatch by assumption. intros [= <-].
      right. cbn [world inflight fst sending loading]. split; [reflexivity|].
      destruct Hinv as [[_ Hp]|[Hp _]]; cbn [world inflight fst] in Hp.
      * rewrite Hp. eauto.
      * congruence.
  - destruct (inflight sys) as [|req rest] eqn:Hp; [discriminate|].
    destruct (settle (Api.ragAnswer_result r)) as [settled|]; [|discriminate].
    pose proof (onAsk_resume_not_loading settled id now (world sys)) as Hoff.
    destruct (onAsk_resume settled id now (world sys)) as [[u|e] w];
      [|discriminate].
    intros [= <-]. left. cbn [world inflight snd] in *. split; [exact Hoff|].
    destruct Hinv as [[_ Hq]|[_ [req' Hq]]]; congruence.
Qed.

Lemma steps_single_flight (evs : list Event) (sys sys' : System) :
  single_flight sys -> steps sys evs = Some sys' -> single_flight sys'.
Proof.
  revert sys. induction evs as [|ev evs IH]; intros sys Hinv; cbn [Page.steps].
  - now intros [= <-].
  - destruct (step sys ev) as [sys1|] eqn:E; [|discriminate].
    apply IH. eapply step_single_flight; eauto.
Qed.

(** C7: a submit while the page is loading, with a query that trims to the
    empty string (so an empty one or one of white space only) or without a
    session identifier changes neither state nor storage and hands nothing
    to [ragAnswer]; and in every run of the page from its start at most one
    request is awaited at any time, the loading flag being on exactly
    then. *)
Theorem onAsk_guard_single_flight :
  (forall (s : State) (ls : LocalStorage) (randomUUID : jsstring) (now : N),
      blocked s ->
      onAsk_begin randomUUID now (s, ls) = (Normal None, (s, ls))) /\
  (forall s : State,
      forallb isWhiteSpace (query s) = true -> blocked s) /\
  (forall (sys : System) (randomUUID : jsstring) (now : N),
      blocked (fst (world sys)) ->
      step sys (Submit randomUUID now) = Some sys) /\
  (forall (ls : LocalStorage) (evs : list Event) (sys : System),
      steps (boot ls) evs = Some sys ->
      (length (inflight sys) <= 1)%nat /\
      (loading (fst (world sys)) = true <-> inflight sys <> [])).
Proof.
  split; [exact onAsk_begin_blocked|].
  split.
  { intros s H. left. now rewrite trim_whitespace. }
  split.
  { intros [[s ls] pending] randomUUID now Hb. cbn [Page.step world fst] in *.
    now rewrite onAsk_begin_blocked. }
  intros ls evs sys Hrun.
  assert (single_flight sys) as [[Hl Hp]|[Hl [req Hp]]].
  { eapply steps_single_flight; [|exact Hrun]. left. split; reflexivity. }
  - rewrite Hl, Hp. cbn [length]. split; [lia|]. split; congruence.
  - rewrite Hl, Hp. cbn [length]. split; [lia|]. split; congruence.
Qed.

End SingleFlight.

(** A parser that accepts no text, so that a stored log always loads as the
    empty log. *)
Definition no_parse : jsstring -> option (list ChatMessage) :=
  fun _ => None.

(** The question is submitted twice before the answer arrives. *)
Definition double_submit : list Event :=
  [Mount sample_uuid;
   Change (lit "Where is the forge?");
   Submit other_uuid 1730000000000;
   Change (lit "Where is the forge?");
   Submit sample_uuid 1730000000100].

(** C7 on that run. *)
Lemma onAsk_guard_single_flight_witness :
  exists sys,
    steps no_parse (boot (empty_storage 10000)) double_submit = Some sys /\
    (length (inflight sys) <= 1)%nat /\
    length (messages (fst (world sys))) = 1%nat /\
    forall randomUUID now,
      step no_parse sys (Submit randomUUID now) = Some sys.
Proof.
  eexists. split; [vm_compute; reflexivity|].
  split.
  - refine (proj1 (proj2 (proj2 (proj2 (onAsk_guard_single_flight no_parse)))
                     (empty_storage 10000) double_submit _ _)).
    vm_compute. reflexivity.
  - split; [vm_compute; reflexivity|].
    intros randomUUID now.
    apply (proj1 (proj2 (proj2 (onAsk_guard_single_flight no_parse)))).
    right. right. vm_compute. reflexivity.
Defined.

(** *** An ask from end to end *)

(** A remote call that answers the question with one source, listed
    twice. *)
Definition forge_invoke : Api.Invoke :=
  fun _ _ =>
    {| Api.data :=
         VObj [("ok", VBool true);
               ("session_id", VStr sample_uuid);
               ("thread_id", VStr other_uuid);
               ("answer", VStr (lit "Near the shore."));
               ("sources",
                VArr [VObj [("title", VStr (lit "Wiki"));
                            ("url", VStr (lit "https://x"))];
                      VObj [("title", VStr (lit "Wiki again"));
                            ("url", VStr (lit "https://x"))]])];
       Api.error := VNull |}.

(** The page after its first effect, with the question typed in. *)
Definition forge_question : State :=
  {| sessionId := sample_uuid; threadId := None; gameId := lit "valheim";
     spoilerLevel := of_Z 33; query := lit "Where is the forge?";
     loading := false; err := None; messages := [];
     sourcesForMessageId := None |}.

(** The ask leaves two messages, the question and the answer with its one
    deduplicated source, and the thread identifier of the response in
    memory and in storage. *)
Example onAsk_end_to_end :
  exists w,
    onAsk forge_invoke other_uuid 1730000000000 sample_uuid 1730000000500
      (forge_question, empty_storage 10000) = Some w /\
    map role (messages (fst w)) = [user; assistant] /\
    map content (messages (fst w)) =
      [lit "Where is the forge?"; lit "Near the shore."] /\
    map sources (messages (fst w)) =
      [None; Some [[("title", lit "Wiki"); ("url", lit "https://x")]]] /\
    threadId (fst w) = Some other_uuid /\
    getItem (snd w) LS_THREAD = Some other_uuid /\
    getItem (snd w) LS_MESSAGES =
      Some (JSON_stringify_messages (messages (fst w))) /\
    loading (fst w) = false /\ err (fst w) = None.
Proof.
  eexists. split; [vm_compute; reflexivity|].
  repeat split; vm_compute; reflexivity.
Qed.

End PageFacts.

(* ------------------------------------------------------------------ *)
(** ** Trimming *)
(* ------------------------------------------------------------------ *)

Module StringFacts.
Import JsString.

(** [trimStart] strips a prefix of white space. *)
Lemma trimStart_split (s : jsstring) :
  exists ws, s = ws ++ trimStart s /\ forallb isWhiteSpace ws = true.
Proof.
  induction s as [|c s (ws & E & H)]; cbn [trimStart].
  - exists []. split; reflexivity.
  - destruct (isWhiteSpace c) eqn:Hc.
    + exists (c :: ws). split; [cbn; now f_equal|]. cbn. now rewrite Hc.
    + exists []. split; reflexivity.
Qed.

(** What is left starts with a character that is not white space. *)
Lemma trimStart_head (s : jsstring) (c : code_unit) (rest : jsstring) :
  trimStart s = c :: rest -> isWhiteSpace c = false.
Proof.
  induction s as [|d s IH]; cbn [trimStart]; [discriminate|].
  destruct (isWhiteSpace d) eqn:Hd; [exact IH|].
  now intros [= <- _].
Qed.

Lemma trimStart_fixed (c : code_unit) (rest : jsstring) :
  isWhiteSpace c = false -> trimStart (c :: rest) = c :: rest.
Proof. intros H. cbn [trimStart]. now rewrite H. Qed.

Lemma trimStart_trimStart (s : jsstring) : trimStart (trimStart s) = trimStart s.
Proof.
  destruct (trimStart s) as [|c rest] eqn:E; [reflexivity|].
  apply trimStart_fixed. eapply trimStart_head; eauto.
Qed.

(** The result of [trim] has no white space at either end: trimming it
    again at the start or at the end changes nothing. *)
Lemma trim_trimmed (s : jsstring) :
  trimStart (trim s) = trim s /\ trimEnd (trim s) = trim s.
Proof.
  unfold trim, trimEnd.
  set (t := trimStart s).
  destruct (trimStart_split (rev t)) as (ws & E & Hws).
  set (u := trimStart (rev t)) in *.
  split.
  - destruct u as [|c u'] eqn:Eu; [reflexivity|].
    assert (t = rev (c :: u') ++ rev ws) as Et.
    { rewrite <- rev_app_distr, <- E. now rewrite rev_involutive. }
    destruct (rev (c :: u')) as [|d r] eqn:Er.
    { apply (f_equal (@length _)) in Er. rewrite length_rev in Er.
      discriminate. }
    apply trimStart_fixed.
    destruct t as [|d' t'] eqn:Ets; [discriminate|].
    injection Et as -> _.
    eapply trimStart_head. exact Ets.
  - rewrite rev_involutive. unfold u. now rewrite trimStart_trimStart.
Qed.

Lemma trim_idempotent (s : jsstring) : trim (trim s) = trim s.
Proof.
  destruct (trim_trimmed s) as [H1 H2].
  unfold trim at 1. rewrite H1. exact H2.
Qed.

(** A string without white space at its ends is its own trimming. *)
Lemma trim_fixed (s : jsstring) :
  trimStart s = s -> trimEnd s = s -> trim s = s.
Proof. intros H1 H2. unfold trim. now rewrite H1. Qed.

(** A string of white space only trims to the empty string, and only
    such a string does. *)
Lemma trim_empty_iff (s : jsstring) :
  trim s = [] <-> forallb isWhiteSpace s = true.
Proof.
  split.
  - intros H. unfold trim, trimEnd in H.
    apply (f_equal (@rev _)) in H. rewrite rev_involutive in H. cbn in H.
    destruct (trimStart_split (rev (trimStart s))) as (ws & E & Hws).
    rewrite H, app_nil_r in E.
    destruct (trimStart_split s) as (ws' & E' & Hws').
    rewrite E'. rewrite forallb_app, Hws'. cbn [andb].
    apply (f_equal (@rev _)) in E. rewrite rev_involutive in E. rewrite E.
    rewrite forallb_forall in *. intros x Hx. apply Hws.
    now apply in_rev in Hx.
  - intros H. unfold trim.
    assert (trimStart s = []) as ->.
    { induction s as [|c s IH]; [reflexivity|]. cbn in *.
      apply andb_true_iff in H as [-> H]. auto. }
    reflexivity.
Qed.

End StringFacts.

(* ------------------------------------------------------------------ *)
(** ** More on source records *)
(* ------------------------------------------------------------------ *)

Module SourcesMore.
Import JsString Sources SourcesFacts StringFacts.

Lemma truthy_nonempty (s : jsstring) : JsString.truthy s = true <-> s <> [].
Proof. destruct s; cbn; split; intros; congruence. Qed.

Lemma or_string_truthy (a : option jsstring) (b : jsstring) :
  JsString.truthy b = true -> JsString.truthy (or_string a b) = true.
Proof.
  intros Hb. unfold or_string. destruct a as [s|]; [|exact Hb].
  destruct (JsString.truthy s) eqn:E; [exact E | exact Hb].
Qed.

(** What [||] lets through on the left is a trimmed, non-empty string when
    its operands are trimmed strings. *)
Definition trimmed_or_absent (a : option jsstring) : Prop :=
  match a with
  | Some s => trim s = s
  | None => True
  end.

Lemma opt_trim_trimmed (x : option jsstring) : trimmed_or_absent (opt_trim x).
Proof. destruct x as [s|]; cbn; [apply trim_idempotent | exact I]. Qed.

Lemma or_undef_trimmed (a b : option jsstring) :
  trimmed_or_absent a -> trimmed_or_absent b ->
  trimmed_or_absent (or_undef a b).
Proof.
  intros Ha Hb. unfold or_undef. destruct a as [s|]; [|exact Hb].
  destruct (JsString.truthy s); [exact Ha | exact Hb].
Qed.

Lemma or_string_trimmed (a : option jsstring) (b : jsstring) :
  trimmed_or_absent a -> trim b = b -> trim (or_string a b) = or_string a b.
Proof.
  intros Ha Hb. unfold or_string. destruct a as [s|]; [|exact Hb].
  destruct (JsString.truthy s); [exact Ha | exact Hb].
Qed.

Lemma sourceLabel_nonempty (s : RagSource) : sourceLabel s <> [].
Proof.
  apply truthy_nonempty. unfold sourceLabel. now apply or_string_truthy.
Qed.

(** X1: the label of a source is never empty and carries no white space
    at its ends; it is the trimmed title when the title is not blank. *)
Theorem sourceLabel_shown (s : RagSource) :
  sourceLabel s <> [] /\
  trim (sourceLabel s) = sourceLabel s /\
  (forall t, prop s "title" = Some t -> trim t <> [] ->
     sourceLabel s = trim t) /\
  (prop s "title" = None -> prop s "source" = None -> prop s "url" = None ->
     sourceLabel s = lit "Unbekannte Quelle").
Proof.
  split; [|split; [|split]].
  - apply sourceLabel_nonempty.
  - unfold sourceLabel. apply or_string_trimmed; [|reflexivity].
    repeat apply or_undef_trimmed; apply opt_trim_trimmed.
  - intros t Ht Hne. apply truthy_nonempty in Hne.
    unfold sourceLabel. rewrite Ht. cbn [opt_trim or_undef].
    repeat (rewrite Hne; cbn [or_undef or_string]). reflexivity.
  - intros H1 H2 H3. unfold sourceLabel. now rewrite H1, H2, H3.
Qed.

(** X1 on a source with a padded title. *)
Lemma sourceLabel_shown_witness :
  sourceLabel [("url", lit "https://x"); ("title", lit "  Wiki ")]
    = lit "Wiki".
Proof.
  rewrite (proj1 (proj2 (proj2 (sourceLabel_shown
             [("url", lit "https://x"); ("title", lit "  Wiki ")])))
             (lit "  Wiki ")).
  - reflexivity.
  - reflexivity.
  - discriminate.
Defined.

Lemma JSON_stringify_source_truthy (s : RagSource) :
  JsString.truthy (JSON_stringify_source s) = true.
Proof. reflexivity. Qed.

(** X2: every record has a key that is not the empty string; a record
    whose address is not blank is keyed by the trimmed address alone,
    whatever its other properties; so of two records of a list whose
    addresses differ only in white space at the ends only the first is
    kept. *)
Theorem sourceKey_by_address :
  (forall s : RagSource, sourceKey s <> []) /\
  (forall (s : RagSource) (u : jsstring),
      prop s "url" = Some u -> trim u <> [] -> sourceKey s = trim u) /\
  (forall (s1 s2 : RagSource) (u1 u2 : jsstring) (xs ys : list RagSource),
      prop s1 "url" = Some u1 -> prop s2 "url" = Some u2 ->
      trim u1 <> [] -> trim u1 = trim u2 ->
      dedupeSources (xs ++ s1 :: ys ++ [s2]) = dedupeSources (xs ++ s1 :: ys)).
Proof.
  assert (forall (s : RagSource) (u : jsstring),
             prop s "url" = Some u -> trim u <> [] -> sourceKey s = trim u)
    as Hurl.
  { intros s u Hu Hne. apply truthy_nonempty in Hne.
    unfold sourceKey. rewrite Hu. cbn [opt_trim or_undef].
    repeat (rewrite Hne; cbn [or_undef or_string]). reflexivity. }
  split; [|split; [exact Hurl|]].
  - intros s. apply truthy_nonempty. unfold sourceKey.
    apply or_string_truthy, JSON_stringify_source_truthy.
  - intros s1 s2 u1 u2 xs ys H1 H2 Hne Heq.
    rewrite !dedupeSources_keepFirstPerKey.
    replace (xs ++ s1 :: ys ++ [s2]) with ((xs ++ s1 :: ys) ++ [s2])
      by (rewrite <- app_assoc; reflexivity).
    assert (forall (zs : list RagSource) (seen : list jsstring),
               (exists z, z ∈ zs /\ sourceKey z = sourceKey s2) ->
               keepFirstPerKey seen (zs ++ [s2]) = keepFirstPerKey seen zs)
      as Hdrop.
    { induction zs as [|z zs IH]; intros seen (z' & Hin & Hk).
      - inversion Hin.
      - cbn [app keepFirstPerKey].
        case_bool_decide as Hseen.
        + apply elem_of_cons in Hin as [->|Hin].
          * clear IH. revert seen Hseen.
            induction zs as [|y zs IHz]; intros seen Hseen;
              cbn [app keepFirstPerKey].
            -- rewrite <- Hk. now rewrite bool_decide_eq_true_2.
            -- case_bool_decide; [now apply IHz|].
               f_equal. apply IHz. now right.
          * apply IH. eauto.
        + f_equal. apply elem_of_cons in Hin as [->|Hin].
          * clear IH. assert (sourceKey s2 ∈ sourceKey z :: seen) as Hs
              by (rewrite Hk; left).
            revert Hs. generalize (sourceKey z :: seen). clear.
            induction zs as [|y zs IHz]; intros seen Hs;
              cbn [app keepFirstPerKey].
            -- now rewrite bool_decide_eq_true_2.
            -- case_bool_decide; [now apply IHz|].
               f_equal. apply IHz. now right.
          * apply IH. eauto. }
    apply Hdrop. exists s1. split.
    + apply elem_of_app. right. left.
    + rewrite (Hurl s1 u1 H1 Hne). rewrite Heq in Hne.
      now rewrite (Hurl s2 u2 H2 Hne).
Qed.

(** X2 on two records for the same page. *)
Lemma sourceKey_by_address_witness :
  dedupeSources
    [[("url", lit "https://x"); ("title", lit "Wiki")];
     [("title", lit "Other"); ("url", lit " https://x ")]]
  = dedupeSources [[("url", lit "https://x"); ("title", lit "Wiki")]].
Proof.
  refine (proj2 (proj2 sourceKey_by_address)
            [("url", lit "https://x"); ("title", lit "Wiki")]
            [("title", lit "Other"); ("url", lit " https://x ")]
            (lit "https://x") (lit " https://x ") [] [] _ _ _ _).
  - reflexivity.
  - reflexivity.
  - discriminate.
  - reflexivity.
Defined.

(** Membership in lists built with [++] and [::]. *)
Ltac membership :=
  repeat first [rewrite elem_of_app | rewrite elem_of_cons];
  intuition (subst; auto; try solve [left; congruence | right; congruence]).

(** The rule on a list with one more record at its end. *)
Lemma keepFirstPerKey_snoc (seen : list jsstring) (xs : list RagSource)
    (s : RagSource) :
  keepFirstPerKey seen (xs ++ [s]) =
  if bool_decide (sourceKey s ∈ seen ++ map sourceKey xs)
  then keepFirstPerKey seen xs
  else keepFirstPerKey seen xs ++ [s].
Proof.
  revert seen. induction xs as [|x xs IH]; intros seen;
    cbn [app keepFirstPerKey map].
  - rewrite app_nil_r. now case_bool_decide.
  - case_bool_decide as Hx.
    + rewrite IH.
      rewrite (bool_decide_ext (sourceKey s ∈ seen ++ map sourceKey xs)
                 (sourceKey s ∈ seen ++ sourceKey x :: map sourceKey xs));
        [reflexivity|].
      membership.
    + rewrite IH. cbn [app].
      rewrite (bool_decide_ext (sourceKey s ∈ (sourceKey x :: seen)
                                  ++ map sourceKey xs)
                 (sourceKey s ∈ seen ++ sourceKey x :: map sourceKey xs)).
      * now case_bool_decide.
      * membership.
Qed.

Lemma keepFirstPerKey_keys (seen : list jsstring) (xs : list RagSource)
    (k : jsstring) :
  k ∈ seen ++ map sourceKey (keepFirstPerKey seen xs) <->
  k ∈ seen ++ map sourceKey xs.
Proof.
  revert seen. induction xs as [|x xs IH]; intros seen;
    cbn [keepFirstPerKey map]; [reflexivity|].
  case_bool_decide as Hx.
  - rewrite IH. membership.
  - cbn [map]. specialize (IH (sourceKey x :: seen)). revert IH. membership.
Qed.

(** X3: [dedupeSources] can be computed record by record: a record added at
    the end is dropped when a record of the list has its key and is kept
    at the end otherwise.  The first record of a list is always kept, no
    key of the input is lost, and the result is never longer than the
    input. *)
Theorem dedupeSources_incremental (xs : list RagSource) :
  (forall s : RagSource,
      dedupeSources (xs ++ [s]) =
      if bool_decide (sourceKey s ∈ map sourceKey xs)
      then dedupeSources xs else dedupeSources xs ++ [s]) /\
  hd_error (dedupeSources xs) = hd_error xs /\
  (forall k, k ∈ map sourceKey (dedupeSources xs) <-> k ∈ map sourceKey xs) /\
  (length (dedupeSources xs) <= length xs)%nat.
Proof.
  rewrite dedupeSources_keepFirstPerKey.
  split; [|split; [|split]].
  - intros s. rewrite dedupeSources_keepFirstPerKey.
    apply (keepFirstPerKey_snoc [] xs s).
  - destruct xs as [|x xs]; [reflexivity|].
    cbn [keepFirstPerKey]. now rewrite bool_decide_eq_false_2 by inversion 1.
  - intros k. apply (keepFirstPerKey_keys [] xs k).
  - apply sublist_length, keepFirstPerKey_sublist.
Qed.

End SourcesMore.

(* ------------------------------------------------------------------ *)
(** ** What is shown *)
(* ------------------------------------------------------------------ *)

Module DisplayFacts.
Import JsNumber JsString Sources Spoiler Page Display.
Import SpoilerFacts SourcesFacts SourcesMore.

(** The placeholder of [spoilerLabel]. *)
Definition placeholder : jsstring := [8212%N].

(** X4: the label of a snapped level is never the placeholder, two snapped
    levels with the same label are the same level, and a number that is
    none of the four snap points gets the placeholder. *)
Theorem spoilerLabel_of_snapped :
  (forall v : number, spoilerLabel (snapSpoilerLevel v) <> placeholder) /\
  (forall v w : number,
      spoilerLabel (snapSpoilerLevel v) = spoilerLabel (snapSpoilerLevel w) ->
      snapSpoilerLevel v = snapSpoilerLevel w) /\
  (forall v : number,
      (forall p, In p SPOILER_SNAP_POINTS -> strict_eq v p = false) ->
      spoilerLabel v = placeholder).
Proof.
  split; [|split].
  - intros v. destruct (proj1 snapSpoilerLevel_canonical_idempotent v)
      as [[H|[H|[H|H]]] _]; rewrite H; vm_compute; discriminate.
  - intros v w.
    destruct (proj1 snapSpoilerLevel_canonical_idempotent v)
      as [[H|[H|[H|H]]] _];
    destruct (proj1 snapSpoilerLevel_canonical_idempotent w)
      as [[H'|[H'|[H'|H']]] _]; rewrite H, H';
      try reflexivity; vm_compute; discriminate.
  - intros v H. unfold spoilerLabel, SPOILER_SNAP_POINTS in *.
    rewrite !H; [reflexivity | | | |]; simpl; auto.
Qed.

(** X4 on a number between two snap points. *)
Lemma spoilerLabel_of_snapped_witness :
  spoilerLabel (of_Z 50) = placeholder.
Proof.
  apply (proj2 (proj2 spoilerLabel_of_snapped)).
  intros p [<-|[<-|[<-|[<-|[]]]]]; reflexivity.
Defined.

(** *** The source lists *)

Lemma slice0_prefix {A : Type} (n m : nat) (xs : list A) :
  (n <= m)%nat -> slice0 n xs `prefix_of` slice0 m xs.
Proof.
  intros H. unfold slice0. exists (firstn (m - n) (skipn n xs)).
  replace m with (n + (m - n))%nat at 1 by lia.
  generalize (m - n)%nat as k. clear. revert xs.
  induction n as [|n IH]; intros xs k; [reflexivity|].
  destruct xs as [|x xs]; cbn [Nat.add firstn skipn app].
  - now destruct k.
  - f_equal. apply IH.
Qed.

Lemma slice0_length {A : Type} (n : nat) (xs : list A) :
  (length (slice0 n xs) <= n)%nat.
Proof. unfold slice0. rewrite length_firstn. lia. Qed.

(** X5: the list under a bubble has at most 5 sources and the list of the
    dialog at most 8; for the message the dialog was opened on, the list
    under the bubble is the beginning of the list in the dialog.  The
    dialog lists nothing when no message is selected, when the selected
    message is not in the log and when it has no sources. *)
Theorem shown_sources (s : State) :
  (forall m : ChatMessage, (length (msgSources m) <= 5)%nat) /\
  (length (activeSources s) <= 8)%nat /\
  (forall (wanted : jsstring) (m : ChatMessage),
      sourcesForMessageId s = Some wanted ->
      wanted <> [] ->
      find_message (messages s) wanted = Some m ->
      id m = wanted /\ In m (messages s) /\
      msgSources m `prefix_of` activeSources s) /\
  (sourcesForMessageId s = None -> activeSources s = []) /\
  (forall wanted : jsstring,
      sourcesForMessageId s = Some wanted ->
      find_message (messages s) wanted = None -> activeSources s = []) /\
  (forall (wanted : jsstring) (m : ChatMessage),
      sourcesForMessageId s = Some wanted ->
      find_message (messages s) wanted = Some m ->
      sources m = None -> activeSources s = []).
Proof.
  split; [intros m; apply slice0_length|].
  split.
  { unfold activeSources. destruct (sourcesForMessageId s) as [w|];
      [|cbn; lia].
    destruct (negb (JsString.truthy w)); [cbn; lia | apply slice0_length]. }
  split.
  { intros wanted m Hsel Hne Hfind. unfold find_message in Hfind.
    pose proof (find_some _ _ Hfind) as [Hin Hid].
    unfold jsstring_eqb in Hid. apply bool_decide_eq_true in Hid.
    split; [exact Hid|]. split; [exact Hin|].
    unfold activeSources. rewrite Hsel.
    apply truthy_nonempty in Hne. rewrite Hne. cbn [negb].
    unfold find_message. rewrite Hfind. unfold msgSources.
    apply slice0_prefix. lia. }
  split.
  { intros Hsel. unfold activeSources. now rewrite Hsel. }
  split.
  { intros wanted Hsel Hfind. unfold activeSources. rewrite Hsel, Hfind.
    now destruct (negb (JsString.truthy wanted)). }
  intros wanted m Hsel Hfind Hnone. unfold activeSources.
  rewrite Hsel, Hfind, Hnone. now destruct (negb (JsString.truthy wanted)).
Qed.

(** A page whose dialog is open on an answer with seven sources. *)
Definition seven_sources : list RagSource :=
  map (fun n : N => [("url", lit "https://wiki/" ++ decimal n)])
    [1; 2; 3; 4; 5; 6; 7]%N.

Definition answer_with_sources : ChatMessage :=
  {| id := lit "a1"; role := assistant; content := lit "Near the shore.";
     createdAt := 1730000000500; sources := Some seven_sources;
     interaction_id := None |}.

Definition dialog_open : State :=
  {| sessionId := lit "s"; threadId := None; gameId := lit "valheim";
     spoilerLevel := of_Z 33; query := lit ""; loading := false;
     err := None; messages := [answer_with_sources];
     sourcesForMessageId := Some (lit "a1") |}.

(** X5 on that page: five sources under the bubble, seven in the dialog. *)
Lemma shown_sources_witness :
  msgSources answer_with_sources `prefix_of` activeSources dialog_open /\
  length (msgSources answer_with_sources) = 5%nat /\
  length (activeSources dialog_open) = 7%nat.
Proof.
  split.
  - refine (proj2 (proj2 (proj1 (proj2 (proj2 (shown_sources dialog_open)))
                            (lit "a1") answer_with_sources _ _ _))).
    + reflexivity.
    + discriminate.
    + vm_compute. reflexivity.
  - split; vm_compute; reflexivity.
Defined.

(** *** The source line of a bubble *)

Lemma url_of_nonempty (s : RagSource) :
  url_or_empty s <> [] -> prop s "url" = Some (url_or_empty s).
Proof.
  unfold url_or_empty. destruct (prop s "url"); [reflexivity|].
  intros H. now contradiction H.
Qed.

Lemma startsWith_http_nonempty (text : jsstring) :
  startsWith (lit "http") text = true -> text <> [].
Proof. destruct text; [discriminate | discriminate]. Qed.

Lemma join_nonempty (sep : jsstring) (xs : list jsstring) :
  (forall x, In x xs -> x <> []) -> join sep xs = [] -> xs = [].
Proof.
  destruct xs as [|x rest]; [reflexivity|]. intros H E. exfalso.
  apply (H x); [now left|].
  cbn [join] in E. destruct rest; [exact E|].
  now apply app_eq_nil in E as [E _].
Qed.

(** X6: the address behind the source line, when there is one, is the
    address of a shown source and not empty; there is one as soon as a
    shown source has an address, and it starts with [http] as soon as the
    address of a shown source does, even of a later one.  The text of the
    line is empty only when no source is shown. *)
Theorem source_line (shown : list RagSource) :
  (forall u, firstLink shown = Some u ->
     u <> [] /\ exists s, In s shown /\ prop s "url" = Some u) /\
  ((exists s, In s shown /\ url_or_empty s <> []) ->
     firstLink shown <> None) /\
  ((exists s, In s shown /\ startsWith (lit "http") (url_or_empty s) = true) ->
     exists u, firstLink shown = Some u /\ startsWith (lit "http") u = true) /\
  (sourceText shown = [] <-> shown = []).
Proof.
  assert (forall u,
             match List.find
                     (fun s => negb (Nat.eqb (length (url_or_empty s)) 0))
                     shown with
             | Some s => prop s "url"
             | None => None
             end = Some u ->
             u <> [] /\ exists s, In s shown /\ prop s "url" = Some u)
    as Hother.
  { intros u.
    destruct (List.find _ shown) as [s|] eqn:E; [|discriminate].
    apply find_some in E as [Hin Hlen]. intros Hu.
    split; [|eauto]. unfold url_or_empty in Hlen. rewrite Hu in Hlen.
    destruct u; [discriminate Hlen | discriminate]. }
  split; [|split; [|split]].
  - intros u. unfold firstLink.
    destruct (List.find (fun s => startsWith _ (url_or_empty s)) shown)
      as [s|] eqn:E; [|apply Hother].
    destruct (prop s "url") as [v|] eqn:Ev; [|apply Hother].
    intros [= <-]. apply find_some in E as [Hin Hhttp].
    split; [|eauto]. unfold url_or_empty in Hhttp. rewrite Ev in Hhttp.
    now apply startsWith_http_nonempty.
  - intros (s & Hin & Hne). unfold firstLink.
    assert (match List.find
                    (fun s => negb (Nat.eqb (length (url_or_empty s)) 0))
                    shown with
            | Some s => prop s "url"
            | None => None
            end <> None) as Hsome.
    { destruct (List.find _ shown) as [s'|] eqn:E.
      - apply find_some in E as [_ Hlen].
        rewrite url_of_nonempty; [discriminate|].
        intros C. rewrite C in Hlen. discriminate.
      - exfalso. apply (find_none _ _ E) in Hin.
        destruct (url_or_empty s); [now apply Hne | discriminate]. }
    destruct (List.find (fun s => startsWith _ (url_or_empty s)) shown)
      as [s'|]; [|exact Hsome].
    destruct (prop s' "url"); [discriminate | exact Hsome].
  - intros (s & Hin & Hhttp). unfold firstLink.
    destruct (List.find (fun s => startsWith _ (url_or_empty s)) shown)
      as [s'|] eqn:E.
    + apply find_some in E as [_ Hs'].
      rewrite (url_of_nonempty s')
        by now apply startsWith_http_nonempty.
      eauto.
    + apply (find_none _ _ E) in Hin. congruence.
  - split; [|intros ->; reflexivity].
    intros E. unfold sourceText in E.
    apply join_nonempty in E.
    + now apply map_eq_nil in E.
    + intros x Hx. apply in_map_iff in Hx as (s & <- & _).
      apply sourceLabel_nonempty.
Qed.

(** X6 on a source list whose second address is a web address. *)
Lemma source_line_witness :
  exists u,
    firstLink [[("url", lit "ftp://mirror")]; [("url", lit "https://x")]]
      = Some u /\
    startsWith (lit "http") u = true.
Proof.
  apply (proj1 (proj2 (proj2 (source_line
           [[("url", lit "ftp://mirror")]; [("url", lit "https://x")]])))).
  exists [("url", lit "https://x")]. split; [right; now left | reflexivity].
Defined.

End DisplayFacts.

(* ------------------------------------------------------------------ *)
(** ** More on the answer gateway *)
(* ------------------------------------------------------------------ *)

Module ApiMore.
Import JsNumber JsString JsValue Api ApiFacts.

Lemma lookup_prop_In (props : Props) (name : string) (v : value) :
  lookup_prop props name = Some v -> In name (map fst props).
Proof.
  induction props as [|[k w] props IH]; cbn [lookup_prop map fst];
    [discriminate|].
  destruct (String.eqb k name) eqn:E.
  - apply String.eqb_eq in E. intros _. now left.
  - intros H. right. auto.
Qed.

(** The names [ragAnswer] may send, in the order in which it sets them. *)
Definition BODY_KEYS : list string :=
  ["query"; "session_id"; "spoilerLevel"; "thread_id"; "match_count";
   "doc_filter"; "developer_mode"].

(** X7: the body of a request always carries [query], [session_id] and
    [spoilerLevel] as given; [match_count] and [developer_mode] exactly
    when they were supplied; [doc_filter] whenever it is not [undefined],
    an explicit [null] being sent as [null]; no name twice and no name
    beyond these and [thread_id]. *)
Theorem ragAnswer_body_fields (req : RagAnswerRequest) :
  lookup_prop (ragAnswer_body req) "query" = Some (VStr (query req)) /\
  lookup_prop (ragAnswer_body req) "session_id"
    = Some (VStr (sessionId req)) /\
  lookup_prop (ragAnswer_body req) "spoilerLevel"
    = Some (VNum (spoilerLevel req)) /\
  lookup_prop (ragAnswer_body req) "match_count"
    = option_map VNum (matchCount req) /\
  lookup_prop (ragAnswer_body req) "doc_filter"
    = match docFilter req with
      | Some (Some f) => Some (VStr f)
      | Some None => Some VNull
      | None => None
      end /\
  lookup_prop (ragAnswer_body req) "developer_mode"
    = option_map VBool (developerMode req) /\
  NoDup (map fst (ragAnswer_body req)) /\
  (forall name v, lookup_prop (ragAnswer_body req) name = Some v ->
     In name BODY_KEYS).
Proof.
  unfold ragAnswer_body.
  destruct (threadId req) as [t|];
    [destruct (JsString.truthy t && isValidUuid (VStr t))|];
    destruct (matchCount req), (docFilter req) as [[?|]|],
      (developerMode req);
    cbn [set_prop String.eqb Ascii.eqb Bool.eqb option_map];
    (repeat split; try reflexivity;
     [ cbn [map fst]; repeat (apply NoDup_cons; split; [intros C;
         repeat (apply elem_of_cons in C as [C|C]; [discriminate C|]);
         inversion C|]); apply NoDup_nil_2
     | intros name v H; apply lookup_prop_In in H; cbn [map fst] in H;
       unfold BODY_KEYS; cbn [In] in *; tauto ]).
Qed.

(** X8: [ragAnswer] returns only what the call resolved with, unchanged,
    and only when there was no error, the payload is a structured object
    and both identifiers pass the check; in every other case it throws. *)
Theorem ragAnswer_returns_checked (r : InvokeResult) (d : value) :
  ragAnswer_result r = Returned d <->
  d = data r /\ truthy (error r) = false /\ structured (data r) /\
  isValidUuid (get (data r) "session_id") = true /\
  isValidUuid (get (data r) "thread_id") = true.
Proof.
  unfold ragAnswer_result, structured.
  destruct (truthy (error r)).
  { split; [discriminate | intros (_ & H & _); discriminate]. }
  destruct (truthy (data r)), (typeof_object (data r)); cbn [negb orb];
    try (split; [discriminate | intros (_ & _ & [? ?] & _); discriminate]).
  destruct (isValidUuid (get (data r) "session_id")),
    (isValidUuid (get (data r) "thread_id")); cbn [negb orb];
    try (split; [discriminate | intros (_ & _ & _ & ? & ?); discriminate]).
  split.
  - intros [= <-]. auto.
  - intros (-> & _). reflexivity.
Qed.

(** A well-formed response. *)
Definition good_response : InvokeResult :=
  {| data :=
       VObj [("ok", VBool true);
             ("session_id", VStr well_formed_id);
             ("thread_id", VStr well_formed_id)];
     error := VNull |}.

(** X8 on a well-formed response. *)
Lemma ragAnswer_returns_checked_witness :
  ragAnswer_result good_response = Returned (data good_response).
Proof.
  apply (ragAnswer_returns_checked good_response (data good_response)).
  repeat split; vm_compute; reflexivity.
Defined.

(** X9: when the call resolved without an error and with something that
    is not a structured object ([undefined], [null], a boolean, a number,
    a string), [ragAnswer] throws the object with message
    [Invalid response payload], status 500 and that value as body. *)
Theorem ragAnswer_invalid_payload (r : InvokeResult) :
  truthy (error r) = false ->
  ~ structured (data r) ->
  ragAnswer_result r =
  Threw (VObj [("name", VStr (lit "RagApiError"));
               ("message", VStr (lit "Invalid response payload"));
               ("status", VNum (of_Z 500));
               ("body", data r)]).
Proof.
  intros He Hd. unfold ragAnswer_result, structured in *. rewrite He.
  destruct (truthy (data r)), (typeof_object (data r)); cbn [negb orb];
    try reflexivity.
  exfalso. apply Hd. split; reflexivity.
Qed.

(** X9 on a call that resolved with a text. *)
Lemma ragAnswer_invalid_payload_witness :
  ragAnswer_result {| data := VStr (lit "Bad Gateway"); error := VNull |} =
  Threw (VObj [("name", VStr (lit "RagApiError"));
               ("message", VStr (lit "Invalid response payload"));
               ("status", VNum (of_Z 500));
               ("body", VStr (lit "Bad Gateway"))]).
Proof.
  apply (ragAnswer_invalid_payload
           {| data := VStr (lit "Bad Gateway"); error := VNull |}).
  - reflexivity.
  - intros [_ H]. discriminate H.
Defined.

(** X10: [isValidUuid] accepts exactly the strings of 36 characters that
    have a hyphen at the positions 8, 13, 18 and 23, a digit from 1 to 5 at
    position 14, one of 8, 9, a, b (in either case) at position 19 and a
    hexadecimal digit (in either case) everywhere else; values that are
    not strings it rejects. *)
Theorem isValidUuid_exactly (v : value) :
  isValidUuid v = true <->
  exists s, v = VStr s /\ length s = 36%nat /\
    forall (i : nat) (c : code_unit), s !! i = Some c ->
      if bool_decide (i ∈ [8; 13; 18; 23]%nat) then c = 45%N
      else if bool_decide (i = 14%nat) then is_version c = true
      else if bool_decide (i = 19%nat) then is_variant c = true
      else is_hex c = true.
Proof.
  split.
  - destruct v as [| | | |s| | |]; cbn [isValidUuid]; try discriminate.
    intros H. exists s. split; [reflexivity|].
    pose proof (regex_test_length _ _ H) as L.
    change (length UUID_PATTERN) with 36%nat in L. split; [exact L|].
    do 36 (destruct s as [|? s]; [discriminate L|]).
    destruct s; [|discriminate L]. clear L.
    cbn [UUID_PATTERN repeat app regex_test] in H.
    repeat (apply andb_true_iff in H as [?H H]).
    unfold is_dash in *.
    intros i u Hi.
    do 36 (destruct i as [|i];
           [injection Hi as <-; cbn; first [assumption | now apply N.eqb_eq]
           |]).
    discriminate Hi.
  - intros (s & -> & L & H). cbn [isValidUuid].
    do 36 (destruct s as [|? s]; [discriminate L|]).
    destruct s; [|discriminate L]. clear L.
    cbn [UUID_PATTERN repeat app regex_test]. unfold is_dash.
    repeat match goal with
           | |- context [regex_test [] []] => cbn [regex_test]
           | |- (_ && _) = true => apply andb_true_iff; split
           end;
      first
        [ reflexivity
        | apply (H 0%nat); reflexivity | apply (H 1%nat); reflexivity
        | apply (H 2%nat); reflexivity | apply (H 3%nat); reflexivity
        | apply (H 4%nat); reflexivity | apply (H 5%nat); reflexivity
        | apply (H 6%nat); reflexivity | apply (H 7%nat); reflexivity
        | apply N.eqb_eq; apply (H 8%nat); reflexivity
        | apply (H 9%nat); reflexivity | apply (H 10%nat); reflexivity
        | apply (H 11%nat); reflexivity | apply (H 12%nat); reflexivity
        | apply N.eqb_eq; apply (H 13%nat); reflexivity
        | apply (H 14%nat); reflexivity | apply (H 15%nat); reflexivity
        | apply (H 16%nat); reflexivity | apply (H 17%nat); reflexivity
        | apply N.eqb_eq; apply (H 18%nat); reflexivity
        | apply (H 19%nat); reflexivity | apply (H 20%nat); reflexivity
        | apply (H 21%nat); reflexivity | apply (H 22%nat); reflexivity
        | apply N.eqb_eq; apply (H 23%nat); reflexivity
        | apply (H 24%nat); reflexivity | apply (H 25%nat); reflexivity
        | apply (H 26%nat); reflexivity | apply (H 27%nat); reflexivity
        | apply (H 28%nat); reflexivity | apply (H 29%nat); reflexivity
        | apply (H 30%nat); reflexivity | apply (H 31%nat); reflexivity
        | apply (H 32%nat); reflexivity | apply (H 33%nat); reflexivity
        | apply (H 34%nat); reflexivity | apply (H 35%nat); reflexivity ].
Qed.

(** *** [normalizeSupabaseFunctionError] *)

(** An object in the sense of [typeof err === "object" && err !== null]. *)
Definition is_object (v : value) : bool :=
  match v with
  | VArr _ | VObj _ | VErr _ => true
  | _ => false
  end.

(** [if (b) props.name = v] *)
Definition set_if (b : bool) (props : Props) (name : string) (v : value)
  : Props :=
  if b then set_prop props name v else props.

Lemma lookup_set_if (b : bool) (props : Props) (name name' : string)
    (v : value) :
  lookup_prop (set_if b props name v) name' =
  if b && String.eqb name name' then Some v else lookup_prop props name'.
Proof.
  unfold set_if. destruct b; cbn [andb]; [apply lookup_set_prop|reflexivity].
Qed.

(** The stages of the function on an object: after the block for instances
    of [Error], after [name], [message] and [status] of the error itself,
    after the block for [context]. *)
Definition stage_instance (e : value) : Props :=
  let base : Props :=
    [("name", VStr (lit "RagApiError"));
     ("message", VStr (lit "Request failed"))] in
  if instanceof_Error e then
    set_prop
      (set_prop base "name" (js_or (get e "name") (get_prop base "name")))
      "message"
      (js_or (get e "message")
         (get_prop
            (set_prop base "name"
               (js_or (get e "name") (get_prop base "name")))
            "message"))
  else base.

Definition stage_own (e : value) : Props :=
  set_if (typeof_number (get e "status"))
    (set_if (typeof_string (get e "message"))
       (set_if (typeof_string (get e "name")) (stage_instance e)
          "name" (get e "name"))
       "message" (get e "message"))
    "status" (get e "status").

Definition stage_context (e : value) : Props :=
  match get e "context" with
  | VArr _ | VObj _ | VErr _ =>
      let c := get e "context" in
      let base :=
        set_if (typeof_string (get c "statusText"))
          (set_if (typeof_number (get c "status")) (stage_own e)
             "status" (get c "status"))
          "statusText" (get c "statusText") in
      match c with
      | VObj props | VErr props =>
          set_if (has_prop props "body") base "body" (get c "body")
      | _ => base
      end
  | _ => stage_own e
  end.

Lemma normalize_object (e : value) :
  is_object e = true ->
  normalizeSupabaseFunctionError e =
  VObj (if is_undefined (get_prop (stage_context e) "body")
        then set_prop (stage_context e) "body" e
        else stage_context e).
Proof. destruct e; try discriminate; intros _; reflexivity. Qed.

Lemma stage_instance_lookup (e : value) (name : string) :
  name <> "name" -> name <> "message" ->
  lookup_prop (stage_instance e) name = None.
Proof.
  intros H1 H2. unfold stage_instance.
  assert (String.eqb "name" name = false) as E1
    by (apply String.eqb_neq; congruence).
  assert (String.eqb "message" name = false) as E2
    by (apply String.eqb_neq; congruence).
  destruct (instanceof_Error e).
  - rewrite !lookup_set_prop. rewrite E1, E2. cbn [lookup_prop].
    now rewrite E1, E2.
  - cbn [lookup_prop]. now rewrite E1, E2.
Qed.

Lemma stage_own_body (e : value) : lookup_prop (stage_own e) "body" = None.
Proof.
  unfold stage_own. rewrite !lookup_set_if.
  cbn [String.eqb Ascii.eqb Bool.eqb]. rewrite !andb_false_r.
  now apply stage_instance_lookup.
Qed.

Lemma stage_own_status (e : value) :
  lookup_prop (stage_own e) "status" =
  if typeof_number (get e "status") then Some (get e "status") else None.
Proof.
  unfold stage_own. rewrite !lookup_set_if.
  cbn [String.eqb Ascii.eqb Bool.eqb]. rewrite !andb_false_r, andb_true_r.
  destruct (typeof_number (get e "status")); [reflexivity|].
  now apply stage_instance_lookup.
Qed.

(** The body a context supplies: the value of its property [body], unless
    there is none or it is [undefined]. *)
Definition context_body (e : value) : option value :=
  match get e "context" with
  | VObj props | VErr props =>
      match lookup_prop props "body" with
      | Some b => if is_undefined b then None else Some b
      | None => None
      end
  | _ => None
  end.

Lemma stage_context_body (e : value) :
  get_prop (stage_context e) "body" =
  match context_body e with Some b => b | None => VUndefined end.
Proof.
  unfold stage_context, context_body, get_prop.
  destruct (get e "context") as [| | | | |cx|cp|cp]; cbn [is_object];
    try (now rewrite stage_own_body).
  - rewrite !lookup_set_if. cbn [String.eqb Ascii.eqb Bool.eqb].
    rewrite !andb_false_r. now rewrite stage_own_body.
  - rewrite !lookup_set_if. cbn [String.eqb Ascii.eqb Bool.eqb].
    rewrite !andb_false_r, andb_true_r. unfold has_prop.
    cbn [get]. unfold get_prop.
    destruct (lookup_prop cp "body") as [b|]; [|now rewrite stage_own_body].
    now destruct b.
  - rewrite !lookup_set_if. cbn [String.eqb Ascii.eqb Bool.eqb].
    rewrite !andb_false_r, andb_true_r. unfold has_prop.
    cbn [get]. unfold get_prop.
    destruct (lookup_prop cp "body") as [b|]; [|now rewrite stage_own_body].
    now destruct b.
Qed.

Lemma stage_context_status (e : value) :
  lookup_prop (stage_context e) "status" =
  if is_object (get e "context")
     && typeof_number (get (get e "context") "status")
  then Some (get (get e "context") "status")
  else if typeof_number (get e "status") then Some (get e "status")
  else None.
Proof.
  unfold stage_context.
  destruct (get e "context") as [| | | | |cx|cp|cp] eqn:Ec;
    cbn [is_object andb]; try apply stage_own_status;
    rewrite !lookup_set_if; cbn [String.eqb Ascii.eqb Bool.eqb];
    rewrite ?andb_false_r, ?andb_true_r;
    match goal with
    | |- context [typeof_number ?v] =>
        destruct (typeof_number v); [reflexivity|]
    end;
    apply stage_own_status.
Qed.

(** X11: an error that is not an object (a thrown text, a number, [true])
    is normalised to the bare default: name [RagApiError], message
    [Request failed], no status and no body; the value itself is lost. *)
Theorem normalize_primitive (err : value) :
  is_object err = false ->
  normalizeSupabaseFunctionError err =
  VObj [("name", VStr (lit "RagApiError"));
        ("message", VStr (lit "Request failed"))].
Proof. destruct err; try discriminate; reflexivity. Qed.

(** X11 on a thrown text. *)
Lemma normalize_primitive_witness :
  normalizeSupabaseFunctionError (VStr (lit "network down")) =
  VObj [("name", VStr (lit "RagApiError"));
        ("message", VStr (lit "Request failed"))].
Proof. apply normalize_primitive. reflexivity. Defined.

(** X12: the normalised form of an error object always has a body that is
    not [undefined]: the [body] of the [context] of the error when the
    context is an object that has one, the error object itself otherwise.
    Its status is the numeric [status] of the context if there is one,
    else the numeric [status] of the error, else it has none. *)
Theorem normalize_object_body_status (e : value) :
  is_object e = true ->
  exists base,
    normalizeSupabaseFunctionError e = VObj base /\
    lookup_prop base "body"
      = Some (match context_body e with Some b => b | None => e end) /\
    is_undefined (get_prop base "body") = false /\
    lookup_prop base "status"
      = (if is_object (get e "context")
            && typeof_number (get (get e "context") "status")
         then Some (get (get e "context") "status")
         else if typeof_number (get e "status") then Some (get e "status")
         else None).
Proof.
  intros He. rewrite (normalize_object e He).
  eexists. split; [reflexivity|].
  pose proof (stage_context_body e) as Hb.
  pose proof (stage_context_status e) as Hs.
  unfold context_body in *.
  destruct (is_undefined (get_prop (stage_context e) "body")) eqn:Hu.
  - assert (match get e "context" with
            | VObj props | VErr props =>
                match lookup_prop props "body" with
                | Some b => if is_undefined b then None else Some b
                | None => None
                end
            | _ => None
            end = None) as Hnone.
    { destruct (get e "context") as [| | | | |cx|cp|cp]; try reflexivity;
        (destruct (lookup_prop cp "body") as [b|]; [|reflexivity];
         destruct (is_undefined b) eqn:Eb; [reflexivity|];
         rewrite Hb in Hu; congruence). }
    rewrite Hnone. unfold get_prop. rewrite !lookup_set_prop.
    cbn [String.eqb Ascii.eqb Bool.eqb].
    split; [reflexivity|]. split; [now destruct e|]. exact Hs.
  - unfold get_prop in *.
    destruct (lookup_prop (stage_context e) "body") as [b|] eqn:El;
      [|discriminate Hu].
    split; [|split; [exact Hu | exact Hs]].
    f_equal. rewrite Hb.
    destruct (get e "context") as [| | | | |cx|cp|cp];
      try (rewrite Hb in Hu; discriminate Hu);
      (destruct (lookup_prop cp "body") as [b'|];
       [destruct (is_undefined b'); [rewrite Hb in Hu; discriminate Hu|]
       | rewrite Hb in Hu; discriminate Hu]; reflexivity).
Qed.

(** The error of a function that answered 429 with a body. *)
Definition http_error : value :=
  VErr [("name", VStr (lit "FunctionsHttpError"));
        ("message",
         VStr (lit "Edge Function returned a non-2xx status code"));
        ("context",
         VObj [("status", VNum (of_Z 429));
               ("statusText", VStr (lit "Too Many Requests"));
               ("body", VStr (lit "rate limited"))])].

(** X12 on that error. *)
Lemma normalize_object_body_status_witness :
  exists base,
    normalizeSupabaseFunctionError http_error = VObj base /\
    lookup_prop base "body" = Some (VStr (lit "rate limited")) /\
    lookup_prop base "status" = Some (VNum (of_Z 429)).
Proof.
  destruct (normalize_object_body_status http_error eq_refl)
    as (base & E & Hb & _ & Hs).
  exists base. split; [exact E|]. split; [exact Hb | exact Hs].
Defined.

(** X13: an error of the call wins over whatever came with it: with a
    truthy [error], [ragAnswer] throws the normalised error even when the
    payload is a well-formed response, and what it throws is an object
    with the properties [name] and [message]. *)
Theorem ragAnswer_error_first (r : InvokeResult) :
  truthy (error r) = true ->
  ragAnswer_result r = Threw (normalizeSupabaseFunctionError (error r)) /\
  exists base,
    normalizeSupabaseFunctionError (error r) = VObj base /\
    has_prop base "name" = true /\ has_prop base "message" = true.
Proof.
  intros He. split.
  { unfold ragAnswer_result. now rewrite He. }
  destruct (is_object (error r)) eqn:Ho.
  - rewrite (normalize_object _ Ho). eexists. split; [reflexivity|].
    assert (has_prop (stage_context (error r)) "name" = true /\
            has_prop (stage_context (error r)) "message" = true) as [Hn Hm].
    { assert (has_prop (stage_instance (error r)) "name" = true /\
              has_prop (stage_instance (error r)) "message" = true)
        as [Hn Hm].
      { unfold stage_instance. destruct (instanceof_Error (error r));
          unfold has_prop; rewrite ?lookup_set_prop;
          cbn [String.eqb Ascii.eqb Bool.eqb lookup_prop]; split; reflexivity. }
      assert (forall b props n v name,
                 has_prop props name = true ->
                 has_prop (set_if b props n v) name = true) as Hkeep.
      { intros b props n v name H. unfold has_prop in *.
        rewrite lookup_set_if. destruct (b && String.eqb n name);
          [reflexivity | exact H]. }
      assert (has_prop (stage_own (error r)) "name" = true /\
              has_prop (stage_own (error r)) "message" = true) as [Hn' Hm'].
      { unfold stage_own. split; repeat apply Hkeep; assumption. }
      unfold stage_context.
      destruct (get (error r) "context"); split; repeat apply Hkeep;
        assumption. }
    destruct (is_undefined _); [|now split].
    unfold has_prop in *. rewrite !lookup_set_prop.
    cbn [String.eqb Ascii.eqb Bool.eqb]. now split.
  - destruct (error r); try discriminate Ho;
      (eexists; split; [reflexivity|]; split; reflexivity).
Qed.

(** X13 on a call that resolved with an error and a well-formed payload. *)
Lemma ragAnswer_error_first_witness :
  ragAnswer_result {| data := data good_response; error := http_error |} =
  Threw (normalizeSupabaseFunctionError http_error).
Proof.
  apply (ragAnswer_error_first
           {| data := data good_response; error := http_error |}).
  reflexivity.
Defined.

End ApiMore.
(* ------------------------------------------------------------------ *)
(** ** The storage helpers of the page and its mount effect *)
(* ------------------------------------------------------------------ *)

Module StorageFacts.
Import JsNumber JsString JsValue Sources WebStorage Page PageFacts.
Local Open Scope js_scope.

(** *** [saveThreadId] and [loadThreadId] *)

(** X14: when [saveThreadId] returns, [loadThreadId] reads back the saved
    identifier, or [null] after saving [null] or the empty string; neither
    the state nor any other item has changed.  When it does not return, it
    was saving a non-empty identifier, the storage rejected the write and
    nothing has changed. *)
Theorem saveThreadId_loadThreadId (t : option jsstring) (w w' : World)
    (c : Completion unit) :
  saveThreadId t w = (c, w') ->
  match c with
  | Normal _ =>
      loadThreadId w' = (Normal (if truthy_opt t then t else None), w') /\
      fst w' = fst w /\
      (forall key, key <> LS_THREAD ->
         getItem (snd w') key = getItem (snd w) key)
  | Abrupt e =>
      e = QuotaExceededError /\ truthy_opt t = true /\ w' = w
  end.
Proof.
  destruct w as [s ls]. unfold saveThreadId, loadThreadId, truthy_opt.
  assert (forall c w',
             localStorage_removeItem LS_THREAD (s, ls) = (c, w') ->
             match c with
             | Normal _ =>
                 localStorage_getItem LS_THREAD w' = (Normal None, w') /\
                 fst w' = fst (s, ls) /\
                 (forall key, key <> LS_THREAD ->
                    getItem (snd w') key = getItem (snd (s, ls)) key)
             | Abrupt e => False
             end) as Hremove.
  { intros c0 w0 [= <- <-]. unfold localStorage_getItem. cbn [fst snd].
    rewrite getItem_removeItem, decide_True by reflexivity.
    split; [reflexivity|]. split; [reflexivity|].
    intros key Hkey. rewrite getItem_removeItem.
    now rewrite decide_False by congruence. }
  destruct t as [t|].
  - destruct (JsString.truthy t) eqn:Ht; cbn [negb].
    + unfold localStorage_setItem, localStorage_getItem. cbn [fst snd].
      destruct (setItem ls LS_THREAD t) as [ls'|] eqn:E.
      * intros [= <- <-]. cbn [fst snd].
        destruct (getItem_setItem _ _ _ LS_THREAD _ E) as [-> _].
        rewrite decide_True by reflexivity.
        split; [reflexivity|]. split; [reflexivity|].
        intros key Hkey.
        destruct (getItem_setItem _ _ _ key _ E) as [-> _].
        now rewrite decide_False by congruence.
      * intros [= <- <-]. auto.
    + intros H. specialize (Hremove _ _ H). destruct c; [exact Hremove|].
      contradiction.
  - intros H. specialize (Hremove _ _ H). destruct c; [exact Hremove|].
    contradiction.
Qed.

(** X14 on an empty storage with room. *)
Lemma saveThreadId_loadThreadId_witness :
  let w := (initialState, empty_storage 1000) in
  loadThreadId (snd (saveThreadId (Some sample_uuid) w))
  = (Normal (Some sample_uuid), snd (saveThreadId (Some sample_uuid) w)).
Proof.
  intros w.
  pose proof (saveThreadId_loadThreadId (Some sample_uuid) w
                (snd (saveThreadId (Some sample_uuid) w)) (Normal tt)) as H.
  apply H. vm_compute. reflexivity.
Defined.

(** *** [saveMessages] *)

Lemma JSON_stringify_messages_truthy (ms : list ChatMessage) :
  JsString.truthy (JSON_stringify_messages ms) = true.
Proof. reflexivity. Qed.

(** X15: [saveMessages] always returns.  It leaves the state and every item
    other than the persisted log alone, and the persisted log is afterwards
    either the text of the messages or, when the storage rejected the
    write, what it was. *)
Theorem saveMessages_never_throws (ms : list ChatMessage) (w : World) :
  exists ls',
    saveMessages ms w = (Normal tt, (fst w, ls')) /\
    (forall key, key <> LS_MESSAGES ->
       getItem ls' key = getItem (snd w) key) /\
    (getItem ls' LS_MESSAGES = Some (JSON_stringify_messages ms) \/
     (setItem (snd w) LS_MESSAGES (JSON_stringify_messages ms) = None /\
      ls' = snd w)).
Proof.
  rewrite saveMessages_run. eexists. split; [reflexivity|]. split.
  - intros key Hkey. apply getItem_persist_ne. congruence.
  - unfold persist.
    destruct (setItem (snd w) LS_MESSAGES (JSON_stringify_messages ms))
      as [ls'|] eqn:E; [left|right; now split].
    destruct (getItem_setItem _ _ _ LS_MESSAGES _ E) as [-> _].
    now rewrite decide_True.
Qed.

(** *** Values that are loaded or else created *)

(** The common shape of [getOrCreateSessionId] and [loadGameId]. *)
Definition load_or_store (key : string) (def : jsstring) : M jsstring :=
  existing <- localStorage_getItem key ;;
  match existing with
  | Some e =>
      if JsString.truthy e then ret e
      else localStorage_setItem key def ;; ret def
  | None => localStorage_setItem key def ;; ret def
  end.

Lemma getOrCreateSessionId_shape (randomUUID : jsstring) :
  getOrCreateSessionId randomUUID = load_or_store LS_SESSION randomUUID.
Proof. reflexivity. Qed.

Lemma loadGameId_shape : loadGameId = load_or_store LS_GAME_ID (lit "valheim").
Proof. reflexivity. Qed.

Lemma store_default (key : string) (def : jsstring) (s : State)
    (ls : LocalStorage) :
  (localStorage_setItem key def ;; ret def) (s, ls) =
  match setItem ls key def with
  | Some ls' => (Normal def, (s, ls'))
  | None => (Abrupt QuotaExceededError, (s, ls))
  end.
Proof.
  unfold bind, localStorage_setItem, ret. cbn [fst snd].
  destruct (setItem ls key def); reflexivity.
Qed.

Lemma load_or_store_returns (key : string) (def g : jsstring) (w w' : World) :
  JsString.truthy def = true ->
  load_or_store key def w = (Normal g, w') ->
  JsString.truthy g = true /\
  getItem (snd w') key = Some g /\
  fst w' = fst w /\
  (forall key', key' <> key -> getItem (snd w') key' = getItem (snd w) key') /\
  ((w' = w /\ getItem (snd w) key = Some g) \/
   (truthy_opt (getItem (snd w) key) = false /\ g = def)).
Proof.
  intros Hdef. destruct w as [s ls].
  unfold load_or_store. unfold bind at 1. unfold localStorage_getItem.
  cbn [fst snd].
  assert ((localStorage_setItem key def ;; ret def) (s, ls) = (Normal g, w') ->
          truthy_opt (getItem ls key) = false ->
          JsString.truthy g = true /\
          getItem (snd w') key = Some g /\
          fst w' = s /\
          (forall key', key' <> key ->
             getItem (snd w') key' = getItem ls key') /\
          ((w' = (s, ls) /\ getItem ls key = Some g) \/
           (truthy_opt (getItem ls key) = false /\ g = def))) as Hstore.
  { rewrite store_default. intros H Hf.
    destruct (setItem ls key def) as [ls'|] eqn:E; [|discriminate].
    injection H as <- <-. cbn [fst snd].
    split; [exact Hdef|]. split.
    { destruct (getItem_setItem _ _ _ key _ E) as [-> _].
      now rewrite decide_True. }
    split; [reflexivity|]. split; [|now right].
    intros key' Hkey. destruct (getItem_setItem _ _ _ key' _ E) as [-> _].
    now rewrite decide_False by congruence. }
  destruct (getItem ls key) as [e|] eqn:Eg.
  - destruct (JsString.truthy e) eqn:Et.
    + intros [= <- <-]. cbn [fst snd]. rewrite Eg. auto 10.
    + intros H. apply Hstore; [exact H|exact Et].
  - intros H. apply Hstore; [exact H|reflexivity].
Qed.

Lemma load_or_store_again (key : string) (def def' g : jsstring)
    (w : World) :
  JsString.truthy g = true ->
  getItem (snd w) key = Some g ->
  load_or_store key def' w = (Normal g, w).
Proof.
  intros Ht Hg. unfold load_or_store, bind, localStorage_getItem.
  rewrite Hg, Ht. reflexivity.
Qed.

(** *** [loadGameId] *)

(** X16: when [loadGameId] returns, the game it returns is not the empty
    string and is the persisted one: either it was persisted before and
    nothing was written, or nothing usable was persisted and the game is
    [valheim].  The state and every other item are unchanged, and the next
    call returns the same game without writing. *)
Theorem loadGameId_stable (w w' : World) (g : jsstring) :
  loadGameId w = (Normal g, w') ->
  JsString.truthy g = true /\
  getItem (snd w') LS_GAME_ID = Some g /\
  fst w' = fst w /\
  (forall key, key <> LS_GAME_ID ->
     getItem (snd w') key = getItem (snd w) key) /\
  ((w' = w /\ getItem (snd w) LS_GAME_ID = Some g) \/
   (truthy_opt (getItem (snd w) LS_GAME_ID) = false /\ g = lit "valheim")) /\
  loadGameId w' = (Normal g, w').
Proof.
  rewrite loadGameId_shape. intros H.
  destruct (load_or_store_returns LS_GAME_ID (lit "valheim") _ _ _ eq_refl H)
    as (Ht & Hg & Hs & Hk & Hc).
  repeat (split; [assumption|]).
  now apply load_or_store_again.
Qed.

(** X16 on an empty storage with room: the default is persisted once. *)
Lemma loadGameId_stable_witness :
  let w := (initialState, empty_storage 1000) in
  loadGameId (snd (loadGameId w)) = (Normal (lit "valheim"), snd (loadGameId w)).
Proof.
  intros w.
  apply (loadGameId_stable w (snd (loadGameId w)) (lit "valheim")).
  vm_compute. reflexivity.
Defined.

Section Mount.

Variable JSON_parse_messages : jsstring -> option (list ChatMessage).

Abbreviation loadMessages := (loadMessages JSON_parse_messages).
Abbreviation mountEffect := (mountEffect JSON_parse_messages).

(** The log [loadMessages] reads from a storage. *)
Definition stored_log (ls : LocalStorage) : list ChatMessage :=
  match getItem ls LS_MESSAGES with
  | Some r =>
      if JsString.truthy r then
        match JSON_parse_messages r with
        | Some ms => ms
        | None => []
        end
      else []
  | None => []
  end.

Lemma loadMessages_run (w : World) :
  loadMessages w = (Normal (stored_log (snd w)), w).
Proof.
  unfold Page.loadMessages, stored_log, bind, localStorage_getItem, ret.
  destruct (getItem (snd w) LS_MESSAGES) as [r|]; [|reflexivity].
  destruct (JsString.truthy r); [|reflexivity].
  destruct (JSON_parse_messages r); reflexivity.
Qed.

(** X17: a log that [JSON.parse] reads back from its text survives the
    storage: after [saveMessages], [loadMessages] returns the saved log if
    the storage took the write, and what it would have returned before if
    the write was rejected; it returns the empty log when nothing, the
    empty string or a text that does not parse is persisted.  Loading
    changes neither state nor storage. *)
Theorem saveMessages_loadMessages (ms : list ChatMessage) (w : World) :
  JSON_parse_messages (JSON_stringify_messages ms) = Some ms ->
  let w' := snd (saveMessages ms w) in
  (setItem (snd w) LS_MESSAGES (JSON_stringify_messages ms) <> None ->
   loadMessages w' = (Normal ms, w')) /\
  (setItem (snd w) LS_MESSAGES (JSON_stringify_messages ms) = None ->
   w' = w) /\
  (forall w0,
      (forall raw, getItem (snd w0) LS_MESSAGES = Some raw ->
                   JsString.truthy raw = true ->
                   JSON_parse_messages raw = None) ->
      loadMessages w0 = (Normal [], w0)).
Proof.
  intros Hparse w'. unfold w'. rewrite saveMessages_run. cbn [snd].
  split; [|split].
  - intros Hset. rewrite loadMessages_run. cbn [snd]. unfold stored_log, persist.
    destruct (setItem (snd w) LS_MESSAGES (JSON_stringify_messages ms))
      as [ls'|] eqn:E; [|contradiction].
    destruct (getItem_setItem _ _ _ LS_MESSAGES _ E) as [-> _].
    rewrite decide_True by reflexivity.
    now rewrite JSON_stringify_messages_truthy, Hparse.
  - intros Hset. unfold persist. rewrite Hset. now destruct w.
  - intros w0 Hbad. rewrite loadMessages_run. unfold stored_log.
    destruct (getItem (snd w0) LS_MESSAGES) as [r|]; [|reflexivity].
    destruct (JsString.truthy r) eqn:Et; [|reflexivity].
    now rewrite (Hbad r eq_refl Et).
Qed.

(** The world a completed mount effect leaves. *)
Lemma mountEffect_run (randomUUID : jsstring) (s : State)
    (ls : LocalStorage) (w' : World) :
  JsString.truthy randomUUID = true ->
  mountEffect randomUUID (s, ls) = (Normal tt, w') ->
  exists sid gid ls',
    w' = ({| sessionId := sid; threadId := getItem ls LS_THREAD;
             gameId := gid; spoilerLevel := spoilerLevel s;
             query := query s; loading := loading s; err := err s;
             messages := stored_log ls;
             sourcesForMessageId := sourcesForMessageId s |}, ls') /\
    (JsString.truthy sid = true /\ getItem ls' LS_SESSION = Some sid) /\
    (JsString.truthy gid = true /\ getItem ls' LS_GAME_ID = Some gid) /\
    (getItem ls LS_SESSION = Some sid \/
     (truthy_opt (getItem ls LS_SESSION) = false /\ sid = randomUUID)) /\
    (getItem ls LS_GAME_ID = Some gid \/
     (truthy_opt (getItem ls LS_GAME_ID) = false /\ gid = lit "valheim")) /\
    (forall key, key <> LS_SESSION -> key <> LS_GAME_ID ->
       getItem ls' key = getItem ls key).
Proof.
  intros Hid. unfold Page.mountEffect, bind.
  destruct (getOrCreateSessionId randomUUID (s, ls)) as [[sid|e] [s1 ls1]]
    eqn:E1; [|discriminate].
  rewrite getOrCreateSessionId_shape in E1.
  destruct (load_or_store_returns _ _ _ _ _ Hid E1)
    as (Hsid & Hsess & Hs1 & Hk1 & Hc1).
  cbn [fst snd] in *. subst s1.
  unfold setSessionId, setThreadId, setMessagesTo, setGameId, update,
    loadThreadId, localStorage_getItem.
  cbn [fst snd]. rewrite loadMessages_run. cbn [fst snd].
  match goal with
  | |- context [loadGameId ?w1] =>
      destruct (loadGameId w1) as [[gid|e] [s2 ls2]] eqn:E2; [|discriminate]
  end.
  rewrite loadGameId_shape in E2.
  destruct (load_or_store_returns LS_GAME_ID (lit "valheim") _ _ _ eq_refl E2)
    as (Hgid & Hgame & Hs2 & Hk2 & Hc2).
  cbn [fst snd] in *. subst s2.
  intros [= <-]. reduce.
  exists sid, gid, ls2. split.
  { f_equal. f_equal.
    - apply Hk1. discriminate.
    - unfold stored_log. now rewrite Hk1 by discriminate. }
  split.
  { split; [exact Hsid|]. rewrite Hk2 by discriminate. exact Hsess. }
  split; [now split|].
  split.
  { destruct Hc1 as [[_ Hc1]|Hc1]; [now left | now right]. }
  split.
  { rewrite <- (Hk1 LS_GAME_ID) by discriminate.
    destruct Hc2 as [[_ Hc2]|Hc2]; [now left | now right]. }
  intros key K1 K2. rewrite Hk2 by congruence. apply Hk1. congruence.
Qed.

(** X18: when the mount effect completes, the state mirrors the storage:
    the session identifier and the game in memory are the persisted ones
    and neither is the empty string, the thread identifier in memory is the
    persisted one or [null], the log in memory is the log that
    [loadMessages] reads.  The effect writes neither the thread identifier
    nor the log, and leaves the spoiler level, the input text, the loading
    flag, the error and the selection of the source dialog alone. *)
Theorem mountEffect_mirrors_storage (randomUUID : jsstring) (w w' : World) :
  JsString.truthy randomUUID = true ->
  mountEffect randomUUID w = (Normal tt, w') ->
  (getItem (snd w') LS_SESSION = Some (sessionId (fst w')) /\
   JsString.truthy (sessionId (fst w')) = true) /\
  threadId (fst w') = getItem (snd w') LS_THREAD /\
  (getItem (snd w') LS_GAME_ID = Some (gameId (fst w')) /\
   JsString.truthy (gameId (fst w')) = true) /\
  messages (fst w') = stored_log (snd w') /\
  (getItem (snd w') LS_THREAD = getItem (snd w) LS_THREAD /\
   getItem (snd w') LS_MESSAGES = getItem (snd w) LS_MESSAGES) /\
  (spoilerLevel (fst w') = spoilerLevel (fst w) /\
   query (fst w') = query (fst w) /\
   loading (fst w') = loading (fst w) /\
   err (fst w') = err (fst w) /\
   sourcesForMessageId (fst w') = sourcesForMessageId (fst w)).
Proof.
  intros Hid. destruct w as [s ls]. intros H.
  destruct (mountEffect_run _ _ _ _ Hid H)
    as (sid & gid & ls' & -> & [Hsid Hsess] & [Hgid Hgame] & _ & _ & Hk).
  reduce.
  assert (getItem ls' LS_THREAD = getItem ls LS_THREAD) as Ht
    by (apply Hk; discriminate).
  assert (getItem ls' LS_MESSAGES = getItem ls LS_MESSAGES) as Hm
    by (apply Hk; discriminate).
  split; [now split|]. split; [now rewrite Ht|]. split; [now split|].
  split; [unfold stored_log; now rewrite Hm|].
  split; [now split|]. repeat split.
Qed.

End Mount.

(** A parser that reads back the text of one log and nothing else. *)
Definition parse_only (ms : list ChatMessage) (raw : jsstring)
  : option (list ChatMessage) :=
  if jsstring_eqb raw (JSON_stringify_messages ms) then Some ms else None.

(** X17 on a log of one message. *)
Lemma saveMessages_loadMessages_witness :
  let w := (initialState, empty_storage 1000) in
  let w' := snd (saveMessages [sample_message] w) in
  Page.loadMessages (parse_only [sample_message]) w'
  = (Normal [sample_message], w').
Proof.
  intros w w'.
  refine (proj1 (saveMessages_loadMessages (parse_only [sample_message])
                   [sample_message] w _) _).
  - vm_compute. reflexivity.
  - vm_compute. discriminate.
Defined.

(** X18 on the first visit. *)
Lemma mountEffect_mirrors_storage_witness :
  let w := (initialState, empty_storage 1000) in
  let w' := snd (Page.mountEffect no_parse sample_uuid w) in
  getItem (snd w') LS_SESSION = Some (sessionId (fst w')) /\
  threadId (fst w') = getItem (snd w') LS_THREAD.
Proof.
  intros w w'.
  destruct (mountEffect_mirrors_storage no_parse sample_uuid w w')
    as ((H1 & _) & H2 & _).
  - reflexivity.
  - vm_compute. reflexivity.
  - split; [exact H1 | exact H2].
Defined.

End StorageFacts.
(* ------------------------------------------------------------------ *)
(** ** Asks and runs of the page *)
(* ------------------------------------------------------------------ *)

Module RunFacts.
Import JsNumber JsString JsValue Sources WebStorage Page PageFacts.
Local Open Scope js_scope.

(** *** The [catch] clause *)

(** X19: whatever is thrown, the [catch] clause records an object that is
    not [null] and changes nothing else: the thrown value itself when it is
    such an object, otherwise an error named [RagApiError] with the
    message [Unbekannter Fehler] that carries the thrown value as its
    body.  What [ragAnswer] throws and what a rejected write throws is
    recorded as it is. *)
Theorem onAsk_catch_records_object (e : value) (s : State)
    (ls : LocalStorage) :
  exists v,
    onAsk_catch e (s, ls) =
      (Normal tt,
       ({| sessionId := sessionId s; threadId := threadId s;
           gameId := gameId s; spoilerLevel := spoilerLevel s;
           query := query s; loading := loading s; err := Some v;
           messages := messages s;
           sourcesForMessageId := sourcesForMessageId s |}, ls)) /\
    typeof_object v = true /\ v <> VNull /\
    (v = e \/
     (typeof_object e && negb (match e with VNull => true | _ => false end)
        = false /\
      v = VObj [("name", VStr (lit "RagApiError"));
                ("message", VStr (lit "Unbekannter Fehler"));
                ("body", e)])) /\
    ((exists r, Api.ragAnswer_result r = Api.Threw e) -> v = e) /\
    (e = QuotaExceededError -> v = e).
Proof.
  unfold onAsk_catch.
  destruct (typeof_object e
            && negb (match e with VNull => true | _ => false end)) eqn:E.
  - exists e. split; [reflexivity|].
    apply andb_true_iff in E as [E1 E2].
    split; [exact E1|]. split; [now destruct e|]. auto.
  - eexists. split; [reflexivity|]. split; [reflexivity|].
    split; [discriminate|]. split; [right; now split|]. split.
    + intros [r Hr].
      destruct (ApiFacts.ragAnswer_result_throws_object _ _ Hr) as [props ->].
      discriminate E.
    + intros ->. discriminate E.
Qed.

(** *** The success path under a storage that rejects writes *)

Definition with_session (s : State) (sid : jsstring) : State :=
  {| sessionId := sid; threadId := threadId s; gameId := gameId s;
     spoilerLevel := spoilerLevel s; query := query s; loading := loading s;
     err := err s; messages := messages s;
     sourcesForMessageId := sourcesForMessageId s |}.

Definition with_thread (s : State) (tid : option jsstring) : State :=
  {| sessionId := sessionId s; threadId := tid; gameId := gameId s;
     spoilerLevel := spoilerLevel s; query := query s; loading := loading s;
     err := err s; messages := messages s;
     sourcesForMessageId := sourcesForMessageId s |}.

(** The part of [onAsk] after the [await], on a response. *)
Lemma onAsk_resume_fulfilled_cases (s : State) (ls : LocalStorage)
    (data : RagAnswerResult.t) (randomUUID : jsstring) (now : N) :
  let sid := RagAnswerResult.session_id data in
  let tid := RagAnswerResult.thread_id data in
  let log := messages s ++ [assistantMsg_of data randomUUID now] in
  onAsk_resume (Fulfilled data) randomUUID now (s, ls) =
  match setItem ls LS_SESSION sid with
  | None =>
      (Normal tt, (failed (with_session s sid) QuotaExceededError, ls))
  | Some ls1 =>
      if JsString.truthy tid then
        match setItem ls1 LS_THREAD tid with
        | None =>
            (Normal tt,
             (failed (with_thread (with_session s sid) (Some tid))
                QuotaExceededError, ls1))
        | Some ls2 =>
            (Normal tt,
             (answered s data randomUUID now,
              persist ls2 LS_MESSAGES (JSON_stringify_messages log)))
        end
      else
        (Normal tt,
         (answered s data randomUUID now,
          persist (removeItem ls1 LS_THREAD) LS_MESSAGES
            (JSON_stringify_messages log)))
  end.
Proof.
  intros sid tid log. subst sid tid log.
  unfold onAsk_resume, onAsk_fulfilled, onAsk_catch, saveThreadId,
    setMessages, setSessionId, setThreadId, setMessagesTo, setLoading, setErr.
  unfold try_finally, try_catch, bind, localStorage_setItem,
    localStorage_removeItem, readState, update, ret.
  reduce.
  destruct (setItem ls LS_SESSION (RagAnswerResult.session_id data))
    as [ls1|]; reduce; [|reflexivity].
  destruct (JsString.truthy (RagAnswerResult.thread_id data));
    cbn [negb]; reduce.
  - destruct (setItem ls1 LS_THREAD (RagAnswerResult.thread_id data))
      as [ls2|]; reduce; [|reflexivity].
    rewrite saveMessages_run. reflexivity.
  - rewrite saveMessages_run. reflexivity.
Qed.

(** X20: when the storage rejects the session identifier of a response,
    the answer is dropped: no assistant message is appended, the rejected
    write is shown as the error, the storage is as it was and the thread
    identifier is unchanged, but the session identifier in memory is
    already that of the response.  When the session identifier is stored
    and the thread identifier is rejected, the thread identifier in memory
    is that of the response while the storage keeps the old one. *)
Theorem onAsk_answer_lost_on_rejected_write (s : State) (ls : LocalStorage)
    (data : RagAnswerResult.t) (randomUUID : jsstring) (now : N) :
  let sid := RagAnswerResult.session_id data in
  let tid := RagAnswerResult.thread_id data in
  (setItem ls LS_SESSION sid = None ->
   exists s',
     onAsk_resume (Fulfilled data) randomUUID now (s, ls)
       = (Normal tt, (s', ls)) /\
     messages s' = messages s /\ err s' = Some QuotaExceededError /\
     loading s' = false /\
     sessionId s' = sid /\ threadId s' = threadId s) /\
  (forall ls1,
     setItem ls LS_SESSION sid = Some ls1 ->
     JsString.truthy tid = true ->
     setItem ls1 LS_THREAD tid = None ->
     exists s',
       onAsk_resume (Fulfilled data) randomUUID now (s, ls)
         = (Normal tt, (s', ls1)) /\
       messages s' = messages s /\ err s' = Some QuotaExceededError /\
       loading s' = false /\
       sessionId s' = sid /\ threadId s' = Some tid /\
       getItem ls1 LS_SESSION = Some sid /\
       getItem ls1 LS_THREAD = getItem ls LS_THREAD).
Proof.
  intros sid tid. split.
  - intros H. eexists. split.
    { rewrite onAsk_resume_fulfilled_cases. cbv zeta. fold sid.
      rewrite H. reflexivity. }
    repeat split.
  - intros ls1 H1 Ht H2. eexists. split.
    { rewrite onAsk_resume_fulfilled_cases. cbv zeta. fold sid tid.
      rewrite H1, Ht, H2. reflexivity. }
    repeat split.
    + destruct (getItem_setItem _ _ _ LS_SESSION _ H1) as [-> _].
      now rewrite decide_True.
    + destruct (getItem_setItem _ _ _ LS_THREAD _ H1) as [-> _].
      now rewrite decide_False by discriminate.
Qed.

(** A response whose identifiers do not fit into what the storage has
    left. *)
Definition forge_answer : RagAnswerResult.t :=
  {| RagAnswerResult.session_id := sample_uuid;
     RagAnswerResult.thread_id := other_uuid;
     RagAnswerResult.answer := Some (lit "Near the shore.");
     RagAnswerResult.sources := None;
     RagAnswerResult.interaction_id := None |}.

(** X20 on a storage without room. *)
Lemma onAsk_answer_lost_on_rejected_write_witness :
  exists s',
    onAsk_resume (Fulfilled forge_answer) sample_uuid 1730000000500
      (initialState, empty_storage 10) = (Normal tt, (s', empty_storage 10)) /\
    messages s' = [] /\ err s' = Some QuotaExceededError /\
    loading s' = false /\
    sessionId s' = sample_uuid /\ threadId s' = None.
Proof.
  apply (proj1 (onAsk_answer_lost_on_rejected_write initialState
                  (empty_storage 10) forge_answer sample_uuid
                  1730000000500)).
  vm_compute. reflexivity.
Defined.

(** *** [resetThread] *)

Lemma setItem_same (ls ls' : LocalStorage) (key : string) (v : jsstring) :
  setItem ls key v = Some ls' -> setItem ls' key v = Some ls'.
Proof.
  unfold setItem.
  destruct (usage (<[key:=v]> (items ls)) <=? quota ls)%N eqn:E;
    [|discriminate].
  intros [= <-]. cbn [items quota]. rewrite insert_insert_eq. now rewrite E.
Qed.

Lemma removeItem_absent (ls : LocalStorage) (key : string) :
  getItem ls key = None -> removeItem ls key = ls.
Proof.
  unfold getItem, removeItem. intros H. rewrite delete_id by exact H.
  now destruct ls.
Qed.

(** X21: [resetThread] is idempotent on state and storage, also when the
    storage rejects the empty log. *)
Theorem resetThread_idempotent (w : World) :
  resetThread (snd (resetThread w)) = resetThread w.
Proof.
  destruct w as [s ls]. rewrite resetThread_run. cbn [snd].
  rewrite resetThread_run. f_equal. f_equal.
  assert (removeItem (persist (removeItem ls LS_THREAD) LS_MESSAGES (lit "[]"))
            LS_THREAD
          = persist (removeItem ls LS_THREAD) LS_MESSAGES (lit "[]")) as ->.
  { apply removeItem_absent. rewrite getItem_persist_ne by discriminate.
    rewrite getItem_removeItem. now rewrite decide_True. }
  unfold persist at 1.
  destruct (setItem (persist (removeItem ls LS_THREAD) LS_MESSAGES (lit "[]"))
              LS_MESSAGES (lit "[]")) as [ls'|] eqn:E; [|reflexivity].
  unfold persist in *.
  destruct (setItem (removeItem ls LS_THREAD) LS_MESSAGES (lit "[]"))
    as [ls1|] eqn:E1.
  - rewrite (setItem_same _ _ _ _ E1) in E. congruence.
  - congruence.
Qed.

(** *** An ask that succeeds *)

Definition typing (s : State) (text : jsstring) : State :=
  {| sessionId := sessionId s; threadId := threadId s; gameId := gameId s;
     spoilerLevel := spoilerLevel s; query := text; loading := loading s;
     err := err s; messages := messages s;
     sourcesForMessageId := sourcesForMessageId s |}.

(** X22: an ask that passes the guard, whose call returns a response and
    whose identifiers the storage accepts leaves the question and the
    answer at the end of the log, in this order, the identifiers of the
    response in memory and in storage, the input empty, no error and the
    loading flag off.  Both identifiers have passed the identifier check,
    and the next ask from that state sends them. *)
Theorem onAsk_success (invoke : Api.Invoke) (s : State)
    (ls ls1 ls2 : LocalStorage) (d : value) (data : RagAnswerResult.t)
    (id1 : jsstring) (now1 : N) (id2 : jsstring) (now2 : N) :
  JsString.truthy (trim (query s)) = true ->
  JsString.truthy (sessionId s) = true ->
  loading s = false ->
  Api.ragAnswer invoke (request_of s) = Api.Returned d ->
  RagAnswerResult.cast d = Some data ->
  let sid := RagAnswerResult.session_id data in
  let tid := RagAnswerResult.thread_id data in
  let question := userMsg_of s id1 now1 in
  let reply := assistantMsg_of data id2 now2 in
  setItem (persist ls LS_MESSAGES
             (JSON_stringify_messages (messages s ++ [question])))
    LS_SESSION sid = Some ls1 ->
  setItem ls1 LS_THREAD tid = Some ls2 ->
  exists s' ls',
    onAsk invoke id1 now1 id2 now2 (s, ls) = Some (s', ls') /\
    messages s' = messages s ++ [question; reply] /\
    (sessionId s' = sid /\ threadId s' = Some tid) /\
    (query s' = lit "" /\ err s' = None /\ loading s' = false) /\
    (getItem ls' LS_SESSION = Some sid /\ getItem ls' LS_THREAD = Some tid) /\
    (Api.isValidUuid (VStr sid) = true /\
     Api.isValidUuid (VStr tid) = true) /\
    (forall (text id3 : jsstring) (now3 : N),
        JsString.truthy (trim text) = true ->
        exists req w',
          onAsk_begin id3 now3 (typing s' text, ls')
            = (Normal (Some req), w') /\
          Api.sessionId req = sid /\ Api.threadId req = Some tid /\
          Api.query req = trim text /\
          Api.spoilerLevel req = spoilerLevel s).
Proof.
  intros Hq Hs Hl Hret Hcast sid tid question reply H1 H2.
  destruct (returned_thread_id_truthy _ _ _ Hret Hcast) as (Ht & Vs & Vt).
  destruct (ApiFacts.isValidUuid_shape _ Vs) as (x & [= <-] & _ & Hsid & _).
  fold sid in Hsid, Vs. fold tid in Ht, Vt.
  exists (answered (sending s id1 now1) data id2 now2).
  eexists. split.
  { unfold onAsk. rewrite onAsk_begin_dispatch by assumption.
    rewrite Hret. cbn [settle]. rewrite Hcast.
    rewrite (onAsk_resume_fulfilled _ _ ls1 ls2) by assumption.
    reflexivity. }
  split.
  { cbn [answered sending messages]. now rewrite <- app_assoc. }
  split; [now split|].
  split; [now split|].
  split.
  { split.
    - rewrite getItem_persist_ne by discriminate.
      destruct (getItem_setItem _ _ _ LS_SESSION _ H2) as [-> _].
      rewrite decide_False by discriminate.
      destruct (getItem_setItem _ _ _ LS_SESSION _ H1) as [-> _].
      now rewrite decide_True.
    - rewrite getItem_persist_ne by discriminate.
      destruct (getItem_setItem _ _ _ LS_THREAD _ H2) as [-> _].
      now rewrite decide_True. }
  split; [now split|].
  intros text id3 now3 Htext. eexists. eexists. split.
  { apply onAsk_begin_dispatch; [exact Htext|exact Hsid|reflexivity]. }
  repeat split.
Qed.

(** X22 on the question about the forge. *)
Lemma onAsk_success_witness :
  exists s' ls',
    onAsk forge_invoke other_uuid 1730000000000 sample_uuid 1730000000500
      (forge_question, empty_storage 10000) = Some (s', ls') /\
    (sessionId s' = sample_uuid /\ threadId s' = Some other_uuid).
Proof.
  pose (w := onAsk forge_invoke other_uuid 1730000000000 sample_uuid
               1730000000500 (forge_question, empty_storage 10000)).
  pose (d := Api.data (forge_invoke Api.ENDPOINT
                         (Api.ragAnswer_body (request_of forge_question)))).
  pose (ls0 := persist (empty_storage 10000) LS_MESSAGES
                 (JSON_stringify_messages
                    (messages forge_question
                     ++ [userMsg_of forge_question other_uuid
                           1730000000000]))).
  pose (ls1 := persist ls0 LS_SESSION sample_uuid).
  pose (ls2 := persist ls1 LS_THREAD other_uuid).
  destruct (onAsk_success forge_invoke forge_question
              (empty_storage 10000) ls1 ls2 d
              {| RagAnswerResult.session_id := sample_uuid;
                 RagAnswerResult.thread_id := other_uuid;
                 RagAnswerResult.answer := Some (lit "Near the shore.");
                 RagAnswerResult.sources :=
                   Some [[("title", lit "Wiki"); ("url", lit "https://x")];
                         [("title", lit "Wiki again");
                          ("url", lit "https://x")]];
                 RagAnswerResult.interaction_id := None |}
              other_uuid 1730000000000 sample_uuid 1730000000500)
    as (s' & ls' & Hrun & _ & Hids & _).
  - vm_compute. reflexivity.
  - reflexivity.
  - reflexivity.
  - vm_compute. reflexivity.
  - vm_compute. reflexivity.
  - vm_compute. reflexivity.
  - vm_compute. reflexivity.
  - exists s', ls'. split; [exact Hrun | exact Hids].
Defined.

(** *** Invariants of the runs of the page *)

Section Runs.

Variable JSON_parse_messages : jsstring -> option (list ChatMessage).

Abbreviation step := (step JSON_parse_messages).
Abbreviation steps := (steps JSON_parse_messages).

Definition spoiler_of (w : World) : number := spoilerLevel (fst w).
Definition log_of (w : World) : list ChatMessage := messages (fst w).

(** A request as [onAsk] builds it. *)
Definition well_formed (req : Api.RagAnswerRequest) : Prop :=
  JsString.truthy (Api.sessionId req) = true /\
  JsString.truthy (Api.query req) = true /\
  trim (Api.query req) = Api.query req /\
  In (Api.spoilerLevel req) Spoiler.SPOILER_SNAP_POINTS /\
  Api.matchCount req = None /\ Api.docFilter req = None /\
  Api.developerMode req = None.

Definition canonical (sys : System) : Prop :=
  In (spoilerLevel (fst (world sys))) Spoiler.SPOILER_SNAP_POINTS /\
  Forall well_formed (inflight sys).

Lemma run_keeps {X : Type} (f : World -> X) (m : M unit) (sys sys' : System) :
  keeps f m -> run m sys = Some sys' ->
  f (world sys') = f (world sys) /\ inflight sys' = inflight sys.
Proof.
  intros Hm. unfold run. specialize (Hm (world sys)).
  destruct (m (world sys)) as [[u|e] w]; [|discriminate].
  intros [= <-]. cbn [world inflight snd] in *. now split.
Qed.

Lemma mountEffect_keeps_spoiler (randomUUID : jsstring) :
  keeps spoiler_of (mountEffect JSON_parse_messages randomUUID).
Proof.
  unfold mountEffect, getOrCreateSessionId, loadThreadId, loadMessages,
    loadGameId, setSessionId, setThreadId, setMessagesTo, setGameId,
    spoiler_of.
  frame.
Qed.

Lemma resetThread_keeps_spoiler : keeps spoiler_of resetThread.
Proof.
  unfold resetThread, saveThreadId, saveMessages, setThreadId, setMessagesTo,
    setErr, setQuery, setSourcesForMessageId, spoiler_of.
  frame.
Qed.

Lemma onAsk_resume_keeps_spoiler (settled : Settled) (randomUUID : jsstring)
    (now : N) :
  keeps spoiler_of (onAsk_resume settled randomUUID now).
Proof.
  unfold onAsk_resume, onAsk_fulfilled, onAsk_catch, saveThreadId,
    saveMessages, setMessages, setSessionId, setThreadId, setMessagesTo,
    setLoading, setErr, spoiler_of.
  frame.
Qed.

Lemma step_canonical (sys sys' : System) (ev : Event) :
  canonical sys -> step sys ev = Some sys' -> canonical sys'.
Proof.
  intros [Hlevel Hreqs].
  assert (forall m, keeps spoiler_of m -> run m sys = Some sys' ->
                    canonical sys') as Hrun.
  { intros m Hm H. destruct (run_keeps _ _ _ _ Hm H) as [E1 E2].
    unfold canonical, spoiler_of in *. now rewrite E1, E2. }
  destruct ev as [id|text|val|mid| | |id now|r id now]; cbn [Page.step].
  - apply Hrun, mountEffect_keeps_spoiler.
  - apply Hrun. unfold setQuery, spoiler_of. frame.
  - unfold run, setSpoilerLevel, update. intros [= <-].
    split; [|exact Hreqs]. cbn [world fst spoilerLevel].
    apply SpoilerFacts.snapSpoilerLevel_in.
  - apply Hrun. unfold setSourcesForMessageId, spoiler_of. frame.
  - apply Hrun. unfold setSourcesForMessageId, spoiler_of. frame.
  - apply Hrun, resetThread_keeps_spoiler.
  - destruct sys as [[s ls] pending]. cbn [world inflight fst] in *.
    destruct (blocked_dec s) as [Hb|(Hq & Hs & Hl)].
    + rewrite onAsk_begin_blocked by exact Hb. intros [= <-]. now split.
    + rewrite onAsk_begin_dispatch by assumption. intros [= <-].
      split; [exact Hlevel|]. cbn [inflight].
      apply Forall_app. split; [exact Hreqs|].
      constructor; [|constructor].
      unfold well_formed, request_of.
      cbn [Api.sessionId Api.query Api.spoilerLevel Api.matchCount
           Api.docFilter Api.developerMode].
      repeat split; try assumption. apply StringFacts.trim_idempotent.
  - destruct (inflight sys) as [|req rest] eqn:Hp; [discriminate|].
    destruct (settle (Api.ragAnswer_result r)) as [settled|]; [|discriminate].
    pose proof (onAsk_resume_keeps_spoiler settled id now (world sys)) as Hk.
    destruct (onAsk_resume settled id now (world sys)) as [[u|e] w];
      [|discriminate].
    intros [= <-]. unfold canonical, spoiler_of in *.
    cbn [world inflight snd] in *. rewrite Hk. split; [exact Hlevel|].
    now inversion Hreqs.
Qed.

Lemma steps_canonical (evs : list Event) (sys sys' : System) :
  canonical sys -> steps sys evs = Some sys' -> canonical sys'.
Proof.
  revert sys. induction evs as [|ev evs IH]; intros sys Hinv; cbn [Page.steps].
  - now intros [= <-].
  - destruct (step sys ev) as [sys1|] eqn:E; [|discriminate].
    apply IH. eapply step_canonical; eauto.
Qed.

Lemma boot_canonical (ls : LocalStorage) : canonical (boot ls).
Proof.
  split; [|constructor]. cbn. right. left. reflexivity.
Qed.

(** X23: in every run of the page from its start the spoiler level in
    memory is one of the snap points 0, 33, 66 and 100, whatever values the
    slider reports, numbers that are not finite and an empty value array
    included. *)
Theorem spoilerLevel_always_snapped (ls : LocalStorage) (evs : list Event)
    (sys : System) :
  steps (boot ls) evs = Some sys ->
  In (spoilerLevel (fst (world sys))) Spoiler.SPOILER_SNAP_POINTS.
Proof.
  intros H. apply (steps_canonical evs (boot ls) sys (boot_canonical ls) H).
Qed.

(** X24: in every run of the page from its start, a request handed to
    [ragAnswer] has a session identifier and a query that are not empty,
    the query is trimmed, the spoiler level is a snap point, and no match
    count, document filter or developer mode is set. *)
Theorem requests_well_formed (ls : LocalStorage) (evs : list Event)
    (sys : System) (req : Api.RagAnswerRequest) :
  steps (boot ls) evs = Some sys ->
  In req (inflight sys) ->
  JsString.truthy (Api.sessionId req) = true /\
  JsString.truthy (Api.query req) = true /\
  trim (Api.query req) = Api.query req /\
  In (Api.spoilerLevel req) Spoiler.SPOILER_SNAP_POINTS /\
  Api.matchCount req = None /\ Api.docFilter req = None /\
  Api.developerMode req = None.
Proof.
  intros H Hin.
  destruct (steps_canonical evs (boot ls) sys (boot_canonical ls) H)
    as [_ Hreqs].
  rewrite Forall_forall in Hreqs. apply (Hreqs req).
  now apply list_elem_of_In.
Qed.

(** *** The log only grows *)

(** The events that replace the log: the mount effect, which loads the
    persisted one, and the button of a new topic. *)
Definition replaces_log (ev : Event) : bool :=
  match ev with
  | Mount _ | NewTopic => true
  | _ => false
  end.

Lemma onAsk_resume_log (settled : Settled) (randomUUID : jsstring) (now : N)
    (w : World) :
  exists added,
    log_of (snd (onAsk_resume settled randomUUID now w)) = log_of w ++ added /\
    (length added <= 1)%nat.
Proof.
  destruct w as [s ls]. destruct settled as [data|e].
  - rewrite onAsk_resume_fulfilled_cases. cbv zeta.
    destruct (setItem ls LS_SESSION _) as [ls1|].
    + destruct (JsString.truthy _).
      * destruct (setItem ls1 LS_THREAD _) as [ls2|].
        -- eexists. split; [reflexivity|]. cbn [length]. lia.
        -- exists []. split; [|cbn [length]; lia].
           unfold log_of. cbn [fst snd failed with_thread with_session
             messages]. now rewrite app_nil_r.
      * eexists. split; [reflexivity|]. cbn [length]. lia.
    + exists []. split; [|cbn [length]; lia].
      unfold log_of. cbn [fst snd failed with_session messages].
      now rewrite app_nil_r.
  - rewrite onAsk_resume_rejected. exists []. split; [|cbn [length]; lia].
    unfold log_of. cbn [fst snd failed messages]. now rewrite app_nil_r.
Qed.

Lemma step_log (sys sys' : System) (ev : Event) :
  replaces_log ev = false ->
  step sys ev = Some sys' ->
  exists added,
    log_of (world sys') = log_of (world sys) ++ added /\
    (length added <= 1)%nat.
Proof.
  intros Hev.
  assert (forall m, keeps log_of m -> run m sys = Some sys' ->
                    exists added,
                      log_of (world sys') = log_of (world sys) ++ added /\
                      (length added <= 1)%nat) as Hrun.
  { intros m Hm H. destruct (run_keeps _ _ _ _ Hm H) as [E1 _].
    exists []. rewrite app_nil_r. split; [exact E1|cbn [length]; lia]. }
  destruct ev as [id|text|val|mid| | |id now|r id now]; try discriminate Hev;
    cbn [Page.step].
  - apply Hrun. unfold setQuery, log_of. frame.
  - apply Hrun. unfold setSpoilerLevel, log_of. frame.
  - apply Hrun. unfold setSourcesForMessageId, log_of. frame.
  - apply Hrun. unfold setSourcesForMessageId, log_of. frame.
  - destruct sys as [[s ls] pending]. cbn [world inflight fst] in *.
    destruct (blocked_dec s) as [Hb|(Hq & Hs & Hl)].
    + rewrite onAsk_begin_blocked by exact Hb. intros [= <-].
      exists []. rewrite app_nil_r. split; [reflexivity|cbn [length]; lia].
    + rewrite onAsk_begin_dispatch by assumption. intros [= <-].
      eexists. split; [reflexivity|]. cbn [length]. lia.
  - destruct (inflight sys) as [|req rest] eqn:Hp; [discriminate|].
    destruct (settle (Api.ragAnswer_result r)) as [settled|]; [|discriminate].
    pose proof (onAsk_resume_log settled id now (world sys)) as Hk.
    destruct (onAsk_resume settled id now (world sys)) as [[u|e] w];
      [|discriminate].
    intros [= <-]. exact Hk.
Qed.

(** X25: apart from the mount effect and the button of a new topic, no
    event removes or changes a message: over a run of such events the log
    at the start is a prefix of the log at the end, and the log has grown
    by at most one message per event. *)
Theorem log_append_only (evs : list Event) (sys sys' : System) :
  forallb (fun ev => negb (replaces_log ev)) evs = true ->
  steps sys evs = Some sys' ->
  exists added,
    messages (fst (world sys')) = messages (fst (world sys)) ++ added /\
    (length added <= length evs)%nat.
Proof.
  revert sys. induction evs as [|ev evs IH]; intros sys Hevs;
    cbn [Page.steps].
  - intros [= <-]. exists []. now rewrite app_nil_r.
  - cbn [forallb] in Hevs. apply andb_true_iff in Hevs as [Hev Hevs].
    apply negb_true_iff in Hev.
    destruct (step sys ev) as [sys1|] eqn:E; [|discriminate].
    intros Hrest.
    destruct (step_log _ _ _ Hev E) as (a1 & E1 & L1).
    destruct (IH sys1 Hevs Hrest) as (a2 & E2 & L2).
    exists (a1 ++ a2). unfold log_of in *. rewrite E2, E1, <- app_assoc.
    split; [reflexivity|]. rewrite length_app. cbn [length]. lia.
Qed.

End Runs.

(** The slider reports a value between two snap points, then a value that
    is not a number, then nothing. *)
Definition sliding : list Event :=
  [Mount sample_uuid;
   Slide [Fin (49 # 1)];
   Slide [NaN];
   Slide []].

(** X23 on that run. *)
Lemma spoilerLevel_always_snapped_witness :
  exists sys,
    steps no_parse (boot (empty_storage 10000)) sliding = Some sys /\
    In (spoilerLevel (fst (world sys))) Spoiler.SPOILER_SNAP_POINTS.
Proof.
  pose (r := steps no_parse (boot (empty_storage 10000)) sliding).
  assert (exists sys, r = Some sys) as [sys E].
  { vm_compute. eexists. reflexivity. }
  exists sys. split; [exact E|].
  exact (spoilerLevel_always_snapped no_parse (empty_storage 10000) sliding
           sys E).
Defined.

(** A question typed with white space around it and submitted. *)
Definition padded_question : list Event :=
  [Mount sample_uuid;
   Slide [Fin (90 # 1)];
   Change (lit "  Where is the forge?  ");
   Submit other_uuid 1730000000000].

(** X24 on that run. *)
Lemma requests_well_formed_witness :
  exists sys req,
    steps no_parse (boot (empty_storage 10000)) padded_question = Some sys /\
    inflight sys = [req] /\
    trim (Api.query req) = Api.query req.
Proof.
  pose (r := steps no_parse (boot (empty_storage 10000)) padded_question).
  assert (exists sys, r = Some sys /\ exists req, inflight sys = [req])
    as (sys & E & req & Ereq).
  { vm_compute. eexists. split; [reflexivity|]. eexists. reflexivity. }
  exists sys, req. split; [exact E|]. split; [exact Ereq|].
  destruct (requests_well_formed no_parse (empty_storage 10000)
              padded_question sys req E) as (_ & _ & H & _).
  - rewrite Ereq. now left.
  - exact H.
Defined.

(** A run of a question and its failed call. *)
Definition failed_question : list Event :=
  [Change (lit "Where is the forge?");
   Submit other_uuid 1730000000000;
   Settle {| Api.data := VNull; Api.error := VNull |} sample_uuid
     1730000000500].

(** The page after its first effect on a first visit. *)
Definition mounted : System :=
  {| world :=
       ({| sessionId := sample_uuid; threadId := None;
           gameId := lit "valheim"; spoilerLevel := of_Z 33;
           query := lit ""; loading := false; err := None; messages := [];
           sourcesForMessageId := None |},
        empty_storage 10000);
     inflight := [] |}.

(** X25 on that run. *)
Lemma log_append_only_witness :
  exists sys,
    steps no_parse mounted failed_question = Some sys /\
    exists added,
      messages (fst (world sys)) = messages (fst (world mounted)) ++ added /\
      (length added <= 3)%nat.
Proof.
  pose (r := steps no_parse mounted failed_question).
  assert (exists sys, r = Some sys) as [sys E].
  { vm_compute. eexists. reflexivity. }
  exists sys. split; [exact E|].
  apply (log_append_only no_parse failed_question mounted sys);
    [reflexivity | exact E].
Defined.

End RunFacts.
(* ------------------------------------------------------------------ *)
(** ** The menu page and the chat it returns to *)
(* ------------------------------------------------------------------ *)

Module MenuFacts.
Import JsNumber JsString JsValue Sources WebStorage Page PageFacts.
Import StorageFacts Menu.
Local Open Scope js_scope.

Section Pages.

Variable toLowerCase : jsstring -> jsstring.

Abbreviation onSelectGame := (onSelectGame toLowerCase).

(** The persisted game in lower case, as [onSelectGame] compares it. *)
Definition current_game (ls : LocalStorage) : jsstring :=
  toLowerCase (match getItem ls LS_GAME_ID with
               | Some c => c
               | None => lit ""
               end).

Lemma getItem_resetThreadAndMessages (ls : LocalStorage) (key : string) :
  getItem (resetThreadAndMessages ls) key =
  if decide (key = LS_THREAD \/ key = LS_MESSAGES) then None
  else getItem ls key.
Proof.
  unfold resetThreadAndMessages. rewrite !getItem_removeItem.
  repeat case_decide; try reflexivity; subst; intuition congruence.
Qed.

(** The storage [onSelectGame] leaves, whether or not the game is
    written. *)
Lemma onSelectGame_storage (nextId gameId : jsstring) (ls : LocalStorage)
    (c : Completion unit) (g' : jsstring) (ls' : LocalStorage) :
  onSelectGame nextId gameId ls = (c, (g', ls')) ->
  let ls1 :=
    if negb (jsstring_eqb (current_game ls) (toLowerCase nextId))
    then resetThreadAndMessages ls else ls in
  (forall key, key <> LS_GAME_ID -> getItem ls' key = getItem ls1 key) /\
  match c with
  | Normal _ => g' = nextId /\ getItem ls' LS_GAME_ID = Some nextId
  | Abrupt e =>
      e = QuotaExceededError /\ g' = gameId /\ ls' = ls1
  end.
Proof.
  unfold Menu.onSelectGame, current_game. cbv zeta.
  destruct (setItem _ LS_GAME_ID nextId) as [ls2|] eqn:E.
  - intros [= <- <- <-]. split.
    + intros key Hkey. destruct (getItem_setItem _ _ _ key _ E) as [-> _].
      now rewrite decide_False by congruence.
    + split; [reflexivity|].
      destruct (getItem_setItem _ _ _ LS_GAME_ID _ E) as [-> _].
      now rewrite decide_True.
  - intros [= <- <- <-]. split; [reflexivity|]. auto.
Qed.

(** What [onSelectGame] does to the items of the conversation. *)
Lemma onSelectGame_items (nextId gameId : jsstring) (ls : LocalStorage)
    (c : Completion unit) (g' : jsstring) (ls' : LocalStorage) :
  onSelectGame nextId gameId ls = (c, (g', ls')) ->
  (current_game ls <> toLowerCase nextId ->
   getItem ls' LS_THREAD = None /\ getItem ls' LS_MESSAGES = None) /\
  (current_game ls = toLowerCase nextId ->
   getItem ls' LS_THREAD = getItem ls LS_THREAD /\
   getItem ls' LS_MESSAGES = getItem ls LS_MESSAGES) /\
  (forall key,
     key <> LS_GAME_ID -> key <> LS_THREAD -> key <> LS_MESSAGES ->
     getItem ls' key = getItem ls key).
Proof.
  intros H. destruct (onSelectGame_storage _ _ _ _ _ _ H) as [Hk _].
  cbv zeta in Hk. unfold jsstring_eqb in Hk.
  case_bool_decide as Hsame; cbn [negb] in Hk.
  - split; [intros Hne; contradiction|].
    split; [intros _; split; apply Hk; discriminate|].
    intros key K1 _ _. now apply Hk.
  - split.
    { intros _. rewrite !Hk by discriminate.
      rewrite !getItem_resetThreadAndMessages.
      rewrite !decide_True by auto. now split. }
    split; [intros He; contradiction|].
    intros key K1 K2 K3. rewrite Hk by exact K1.
    rewrite getItem_resetThreadAndMessages.
    now rewrite decide_False by tauto.
Qed.

(** X26: selecting a game that differs from the persisted one, compared in
    lower case, removes the persisted thread identifier and the persisted
    log, also when the storage then rejects the new game, in which case the
    old game stays persisted and selected; selecting the persisted game
    again leaves both.  No other item is touched, the session identifier in
    particular, and when the handler returns the selected game is
    persisted as it was given. *)
Theorem onSelectGame_resets_conversation (nextId gameId : jsstring)
    (ls : LocalStorage) (c : Completion unit) (g' : jsstring)
    (ls' : LocalStorage) :
  onSelectGame nextId gameId ls = (c, (g', ls')) ->
  (current_game ls <> toLowerCase nextId ->
   getItem ls' LS_THREAD = None /\ getItem ls' LS_MESSAGES = None) /\
  (current_game ls = toLowerCase nextId ->
   getItem ls' LS_THREAD = getItem ls LS_THREAD /\
   getItem ls' LS_MESSAGES = getItem ls LS_MESSAGES) /\
  (forall key,
     key <> LS_GAME_ID -> key <> LS_THREAD -> key <> LS_MESSAGES ->
     getItem ls' key = getItem ls key) /\
  match c with
  | Normal _ => g' = nextId /\ getItem ls' LS_GAME_ID = Some nextId
  | Abrupt e =>
      e = QuotaExceededError /\ g' = gameId /\
      getItem ls' LS_GAME_ID = getItem ls LS_GAME_ID
  end.
Proof.
  intros H. destruct (onSelectGame_items _ _ _ _ _ _ H) as (H1 & H2 & H3).
  repeat (split; [assumption|]).
  destruct (onSelectGame_storage _ _ _ _ _ _ H) as [_ Hc].
  destruct c as [u|e]; [exact Hc|].
  destruct Hc as (-> & -> & ->). split; [reflexivity|]. split; [reflexivity|].
  destruct (negb _); [|reflexivity].
  rewrite getItem_resetThreadAndMessages.
  rewrite decide_False; [reflexivity|].
  intros [K|K]; discriminate K.
Qed.

Variable JSON_parse_messages : jsstring -> option (list ChatMessage).

(** X27: the chat that mounts after a game was selected in the menu shows
    the selected game; it starts without thread identifier and with an
    empty log when the game differs from the one persisted before, and
    with the persisted thread identifier and log when it is the same.  The
    session identifier is the persisted one in both cases. *)
Theorem select_then_mount (nextId selected randomUUID : jsstring)
    (ls ls' : LocalStorage) (g' : jsstring) (s : State) (w : World) :
  JsString.truthy nextId = true ->
  JsString.truthy randomUUID = true ->
  onSelectGame nextId selected ls = (Normal tt, (g', ls')) ->
  mountEffect JSON_parse_messages randomUUID (s, ls') = (Normal tt, w) ->
  gameId (fst w) = nextId /\
  (current_game ls <> toLowerCase nextId ->
   threadId (fst w) = None /\ messages (fst w) = []) /\
  (current_game ls = toLowerCase nextId ->
   threadId (fst w) = getItem ls LS_THREAD /\
   messages (fst w) = stored_log JSON_parse_messages ls) /\
  (forall sid, getItem ls LS_SESSION = Some sid ->
     JsString.truthy sid = true -> sessionId (fst w) = sid).
Proof.
  intros Hnext Hid Hsel Hmount.
  destruct (onSelectGame_items _ _ _ _ _ _ Hsel) as (Hdiff & Hsame & Hk).
  destruct (onSelectGame_storage _ _ _ _ _ _ Hsel) as [_ [_ Hgame] ].
  destruct (mountEffect_run _ _ _ _ _ Hid Hmount)
    as (sid & gid & ls2 & -> & [Hsid Hsess] & [Hgid Hg2] & Hcs & Hc & Hk2).
  reduce. split.
  { destruct Hc as [Hc|[Hc _] ].
    - congruence.
    - rewrite Hgame in Hc. cbn [truthy_opt] in Hc. congruence. }
  split.
  { intros Hne. destruct (Hdiff Hne) as [Ht Hm]. split; [exact Ht|].
    unfold stored_log. now rewrite Hm. }
  split.
  { intros He. destruct (Hsame He) as [Ht Hm]. split; [exact Ht|].
    unfold stored_log. now rewrite Hm. }
  intros sid0 H0 Ht0.
  assert (getItem ls' LS_SESSION = Some sid0) as H1.
  { rewrite Hk by discriminate. exact H0. }
  destruct Hcs as [Hcs|[Hcs _] ].
  - congruence.
  - rewrite H1 in Hcs. cbn [truthy_opt] in Hcs. congruence.
Qed.


End Pages.

(** Lower case of the letters A to Z. *)
Definition ascii_lower (s : jsstring) : jsstring :=
  map (fun c : code_unit =>
         if ((65 <=? c) && (c <=? 90))%N then (c + 32)%N else c) s.

(** A storage of a conversation about Valheim. *)
Definition valheim_conversation : LocalStorage :=
  {| items := {[ LS_SESSION := sample_uuid; LS_THREAD := other_uuid;
                 LS_GAME_ID := lit "Valheim";
                 LS_MESSAGES := JSON_stringify_messages [sample_message] ]};
     quota := 10000 |}.

(** X26 on the selection of another game. *)
Lemma onSelectGame_resets_conversation_witness :
  let r := Menu.onSelectGame ascii_lower (lit "starrupture") (lit "Valheim")
             valheim_conversation in
  getItem (snd (snd r)) LS_THREAD = None /\
  getItem (snd (snd r)) LS_MESSAGES = None.
Proof.
  intros r.
  refine (proj1 (onSelectGame_resets_conversation ascii_lower
                   (lit "starrupture") (lit "Valheim") valheim_conversation
                   (fst r) (fst (snd r)) (snd (snd r)) _) _).
  - vm_compute. reflexivity.
  - vm_compute. discriminate.
Defined.

(** X27 on the selection of the same game in another case. *)
Lemma select_then_mount_witness :
  let r := Menu.onSelectGame ascii_lower (lit "valheim") (lit "Valheim")
             valheim_conversation in
  let w := snd (Page.mountEffect (parse_only [sample_message]) sample_uuid
                  (initialState, snd (snd r))) in
  gameId (fst w) = lit "valheim" /\ threadId (fst w) = Some other_uuid.
Proof.
  intros r w.
  destruct (select_then_mount ascii_lower (parse_only [sample_message])
              (lit "valheim") (lit "Valheim") sample_uuid
              valheim_conversation (snd (snd r)) (fst (snd r))
              initialState w) as (Hg & _ & Hsame & _).
  - reflexivity.
  - reflexivity.
  - vm_compute. reflexivity.
  - vm_compute. reflexivity.
  - split; [exact Hg|].
    destruct Hsame as [Ht _]; [vm_compute; reflexivity|].
    rewrite Ht. vm_compute. reflexivity.
Defined.


End MenuFacts.

